(** * The record-mapping engine of the fuzzing-fleet orchestrator

    A shallow embedding of [api-service/__app__/onefuzzlib/orm.py]:
    the key resolver ([resolve]), the query filter compiler
    ([build_filters], [post_filter]) and the record engine of [ORMMixin]
    ([get], [save], [delete], [load], [search], [queue] and the state
    and event hooks), and of [api-service/__app__/pool_resize/__init__.py],
    the timer that scales the pools up and down, followed by the
    properties of the specification that these definitions decide.

    Python values are a single inductive type; dictionaries whose
    iteration order is observable (the query) are association lists,
    the others (wire rows, residual filters, instance attributes) are
    finite maps.  Exceptions are values of [exn] carried by [result];
    calls to the table client, the queue, the dashboard and the telemetry
    channel are recorded, in program order, in a log. *)

From Stdlib Require Import ZArith String Ascii List Bool.
From stdpp Require Import base option list strings gmap fin_maps pretty.

Import ListNotations.
Local Set Warnings "-register-all".
Local Set Warnings "-clear-no-such-hyp".
Local Open Scope Z_scope.
Local Open Scope string_scope.

(** ** Python values *)

Module Py.

(** The classes of [onefuzztypes.primitives] that subclass [str], next to
    [str] itself.  [SAFE_STRINGS] of the source lists three of them. *)
Inductive strclass : Type :=
  | Str
  | Container
  | Region
  | PoolName.

(** The values the engine handles.  A [UUID] is carried by its canonical
    text (what [str(u)] returns), a [datetime] by its ISO text.  An
    enumeration member records its class, its symbolic name and its value.
    Booleans are kept apart from integers, and [isinstance(x, int)] holds
    of both, as in Python.  A nested [BaseModel] instance is carried by
    its fields, in declaration order, apart from a dictionary.
    Floating-point numbers are left out. *)
Inductive val : Type :=
  | PNone
  | PBool (b : bool)
  | PInt (z : Z)
  | PStr (c : strclass) (s : string)
  | PUUID (text : string)
  | PEnum (cls name : string) (value : val)
  | PDatetime (iso : string)
  | PList (items : list val)
  | PDict (items : list (string * val))
  | PModel (attributes : list (string * val)).

Definition is_none (v : val) : bool :=
  match v with PNone => true | _ => false end.

Definition is_str (v : val) : bool :=
  match v with PStr _ _ => true | _ => false end.

Definition is_int (v : val) : bool :=
  match v with PInt _ | PBool _ => true | _ => false end.

Definition is_enum (v : val) : bool :=
  match v with PEnum _ _ _ => true | _ => false end.

Definition is_uuid (v : val) : bool :=
  match v with PUUID _ => true | _ => false end.

(** The integer an [int] instance stands for ([True] is 1). *)
Definition int_of (v : val) : option Z :=
  match v with
  | PInt z => Some z
  | PBool b => Some (if b then 1 else 0)
  | _ => None
  end.

(** Truth value of an object in a condition ([if x], [not x]). *)
Definition truthy (v : val) : bool :=
  match v with
  | PNone => false
  | PBool b => b
  | PInt z => negb (Z.eqb z 0)
  | PStr _ s => negb (String.eqb s EmptyString)
  | PUUID _ => true
  | PEnum _ _ _ => true
  | PDatetime _ => true
  | PList l => match l with [] => false | _ => true end
  | PDict l => match l with [] => false | _ => true end
  | PModel _ => true
  end.

Definition lookup_assoc {A} (k : string) (l : list (string * A)) : option A :=
  snd <$> find (fun kv => String.eqb (fst kv) k) l.

(** Python's [==]: numbers by value, strings by content whatever their
    class, enumeration members by identity, sequences element-wise,
    dictionaries as mappings, and a model as the dictionary of its
    fields ([BaseModel.__eq__] compares [self.dict()]). *)
Fixpoint eqb (a b : val) {struct a} : bool :=
  match a, b with
  | PNone, PNone => true
  | PBool x, PBool y => Bool.eqb x y
  | PBool x, PInt y => Z.eqb (if x then 1 else 0) y
  | PInt x, PBool y => Z.eqb x (if y then 1 else 0)
  | PInt x, PInt y => Z.eqb x y
  | PStr _ x, PStr _ y => String.eqb x y
  | PUUID x, PUUID y => String.eqb x y
  | PEnum c n _, PEnum c' n' _ => String.eqb c c' && String.eqb n n'
  | PDatetime x, PDatetime y => String.eqb x y
  | PList xs, PList ys =>
      (fix go (xs ys : list val) : bool :=
         match xs, ys with
         | [], [] => true
         | x :: xs', y :: ys' => eqb x y && go xs' ys'
         | _, _ => false
         end) xs ys
  | PDict xs, PDict ys | PDict xs, PModel ys
  | PModel xs, PDict ys | PModel xs, PModel ys =>
      Nat.eqb (length xs) (length ys) &&
      (fix go (xs : list (string * val)) : bool :=
         match xs with
         | [] => true
         | (k, x) :: xs' =>
             match lookup_assoc k ys with
             | Some y => eqb x y && go xs'
             | None => false
             end
         end) xs
  | _, _ => false
  end.

(** [x in l] for a list [l]. *)
Definition mem (x : val) (l : list val) : bool := existsb (eqb x) l.

(** [str(x)] and the [%s] conversion, for the values that reach a
    format string in the engine. *)
Definition bool_str (b : bool) : string := if b then "True" else "False".

Definition str (v : val) : string :=
  match v with
  | PNone => "None"
  | PBool b => bool_str b
  | PInt z => pretty z
  | PStr _ s => s
  | PUUID t => t
  | PEnum c n _ => c ++ "." ++ n
  | PDatetime t => t
  | PList _ => "[...]"
  | PDict _ => "{...}"
  | PModel _ => "(...)"
  end.

(** A dictionary, or a model, holds a key once. *)
Fixpoint distinct_keys (v : val) : bool :=
  match v with
  | PEnum _ _ value => distinct_keys value
  | PList l => forallb distinct_keys l
  | PDict l | PModel l =>
      bool_decide (NoDup (map fst l))
      && forallb (fun kv => distinct_keys (snd kv)) l
  | _ => true
  end.

(** Induction on values, through lists, dictionaries, models and the
    values of enumeration members. *)
Section ValInd.

Variable P : val -> Prop.
Hypothesis Hnone : P PNone.
Hypothesis Hbool : forall b, P (PBool b).
Hypothesis Hint : forall z, P (PInt z).
Hypothesis Hstr : forall c s, P (PStr c s).
Hypothesis Huuid : forall t, P (PUUID t).
Hypothesis Henum : forall c n v, P v -> P (PEnum c n v).
Hypothesis Hdatetime : forall t, P (PDatetime t).
Hypothesis Hlist : forall l, Forall P l -> P (PList l).
Hypothesis Hdict : forall l, Forall (fun kv => P (snd kv)) l -> P (PDict l).
Hypothesis Hmodel : forall l, Forall (fun kv => P (snd kv)) l -> P (PModel l).

Fixpoint val_nested_ind (v : val) : P v :=
  match v with
  | PNone => Hnone
  | PBool b => Hbool b
  | PInt z => Hint z
  | PStr c s => Hstr c s
  | PUUID t => Huuid t
  | PEnum c n value => Henum c n value (val_nested_ind value)
  | PDatetime t => Hdatetime t
  | PList l =>
      Hlist l
        ((fix go (l : list val) : Forall P l :=
            match l with
            | [] => @List.Forall_nil _ P
            | x :: l' => @List.Forall_cons _ P x l' (val_nested_ind x) (go l')
            end) l)
  | PDict l =>
      Hdict l
        ((fix go (l : list (string * val))
            : Forall (fun kv => P (snd kv)) l :=
            match l with
            | [] => @List.Forall_nil _ _
            | kv :: l' =>
                @List.Forall_cons _ _ kv l' (val_nested_ind (snd kv)) (go l')
            end) l)
  | PModel l =>
      Hmodel l
        ((fix go (l : list (string * val))
            : Forall (fun kv => P (snd kv)) l :=
            match l with
            | [] => @List.Forall_nil _ _
            | kv :: l' =>
                @List.Forall_cons _ _ kv l' (val_nested_ind (snd kv)) (go l')
            end) l)
  end.

End ValInd.

End Py.


Import Py.

(** ** Exceptions and results *)

(** The exceptions of the program, and [Unmodelled]: not an exception,
    but the outcome of a step whose result is a value that [val] does not
    have (a floating-point number, a character above code point 255). *)
Inductive exn : Type :=
  | Unmodelled
  | NotImplementedError
  | ValueError
  | TypeError
  | KeyError
  | AttributeError
  | JSONDecodeError
  | ValidationError
  | Exception
  | AzureConflictHttpError
  | AzureMissingResourceHttpError
  | AzureHttpError (status : Z)
  | ZeroDivisionError.

#[global] Instance exn_eq_dec : EqDecision exn.
Proof. solve_decision. Defined.

Inductive result (A : Type) : Type :=
  | Ok (a : A)
  | Raise (e : exn).
Arguments Ok {A} a.
Arguments Raise {A} e.

Definition rbind {A B} (r : result A) (k : A -> result B) : result B :=
  match r with
  | Ok a => k a
  | Raise e => Raise e
  end.

Declare Scope res_scope.
Delimit Scope res_scope with res.
Notation "'let?' x := e 'in' k" := (rbind e (fun x => k))
  (at level 10, x pattern, e at level 100, k at level 200) : res_scope.
Local Open Scope res_scope.

(** ** Key resolver *)

Definition QUEUE_DELAY_STOPPING_SECONDS : Z := 30.
Definition QUEUE_DELAY_CREATE_SECONDS : Z := 5.

(** [resolve]: the [isinstance] tests in the order of the source. *)
Definition resolve (key : val) : result string :=
  match key with
  | PStr _ s => Ok s
  | PUUID t => Ok t
  | PEnum _ name _ => Ok name
  | PInt z => Ok (pretty z)
  | PBool b => Ok (bool_str b)
  | _ => Raise NotImplementedError
  end.

(** ** Structured text *)

(** The structured values that [json.dumps] accepts and prints, with the
    default separators and ASCII escapes, and the reader [json.loads].
    A character of a string is one code point below 256; numbers are
    integers.  The reader builds the values of this grammar, and
    recognises the rest of what [json.loads] reads (numbers with a
    fraction or an exponent, [NaN], [Infinity], escapes of higher code
    points) without building a value. *)
Module Json.

Inductive json : Type :=
  | JNull
  | JBool (b : bool)
  | JInt (z : Z)
  | JStr (s : string)
  | JList (items : list json)
  | JDict (items : list (string * json)).

Definition dquote : ascii := ascii_of_nat 34.
Definition backslash : ascii := ascii_of_nat 92.

Definition hex_digit (n : nat) : ascii :=
  ascii_of_nat (if Nat.ltb n 10 then 48 + n else 87 + n).

Definition escape_char (c : ascii) : string :=
  let n := nat_of_ascii c in
  if Nat.eqb n 34 then String backslash (String dquote EmptyString)
  else if Nat.eqb n 92 then String backslash (String backslash EmptyString)
  else if Nat.eqb n 10 then String backslash "n"
  else if Nat.eqb n 13 then String backslash "r"
  else if Nat.eqb n 9 then String backslash "t"
  else if Nat.eqb n 8 then String backslash "b"
  else if Nat.eqb n 12 then String backslash "f"
  else if Nat.ltb n 32 || Nat.ltb 126 n then
    String backslash
      (String "u" (String "0" (String "0"
         (String (hex_digit (Nat.div n 16))
            (String (hex_digit (Nat.modulo n 16)) EmptyString)))))
  else String c EmptyString.

Fixpoint escape (s : string) : string :=
  match s with
  | EmptyString => EmptyString
  | String c s' => escape_char c ++ escape s'
  end.

Definition quote (s : string) : string :=
  String dquote (escape s ++ String dquote EmptyString).

Fixpoint dumps (j : json) : string :=
  match j with
  | JNull => "null"
  | JBool b => if b then "true" else "false"
  | JInt z => pretty z
  | JStr s => quote s
  | JList l => "[" ++ String.concat ", " (map dumps l) ++ "]"
  | JDict l =>
      "{" ++ String.concat ", "
               (map (fun kv => quote (fst kv) ++ ": " ++ dumps (snd kv)) l)
          ++ "}"
  end.

(** *** Reader *)

Definition is_ws (c : ascii) : bool :=
  let n := nat_of_ascii c in
  Nat.eqb n 32 || Nat.eqb n 9 || Nat.eqb n 10 || Nat.eqb n 13.

Fixpoint skip_ws (s : string) : string :=
  match s with
  | String c s' => if is_ws c then skip_ws s' else s
  | EmptyString => s
  end.

(** [s] without its prefix [p]. *)
Fixpoint strip (p s : string) : option string :=
  match p with
  | EmptyString => Some s
  | String a p' =>
      match s with
      | String b s' => if Ascii.eqb a b then strip p' s' else None
      | EmptyString => None
      end
  end.

Definition digit_of (c : ascii) : option Z :=
  let n := nat_of_ascii c in
  if Nat.leb 48 n && Nat.leb n 57 then Some (Z.of_nat (n - 48)) else None.

Definition hex_of (c : ascii) : option nat :=
  let n := nat_of_ascii c in
  if Nat.leb 48 n && Nat.leb n 57 then Some (n - 48)%nat
  else if Nat.leb 97 n && Nat.leb n 102 then Some (n - 87)%nat
  else if Nat.leb 65 n && Nat.leb n 70 then Some (n - 55)%nat
  else None.

(** The digits at the head of [s], most significant first, with the rest. *)
Fixpoint read_digits (s : string) : list Z * string :=
  match s with
  | String c s' =>
      match digit_of c with
      | Some d => let '(ds, rest) := read_digits s' in (d :: ds, rest)
      | None => ([], s)
      end
  | EmptyString => ([], s)
  end.

(** The integer part of a number: [0], or digits that start with
    another digit. *)
Definition read_nat (s : string) : option (Z * string) :=
  match read_digits s with
  | ([], _) => None
  | (0 :: _ :: _, _) => None
  | (ds, rest) => Some (fold_left (fun acc d => 10 * acc + d) ds 0, rest)
  end.

(** The body of a string, after the opening quote.  An escape [\uXXXX]
    is read when it names a code point below 256. *)
Fixpoint read_string (s : string) : option (string * string) :=
  match s with
  | EmptyString => None
  | String c s' =>
      let n := nat_of_ascii c in
      if Nat.eqb n 34 then Some (EmptyString, s')
      else if Nat.ltb n 32 then None
      else if Nat.eqb n 92 then
        match s' with
        | String e s'' =>
            let m := nat_of_ascii e in
            let simple (x : nat) :=
              match read_string s'' with
              | Some (t, rest) => Some (String (ascii_of_nat x) t, rest)
              | None => None
              end in
            if Nat.eqb m 34 then simple 34%nat
            else if Nat.eqb m 92 then simple 92%nat
            else if Nat.eqb m 47 then simple 47%nat
            else if Nat.eqb m 110 then simple 10%nat
            else if Nat.eqb m 114 then simple 13%nat
            else if Nat.eqb m 116 then simple 9%nat
            else if Nat.eqb m 98 then simple 8%nat
            else if Nat.eqb m 102 then simple 12%nat
            else if Nat.eqb m 117 then
              match s'' with
              | String h1 (String h2 (String h3 (String h4 s3))) =>
                  match hex_of h1, hex_of h2, hex_of h3, hex_of h4,
                        read_string s3 with
                  | Some 0%nat, Some 0%nat, Some a, Some b, Some (t, rest) =>
                      Some (String (ascii_of_nat (16 * a + b)) t, rest)
                  | _, _, _, _, _ => None
                  end
              | _ => None
              end
            else None
        | EmptyString => None
        end
      else
        match read_string s' with
        | Some (t, rest) => Some (String c t, rest)
        | None => None
        end
  end.

(** [d[k] = v] on a dictionary in insertion order. *)
Fixpoint assoc_set {A} (k : string) (v : A) (d : list (string * A))
  : list (string * A) :=
  match d with
  | [] => [(k, v)]
  | (k', v') :: d' =>
      if String.eqb k' k then (k', v) :: d' else (k', v') :: assoc_set k v d'
  end.

(** [dict(pairs)]: a key that comes again keeps its place and takes the
    later value. *)
Definition dict_of_pairs {A} (pairs : list (string * A))
  : list (string * A) :=
  fold_left (fun d kv => assoc_set (fst kv) (snd kv) d) pairs [].

(** The value read so far, once made into [f] of it. *)
Definition tag {A B C} (f : A -> B) (r : option (A * C)) : option (B * C) :=
  match r with
  | Some (a, rest) => Some (f a, rest)
  | None => None
  end.

(** The literal [j], spelled by [c] (already read) and then [p]. *)
Definition literal (j : json) (p rest : string) : option (json * string) :=
  match strip p rest with
  | Some rest' => Some (j, rest')
  | None => None
  end.

Fixpoint read_value (fuel : nat) (s : string) {struct fuel}
  : option (json * string) :=
  match fuel with
  | O => None
  | S fuel' =>
      match skip_ws s with
      | EmptyString => None
      | String c rest =>
          if Ascii.eqb c "n" then literal JNull "ull" rest
          else if Ascii.eqb c "t" then literal (JBool true) "rue" rest
          else if Ascii.eqb c "f" then literal (JBool false) "alse" rest
          else if Ascii.eqb c dquote then tag JStr (read_string rest)
          else if Ascii.eqb c "[" then
            match skip_ws rest with
            | String c' rest' =>
                if Ascii.eqb c' "]" then Some (JList [], rest')
                else tag JList (read_items fuel' rest)
            | EmptyString => None
            end
          else if Ascii.eqb c "{" then
            match skip_ws rest with
            | String c' rest' =>
                if Ascii.eqb c' "}" then Some (JDict [], rest')
                else tag (fun l => JDict (dict_of_pairs l))
                       (read_members fuel' rest)
            | EmptyString => None
            end
          else if Ascii.eqb c "-" then
            tag (fun z => JInt (- z)) (read_nat rest)
          else tag JInt (read_nat (String c rest))
      end
  end
with read_items (fuel : nat) (s : string) {struct fuel}
  : option (list json * string) :=
  match fuel with
  | O => None
  | S fuel' =>
      match read_value fuel' s with
      | Some (v, rest) =>
          match skip_ws rest with
          | String c rest' =>
              if Ascii.eqb c "," then
                tag (cons v) (read_items fuel' rest')
              else if Ascii.eqb c "]" then Some ([v], rest')
              else None
          | EmptyString => None
          end
      | None => None
      end
  end
with read_members (fuel : nat) (s : string) {struct fuel}
  : option (list (string * json) * string) :=
  match fuel with
  | O => None
  | S fuel' =>
      match skip_ws s with
      | String q rest =>
          if Ascii.eqb q dquote then
            match read_string rest with
            | Some (k, rest1) =>
                match skip_ws rest1 with
                | String c rest2 =>
                    if Ascii.eqb c ":" then
                      match read_value fuel' rest2 with
                      | Some (v, rest3) =>
                          match skip_ws rest3 with
                          | String c' rest4 =>
                              if Ascii.eqb c' "," then
                                tag (cons (k, v)) (read_members fuel' rest4)
                              else if Ascii.eqb c' "}" then
                                Some ([(k, v)], rest4)
                              else None
                          | EmptyString => None
                          end
                      | None => None
                      end
                    else None
                | EmptyString => None
                end
            | None => None
            end
          else None
      | EmptyString => None
      end
  end.

Definition loads (s : string) : option json :=
  match read_value (S (String.length s)) s with
  | Some (j, rest) =>
      match skip_ws rest with
      | EmptyString => Some j
      | _ => None
      end
  | None => None
  end.

(** *** Induction on structured values *)

Section JsonInd.

Variable P : json -> Prop.
Hypothesis Hnull : P JNull.
Hypothesis Hbool : forall b, P (JBool b).
Hypothesis Hint : forall z, P (JInt z).
Hypothesis Hstr : forall s, P (JStr s).
Hypothesis Hlist : forall l, Forall P l -> P (JList l).
Hypothesis Hdict : forall l, Forall (fun kv => P (snd kv)) l -> P (JDict l).

Fixpoint json_nested_ind (j : json) : P j :=
  match j with
  | JNull => Hnull
  | JBool b => Hbool b
  | JInt z => Hint z
  | JStr s => Hstr s
  | JList l =>
      Hlist l
        ((fix go (l : list json) : Forall P l :=
            match l with
            | [] => @List.Forall_nil _ P
            | x :: l' => @List.Forall_cons _ P x l' (json_nested_ind x) (go l')
            end) l)
  | JDict l =>
      Hdict l
        ((fix go (l : list (string * json))
            : Forall (fun kv => P (snd kv)) l :=
            match l with
            | [] => @List.Forall_nil _ _
            | kv :: l' =>
                @List.Forall_cons _ _ kv l' (json_nested_ind (snd kv)) (go l')
            end) l)
  end.

End JsonInd.

(** *** Dictionaries hold a key once *)

Fixpoint distinct (j : json) : bool :=
  match j with
  | JList l => forallb distinct l
  | JDict l =>
      bool_decide (NoDup (map fst l))
      && forallb (fun kv => distinct (snd kv)) l
  | _ => true
  end.

(** *** The grammar of [json.loads]

    What [json.loads] accepts beyond the values above: numbers with a
    fraction or an exponent, [NaN], [Infinity] and [-Infinity], and
    escapes [\uXXXX] of any code point.  [scan_value] recognises the
    whole grammar and builds no value. *)

Definition skip_digits (s : string) : option string :=
  match read_digits s with
  | ([], _) => None
  | (_, rest) => Some rest
  end.

(** A number, after its sign: a zero or digits, then a fraction (a point
    and digits) when there is one, then an exponent ([e] or [E], a sign
    when there is one, and digits) when there is one. *)
Definition scan_number (s : string) : option string :=
  let integer :=
    match s with
    | String c rest => if Ascii.eqb c "0" then Some rest else skip_digits s
    | EmptyString => None
    end in
  match integer with
  | None => None
  | Some rest =>
      let rest :=
        match rest with
        | String c rest' =>
            if Ascii.eqb c "." then
              match skip_digits rest' with
              | Some rest'' => rest''
              | None => rest
              end
            else rest
        | EmptyString => rest
        end in
      match rest with
      | String c rest' =>
          if Ascii.eqb c "e" || Ascii.eqb c "E" then
            let digits :=
              match rest' with
              | String sign rest'' =>
                  if Ascii.eqb sign "+" || Ascii.eqb sign "-"
                  then skip_digits rest''
                  else skip_digits rest'
              | EmptyString => None
              end in
            match digits with
            | Some rest'' => Some rest''
            | None => Some rest
            end
          else Some rest
      | EmptyString => Some rest
      end
  end.

Fixpoint scan_string (s : string) : option string :=
  match s with
  | EmptyString => None
  | String c s' =>
      let n := nat_of_ascii c in
      if Nat.eqb n 34 then Some s'
      else if Nat.ltb n 32 then None
      else if Nat.eqb n 92 then
        match s' with
        | String e s'' =>
            if existsb (Ascii.eqb e)
                 [dquote; backslash; "/"; "b"; "f"; "n"; "r"; "t"]%char
            then scan_string s''
            else if Ascii.eqb e "u" then
              match s'' with
              | String h1 (String h2 (String h3 (String h4 s3))) =>
                  match hex_of h1, hex_of h2, hex_of h3, hex_of h4 with
                  | Some _, Some _, Some _, Some _ => scan_string s3
                  | _, _, _, _ => None
                  end
              | _ => None
              end
            else None
        | EmptyString => None
        end
      else scan_string s'
  end.

Fixpoint scan_value (fuel : nat) (s : string) {struct fuel} : option string :=
  match fuel with
  | O => None
  | S fuel' =>
      match skip_ws s with
      | EmptyString => None
      | String c rest =>
          if Ascii.eqb c dquote then scan_string rest
          else if Ascii.eqb c "{" then
            match skip_ws rest with
            | String c' rest' =>
                if Ascii.eqb c' "}" then Some rest'
                else scan_members fuel' rest
            | EmptyString => None
            end
          else if Ascii.eqb c "[" then
            match skip_ws rest with
            | String c' rest' =>
                if Ascii.eqb c' "]" then Some rest'
                else scan_items fuel' rest
            | EmptyString => None
            end
          else if Ascii.eqb c "n" then strip "ull" rest
          else if Ascii.eqb c "t" then strip "rue" rest
          else if Ascii.eqb c "f" then strip "alse" rest
          else
            match (if Ascii.eqb c "-" then scan_number rest
                   else scan_number (String c rest)) with
            | Some rest' => Some rest'
            | None =>
                if Ascii.eqb c "N" then strip "aN" rest
                else if Ascii.eqb c "I" then strip "nfinity" rest
                else if Ascii.eqb c "-" then strip "Infinity" rest
                else None
            end
      end
  end
with scan_items (fuel : nat) (s : string) {struct fuel} : option string :=
  match fuel with
  | O => None
  | S fuel' =>
      match scan_value fuel' s with
      | Some rest =>
          match skip_ws rest with
          | String c rest' =>
              if Ascii.eqb c "," then scan_items fuel' rest'
              else if Ascii.eqb c "]" then Some rest'
              else None
          | EmptyString => None
          end
      | None => None
      end
  end
with scan_members (fuel : nat) (s : string) {struct fuel} : option string :=
  match fuel with
  | O => None
  | S fuel' =>
      match skip_ws s with
      | String q rest =>
          if Ascii.eqb q dquote then
            match scan_string rest with
            | Some rest1 =>
                match skip_ws rest1 with
                | String c rest2 =>
                    if Ascii.eqb c ":" then
                      match scan_value fuel' rest2 with
                      | Some rest3 =>
                          match skip_ws rest3 with
                          | String c' rest4 =>
                              if Ascii.eqb c' "," then scan_members fuel' rest4
                              else if Ascii.eqb c' "}" then Some rest4
                              else None
                          | EmptyString => None
                          end
                      | None => None
                      end
                    else None
                | EmptyString => None
                end
            | None => None
            end
          else None
      | EmptyString => None
      end
  end.

(** Whether [json.loads] reads [s] at all. *)
Definition well_formed (s : string) : bool :=
  match scan_value (S (String.length s)) s with
  | Some rest =>
      match skip_ws rest with
      | EmptyString => true
      | _ => false
      end
  | None => false
  end.


(** *** Notions for the reading of printed values *)

(** The fuel that reading a value takes. *)
Fixpoint weight (j : json) : nat :=
  match j with
  | JList l => S (fold_right (fun x n => S (weight x + n)) 0%nat l)
  | JDict l => S (fold_right (fun kv n => S (weight (snd kv) + n)) 0%nat l)
  | _ => 1%nat
  end.

(** A text that does not go on with a digit. *)
Definition no_digit (s : string) : Prop :=
  match s with
  | String c _ => digit_of c = None
  | EmptyString => True
  end.

(** A text that begins with a character of a value. *)
Definition starts_value (s : string) : Prop :=
  exists c t,
    s = String c t /\ is_ws c = false
    /\ Ascii.eqb c "]" = false /\ Ascii.eqb c "}" = false.

(** Reading a value back, with fuel to spare and whatever follows. *)
Definition reads (j : json) : Prop :=
  forall fuel rest,
    (weight j <= fuel)%nat -> no_digit rest ->
    read_value fuel (dumps j ++ rest) = Some (j, rest).

(** A member of a printed dictionary. *)
Definition member (kv : string * json) : string :=
  quote (fst kv) ++ ": " ++ dumps (snd kv).

End Json.

Import Json.

(** ** Record types *)

(** What [load] asks of the annotation of a constructor parameter:
    whether it is a class (and then whether it derives from [BaseModel]
    or from [dict]), a [Union] of annotations, or another generic alias,
    of which only the [__origin__] matters. *)
Inductive origin : Type :=
  | ODict
  | OList
  | OOther.

Inductive annotation : Type :=
  | AClass (base_model dict_subclass : bool)
  | AUnion (args : list annotation)
  | AAlias (o : origin).

(** A declared field: whether its [type_] is [datetime], and the
    annotation of the matching constructor parameter. *)
Record field_info : Type := {
  is_datetime : bool;
  param_annotation : annotation
}.

(** A record type deriving from [ORMMixin].  [key_fields] is [None] for a
    type that keeps the default, which raises.  The [*_include] and
    [save_exclude] tables are the sets of top-level field names of the
    mappings the methods return, [None] for a method returning [None].
    [parse_obj] is the validating constructor of the type. *)
Record model : Type := {
  name : string;
  fields : list (string * field_info);
  key_fields : option (string * option string);
  save_exclude : option (list string);
  event_include : option (list string);
  telemetry_include : option (list string);
  parse_obj : gmap string val -> result (gmap string val)
}.

Definition table_name (cls : model) : string := name cls.

Definition get_key_fields (cls : model) : result (string * option string) :=
  match key_fields cls with
  | Some kf => Ok kf
  | None => Raise NotImplementedError
  end.

Definition has_field (cls : model) (field : string) : bool :=
  existsb (fun f => String.eqb (fst f) field) (fields cls).

(** ** Query filter compiler *)

(** A query is a dictionary in insertion order. *)
Definition QueryFilter : Type := list (string * list val).

(** [SAFE_STRINGS = (UUID, Container, Region, PoolName)]. *)
Definition is_safe_string (v : val) : bool :=
  match v with
  | PUUID _ => true
  | PStr Container _ | PStr Region _ | PStr PoolName _ => true
  | _ => false
  end.

(** A loop over a list whose body may raise: the first exception ends it. *)
Fixpoint rmap {A B} (f : A -> result B) (l : list A) : result (list B) :=
  match l with
  | [] => Ok []
  | x :: l' =>
      let? y := f x in
      let? ys := rmap f l' in
      Ok (y :: ys)
  end.

Definition int_clause (field_name : string) (x : val) : result string :=
  match int_of x with
  | Some z => Ok (field_name ++ " eq " ++ pretty z)
  | None => Raise TypeError
  end.

Definition enum_clause (field_name : string) (x : val) : result string :=
  match x with
  | PEnum _ n _ => Ok (field_name ++ " eq '" ++ n ++ "'")
  | _ => Raise TypeError
  end.

Definition safe_clause (field_name : string) (x : val) : string :=
  field_name ++ " eq '" ++ str x ++ "'".

Definition or_group (parts : list string) : string :=
  match parts with
  | [p] => p
  | _ => "(" ++ String.concat " or " parts ++ ")"
  end.

Definition store_field_name (kf : string * option string) (field : string)
  : string :=
  if String.eqb field (fst kf) then "PartitionKey"
  else if bool_decide (Some field = snd kf) then "RowKey"
  else field.

(** One turn of the loop of [build_filters], on the pair
    [(search_filter_parts, post_filters)]. *)
Definition build_filters_step (cls : model) (kf : string * option string)
    (acc : list string * gmap string (list val))
    (item : string * list val)
  : result (list string * gmap string (list val)) :=
  let '(search_filter_parts, post_filters) := acc in
  let '(field, values) := item in
  if negb (has_field cls field) then Raise ValueError
  else
    match values with
    | [] => Ok acc
    | v0 :: _ =>
        let field_name := store_field_name kf field in
        let? r :=
          (if is_int v0 then
             let? parts := rmap (int_clause field_name) values in
             Ok (Some parts, post_filters)
           else if is_enum v0 then
             let? parts := rmap (enum_clause field_name) values in
             Ok (Some parts, post_filters)
           else if forallb is_safe_string values then
             Ok (Some (map (safe_clause field_name) values), post_filters)
           else
             Ok (None, <[field_name := values]> post_filters)) in
        let '(parts, post_filters') := r in
        match parts with
        | Some ((_ :: _) as ps) =>
            Ok ((search_filter_parts ++ [or_group ps])%list, post_filters')
        | _ => Ok (search_filter_parts, post_filters')
        end
    end.

Fixpoint rfold {A B} (f : A -> B -> result A) (l : list B) (a : A)
  : result A :=
  match l with
  | [] => Ok a
  | x :: l' => let? a' := f a x in rfold f l' a'
  end.

Definition build_filters (cls : model) (query_args : option QueryFilter)
  : result (option string * gmap string (list val)) :=
  match query_args with
  | None | Some [] => Ok (None, ∅)
  | Some items =>
      let? kf := get_key_fields cls in
      let? r := rfold (build_filters_step cls kf) items ([], ∅) in
      let '(search_filter_parts, post_filters) := r in
      match search_filter_parts with
      | [] => Ok (None, post_filters)
      | _ => Ok (Some (String.concat " and " search_filter_parts), post_filters)
      end
  end.

(** [post_filter]: the wire row against the residual filters. *)
Definition post_filter (value : gmap string val)
    (filters : option (gmap string (list val))) : bool :=
  match filters with
  | None => true
  | Some fs =>
      forallb
        (fun '(field, allowed) =>
           match value !! field with
           | None => false
           | Some v => mem v allowed
           end)
        (map_to_list fs)
  end.



(** ** Instances and their export *)

(** An instance of a record type: its attributes, by field name. *)
Record instance : Type := {
  cls : model;
  attrs : gmap string val
}.

(** What cycling a value through [.json()] and [json.loads] gives:
    wrapped types are resolved (a UUID and a datetime to their text, an
    enumeration member to its value), and a nested model becomes the
    dictionary of its fields, without those that hold [None] when
    [exclude_none] is set.  The entries of a dictionary stay, whatever
    they hold. *)
Fixpoint to_json (exclude_none : bool) (v : val) : json :=
  match v with
  | PNone => JNull
  | PBool b => JBool b
  | PInt z => JInt z
  | PStr _ s => JStr s
  | PUUID t => JStr t
  | PEnum _ _ value => to_json exclude_none value
  | PDatetime t => JStr t
  | PList l => JList (map (to_json exclude_none) l)
  | PDict l => JDict (map (fun kv => (fst kv, to_json exclude_none (snd kv))) l)
  | PModel l =>
      JDict
        ((fix export (l : list (string * val)) : list (string * json) :=
            match l with
            | [] => []
            | kv :: l' =>
                if exclude_none && is_none (snd kv) then export l'
                else (fst kv, to_json exclude_none (snd kv)) :: export l'
            end) l)
  end.

(** A structured value as a Python object. *)
Fixpoint of_json (j : json) : val :=
  match j with
  | JNull => PNone
  | JBool b => PBool b
  | JInt z => PInt z
  | JStr s => PStr Str s
  | JList l => PList (map of_json l)
  | JDict l => PDict (map (fun kv => (fst kv, of_json (snd kv))) l)
  end.

Definition in_names (k : string) (l : list string) : bool :=
  existsb (String.eqb k) l.
Arguments in_names : simpl never.

(** [ModelMixin.raw], on the top-level fields: [include] and [exclude]
    select by name, [exclude_none] drops the fields holding [None]. *)
Definition raw (self : instance) (exclude_none : bool)
    (exclude include : option (list string)) : gmap string json :=
  map_imap
    (fun k v =>
       if match include with Some inc => negb (in_names k inc) | None => false end
       then None
       else if match exclude with Some exc => in_names k exc | None => false end
       then None
       else if exclude_none && is_none v then None
       else Some (to_json exclude_none v))
    (attrs self).

Definition event (self : instance) : gmap string json :=
  raw self true None (event_include (cls self)).

Definition telemetry (self : instance) : gmap string json :=
  raw self true None (telemetry_include (cls self)).

(** ** The world outside the engine *)

(** The structured error of [onefuzztypes.models]. *)
Inductive ErrorCode : Type :=
  | INVALID_REQUEST
  | UNABLE_TO_CREATE
  | UNABLE_TO_FIND.

Record Error : Type := {
  code : ErrorCode;
  errors : list string
}.

(** The calls that leave the engine. *)
Inductive effect : Type :=
  | GetEntity (table partition_key row_key : string)
  | InsertEntity (table : string) (row : gmap string val)
  | ReplaceEntity (table : string) (row : gmap string val) (if_match : val)
  | InsertOrReplaceEntity (table : string) (row : gmap string val)
  | DeleteEntity (table partition_key row_key : string)
  | QueueUpdate (update_type partition_key row_key : string)
      (method : option string) (visibility_timeout : option Z)
  | AddEvent (table : string) (data : gmap string json)
  | TrackEvent (event : string) (data : gmap string json).

(** The table client, over a store of type [S]: each call returns the
    client's answer, or the exception it raises, and the store after it. *)
Class TableClient (S : Type) : Type := {
  get_entity : string -> string -> string -> S -> result (gmap string val);
  insert_entity : string -> gmap string val -> S -> result string * S;
  replace_entity : string -> gmap string val -> val -> S -> result string * S;
  insert_or_replace_entity : string -> gmap string val -> S -> result string * S;
  delete_entity : string -> string -> string -> S -> result unit * S
}.

(** The enumerations of [onefuzztypes.enums] the engine consults: the
    member names of [TelemetryEvent] and of [UpdateType], and for each
    state enumeration, by class name, the list its [needs_work] returns
    ([None] for a class without that attribute). *)
Record Enums : Type := {
  TelemetryEvent_members : list string;
  UpdateType_members : list string;
  needs_work_of : string -> option (list val)
}.

Record world (S : Type) : Type := {
  store : S;
  log : list effect
}.
Arguments store {S} w.
Arguments log {S} w.

(** Computations: a result, or an exception, and the world after. *)
Definition M (S A : Type) : Type := world S -> result A * world S.

Definition ret {S A} (a : A) : M S A := fun w => (Ok a, w).
Definition raise {S A} (e : exn) : M S A := fun w => (Raise e, w).
Definition bind {S A B} (m : M S A) (k : A -> M S B) : M S B :=
  fun w =>
    match m w with
    | (Ok a, w') => k a w'
    | (Raise e, w') => (Raise e, w')
    end.
Definition lift {S A} (r : result A) : M S A := fun w => (r, w).
Definition emit {S} (e : effect) : M S unit :=
  fun w => (Ok tt, {| store := store w; log := (log w ++ [e])%list |}).
(** A call of the client that may change the store. *)
Definition call {S A} (f : S -> result A * S) : M S A :=
  fun w => let '(r, s') := f (store w) in (r, {| store := s'; log := log w |}).
(** [try: m except e: h]. *)
Definition try_except {S A} (m : M S A) (e : exn) (h : M S A) : M S A :=
  fun w =>
    match m w with
    | (Raise e', w') => if bool_decide (e' = e) then h w' else (Raise e', w')
    | r => r
    end.

Declare Scope m_scope.
Delimit Scope m_scope with M.
Notation "'do' x <- e ; k" := (bind e (fun x => k))
  (at level 10, x pattern, e at level 100, k at level 200) : m_scope.
Notation "e ;; k" := (bind e (fun _ => k))
  (at level 100, k at level 200, right associativity) : m_scope.

(** ** Record engine: the part that does not touch the store *)

(** [d[k]] and [del d[k]] on a dictionary. *)
Definition getitem {A} (k : string) (d : gmap string A) : result A :=
  match d !! k with
  | Some v => Ok v
  | None => Raise KeyError
  end.

Definition delitem {A} (k : string) (d : gmap string A)
  : result (gmap string A) :=
  match d !! k with
  | Some _ => Ok (delete k d)
  | None => Raise KeyError
  end.

Definition contains {A} (k : string) (d : gmap string A) : bool :=
  match d !! k with Some _ => true | None => false end.

Definition is_empty {A} (d : gmap string A) : bool :=
  match map_to_list d with [] => true | _ => false end.

Definition getattr (self : instance) (field : string) : result val :=
  match attrs self !! field with
  | Some v => Ok v
  | None => Raise AttributeError
  end.

(** [json.loads(x)]: the argument must be text.  Text that [json.loads]
    reads to a value with a part outside [json] has no result here. *)
Definition json_loads (x : val) : result json :=
  match x with
  | PStr _ s =>
      match loads s with
      | Some j => Ok j
      | None =>
          if well_formed s then Raise Unmodelled else Raise JSONDecodeError
      end
  | _ => Raise TypeError
  end.

(** The three tests of [load] on the annotation of a parameter. *)
Definition is_base_model_class (a : annotation) : bool :=
  match a with AClass true _ => true | _ => false end.

Definition decodes (a : annotation) : bool :=
  match a with
  | AClass base_model dict_subclass => base_model || dict_subclass
  | AUnion args => existsb is_base_model_class args
  | AAlias ODict => true
  | AAlias _ => false
  end.

Definition load_field (data : gmap string val) (f : string * field_info)
  : result (gmap string val) :=
  match data !! fst f with
  | None => Ok data
  | Some v =>
      if decodes (param_annotation (snd f)) then
        let? j := json_loads v in Ok (<[fst f := of_json j]> data)
      else Ok data
  end.

(** [load], up to the dictionary handed to [parse_obj]. *)
Definition load_data (cls : model) (data : gmap string val)
  : result (gmap string val) :=
  let? kf := get_key_fields cls in
  let '(partition_key_field, row_key_field) := kf in
  if contains partition_key_field data then Raise Exception
  else if match row_key_field with
          | Some f => contains f data
          | None => false
          end then Raise Exception
  else
    let? pk := getitem "PartitionKey" data in
    let data := <[partition_key_field := pk]> data in
    let? data :=
      match row_key_field with
      | Some f => let? rk := getitem "RowKey" data in Ok (<[f := rk]> data)
      | None => Ok data
      end in
    let? data := delitem "PartitionKey" data in
    let? data := delitem "RowKey" data in
    rfold load_field (fields cls) data.

Definition load (cls : model) (data : gmap string val) : result instance :=
  let? d := load_data cls data in
  let? a := parse_obj cls d in
  Ok {| cls := cls; attrs := a |}.

(** A value of the exported dictionary as [save] stores it: text and
    integers as they are, anything else as structured text. *)
Definition blob (j : json) : val :=
  match j with
  | JStr s => PStr Str s
  | JInt z => PInt z
  | JBool b => PBool b
  | _ => PStr Str (dumps j)
  end.

(** The second loop of [save]: a field of type [datetime] that passed the
    filtering gets the value of the attribute back.  A field present in
    [raw] is an attribute of the instance. *)
Definition restore_datetime (self : instance) (raw : gmap string val)
    (f : string * field_info) : gmap string val :=
  match raw !! fst f with
  | None => raw
  | Some _ =>
      if is_datetime (snd f) then
        match attrs self !! fst f with
        | Some v => <[fst f := v]> raw
        | None => raw
        end
      else raw
  end.

(** [a or b] on an optional field name: the empty name is false too. *)
Definition or_field (a : option string) (b : string) : string :=
  match a with
  | Some f => if String.eqb f EmptyString then b else f
  | None => b
  end.

(** [save], from its first line to the row handed to the client. *)
Definition save_row (self : instance) : result (gmap string val) :=
  let raw := blob <$> raw self true (save_exclude (cls self)) None in
  let raw := fold_left (restore_datetime self) (fields (cls self)) raw in
  let? kf := get_key_fields (cls self) in
  let '(partition_key_field, row_key_field) := kf in
  let? pk := getitem partition_key_field raw in
  let? pks := resolve pk in
  let raw := <["PartitionKey" := PStr Str pks]> raw in
  let? rk := getitem (or_field row_key_field partition_key_field) raw in
  let? rks := resolve rk in
  let raw := <["RowKey" := PStr Str rks]> raw in
  let? raw := delitem partition_key_field raw in
  let raw :=
    match row_key_field with
    | Some f => delete f raw
    | None => raw
    end in
  Ok (delete "Timestamp" raw).

Definition get_keys (self : instance) : result (val * val) :=
  let? kf := get_key_fields (cls self) in
  let '(partition_key_field, row_key_field) := kf in
  let? partition_key := getattr self partition_key_field in
  let? row_key :=
    match row_key_field with
    | Some f =>
        if String.eqb f EmptyString then Ok partition_key else getattr self f
    | None => Ok partition_key
    end in
  Ok (partition_key, row_key).

(** ** Record engine: the part that talks to the world *)

Section Engine.

Context {S : Type} {client : TableClient S} (enums : Enums).
Local Open Scope m_scope.

Definition set_etag (self : instance) (etag : string) : instance :=
  {| cls := cls self; attrs := <["etag" := PStr Str etag]> (attrs self) |}.

Definition queue (self : instance) (method : option string)
    (visibility_timeout : option Z) : M S unit :=
  if negb (contains "state" (attrs self)) then raise NotImplementedError
  else if negb (in_names (name (cls self)) (UpdateType_members enums))
  then raise NotImplementedError
  else
    do keys <- lift (get_keys self);
    do partition_key <- lift (resolve (fst keys));
    do row_key <- lift (resolve (snd keys));
    emit (QueueUpdate (name (cls self)) partition_key row_key
            method visibility_timeout).

(** [getattr(state, "needs_work", None)], called. *)
Definition needs_work (state : val) : option (list val) :=
  match state with
  | PEnum c _ _ => needs_work_of enums c
  | _ => None
  end.

Definition enum_name (state : val) : result string :=
  match state with
  | PEnum _ n _ => Ok n
  | _ => Raise AttributeError
  end.

Definition _queue_as_needed (self : instance) : M S unit :=
  match attrs self !! "state" with
  | None | Some PNone => ret tt
  | Some state =>
      match needs_work state with
      | None => ret tt
      | Some pending =>
          if negb (mem state pending) then ret tt
          else
            do n <- lift (enum_name state);
            if in_names n ["stopping"; "stop"; "shutdown"] then
              queue self None (Some QUEUE_DELAY_STOPPING_SECONDS)
            else
              queue self None (Some QUEUE_DELAY_CREATE_SECONDS)
      end
  end.

Definition _event_as_needed (self : instance) : M S unit :=
  let data := event self in
  if is_empty data then ret tt
  else emit (AddEvent (table_name (cls self)) data).

Definition _telemetry_as_needed (self : instance) : M S unit :=
  if in_names (table_name (cls self)) (TelemetryEvent_members enums) then
    let telem := telemetry self in
    if is_empty telem then ret tt
    else emit (TrackEvent (table_name (cls self)) telem)
  else ret tt.

(** The write of [save]: the new concurrency token, or the error value
    the method returns at once. *)
Definition save_write (self : instance) (new require_etag : bool)
    (raw : gmap string val) : M S (string + Error) :=
  let table := table_name (cls self) in
  let etag := default PNone (attrs self !! "etag") in
  if new then
    try_except
      (emit (InsertEntity table raw);;
       do etag <- call (insert_entity table raw);
       ret (inl etag))
      AzureConflictHttpError
      (ret (inr {| code := UNABLE_TO_CREATE; errors := ["row exists"] |}))
  else if truthy etag && require_etag then
    emit (ReplaceEntity table raw etag);;
    do etag <- call (replace_entity table raw etag);
    ret (inl etag)
  else
    emit (InsertOrReplaceEntity table raw);;
    do etag <- call (insert_or_replace_entity table raw);
    ret (inl etag).

(** [save] returns the error value, or [None]; the instance comes back
    with it, since the method assigns [self.etag]. *)
Definition save (self : instance) (new require_etag : bool)
  : M S (instance * option Error) :=
  do raw <- lift (save_row self);
  do written <- save_write self new require_etag raw;
  match written with
  | inr err => ret (self, Some err)
  | inl etag =>
      let self := set_etag self etag in
      _queue_as_needed self;;
      _telemetry_as_needed self;;
      _event_as_needed self;;
      ret (self, None)
  end.

Definition delete (self : instance) : M S unit :=
  _event_as_needed self;;
  do keys <- lift (get_keys self);
  do partition_key <- lift (resolve (fst keys));
  do row_key <- lift (resolve (snd keys));
  try_except
    (emit (DeleteEntity (table_name (cls self)) partition_key row_key);;
     call (delete_entity (table_name (cls self)) partition_key row_key))
    AzureMissingResourceHttpError
    (ret tt).

(** A call of the client that only reads. *)
Definition ask {A} (f : S -> result A) : M S A :=
  fun w => (f (store w), w).

Definition get (cls : model) (PartitionKey RowKey : val)
  : M S (option instance) :=
  do partition_key <- lift (resolve PartitionKey);
  do row_key <-
    (if truthy RowKey then lift (resolve RowKey) else ret partition_key);
  do found <-
    try_except
      (emit (GetEntity (table_name cls) partition_key row_key);;
       do raw <- ask (get_entity (table_name cls) partition_key row_key);
       ret (Some raw))
      AzureMissingResourceHttpError
      (ret None);
  match found with
  | None => ret None
  | Some raw => do entry <- lift (load cls raw); ret (Some entry)
  end.

End Engine.

(** ** A table client in memory *)

(** Modelled from the spec: the table client adapter of the external
    interfaces, which is not part of the engine.  A table maps a
    partition key and a row key to a row and its concurrency token; an
    insert on an existing key is a conflict, a replace presents a token
    that must match the stored one, a point lookup or a delete of an
    absent row is a missing resource.  Tokens are numbered by a counter. *)
Module MemStore.

Record t : Type := {
  rows : gmap (string * string * string) (gmap string val * string);
  next : nat
}.

Definition empty : t := {| rows := ∅; next := 0 |}.

Definition keys_of (row : gmap string val) : option (string * string) :=
  match row !! "PartitionKey", row !! "RowKey" with
  | Some (PStr _ p), Some (PStr _ r) => Some (p, r)
  | _, _ => None
  end.

Definition fresh (s : t) : string := "W/" ++ pretty (next s).

Definition put (table : string) (k : string * string)
    (row : gmap string val) (s : t) : result string * t :=
  (Ok (fresh s),
   {| rows := <[(table, fst k, snd k) := (row, fresh s)]> (rows s);
      next := Datatypes.S (next s) |}).

Definition insert (table : string) (row : gmap string val) (s : t)
  : result string * t :=
  match keys_of row with
  | None => (Raise ValueError, s)
  | Some k =>
      match rows s !! (table, fst k, snd k) with
      | Some _ => (Raise AzureConflictHttpError, s)
      | None => put table k row s
      end
  end.

Definition replace (table : string) (row : gmap string val)
    (if_match : val) (s : t) : result string * t :=
  match keys_of row with
  | None => (Raise ValueError, s)
  | Some k =>
      match rows s !! (table, fst k, snd k) with
      | None => (Raise AzureMissingResourceHttpError, s)
      | Some (_, etag) =>
          if Py.eqb if_match (PStr Str etag) then put table k row s
          else (Raise (AzureHttpError 412), s)
      end
  end.

Definition insert_or_replace (table : string) (row : gmap string val)
    (s : t) : result string * t :=
  match keys_of row with
  | None => (Raise ValueError, s)
  | Some k => put table k row s
  end.

Definition remove (table partition_key row_key : string) (s : t)
  : result unit * t :=
  match rows s !! (table, partition_key, row_key) with
  | None => (Raise AzureMissingResourceHttpError, s)
  | Some _ =>
      (Ok tt,
       {| rows := base.delete (table, partition_key, row_key) (rows s);
          next := next s |})
  end.

(** The concurrency token of the row under a key, when there is one. *)
Definition etag_of (table : string) (k : string * string) (s : t)
  : option string :=
  snd <$> rows s !! (table, fst k, snd k).

Definition lookup (table partition_key row_key : string) (s : t)
  : result (gmap string val) :=
  match rows s !! (table, partition_key, row_key) with
  | None => Raise AzureMissingResourceHttpError
  | Some (row, etag) => Ok (<["etag" := PStr Str etag]> row)
  end.

#[global] Instance client : TableClient t := {
  get_entity := lookup;
  insert_entity := insert;
  replace_entity := replace;
  insert_or_replace_entity := insert_or_replace;
  delete_entity := remove
}.

Definition start : world t := {| store := empty; log := [] |}.

End MemStore.

(** ** Notions the properties are stated with *)

Definition is_queue_update (e : effect) : bool :=
  match e with QueueUpdate _ _ _ _ _ => true | _ => false end.

Definition is_add_event (e : effect) : bool :=
  match e with AddEvent _ _ => true | _ => false end.

Definition is_track_event (e : effect) : bool :=
  match e with TrackEvent _ _ => true | _ => false end.

Definition is_write (e : effect) : bool :=
  match e with
  | InsertEntity _ _ | ReplaceEntity _ _ _ | InsertOrReplaceEntity _ _ => true
  | _ => false
  end.

(** The entries the event hook and the telemetry step add to the log. *)
Definition event_part (self : instance) : list effect :=
  if is_empty (event self) then []
  else [AddEvent (table_name (cls self)) (event self)].

Definition telemetry_part (enums : Enums) (self : instance) : list effect :=
  if in_names (table_name (cls self)) (TelemetryEvent_members enums)
     && negb (is_empty (telemetry self))
  then [TrackEvent (table_name (cls self)) (telemetry self)]
  else [].

Definition extend {S} (w : world S) (l : list effect) : world S :=
  {| store := store w; log := (log w ++ l)%list |}.

(** The delay of the follow-up message, when one is due. *)
Definition queue_delay (enums : Enums) (self : instance) : option Z :=
  match attrs self !! "state" with
  | None | Some PNone => None
  | Some state =>
      match needs_work enums state with
      | None => None
      | Some pending =>
          if mem state pending then
            match enum_name state with
            | Ok n =>
                if in_names n ["stopping"; "stop"; "shutdown"]
                then Some QUEUE_DELAY_STOPPING_SECONDS
                else Some QUEUE_DELAY_CREATE_SECONDS
            | Raise _ => None
            end
          else None
      end
  end.

(** The exported dictionary at the first line of [save], and the
    dictionary after the two loops. *)
Definition exported (self : instance) : gmap string json :=
  raw self true (save_exclude (cls self)) None.

Definition stored (self : instance) : gmap string val :=
  fold_left (restore_datetime self) (fields (cls self))
    (blob <$> exported self).

(** [save] from the key fields on, on the dictionary after the loops. *)
Definition finish_row (kf : string * option string)
    (raw : gmap string val) : result (gmap string val) :=
  let '(partition_key_field, row_key_field) := kf in
  let? pk := getitem partition_key_field raw in
  let? pks := resolve pk in
  let raw := <["PartitionKey" := PStr Str pks]> raw in
  let? rk := getitem (or_field row_key_field partition_key_field) raw in
  let? rks := resolve rk in
  let raw := <["RowKey" := PStr Str rks]> raw in
  let? raw := delitem partition_key_field raw in
  let raw :=
    match row_key_field with
    | Some f => base.delete f raw
    | None => raw
    end in
  Ok (base.delete "Timestamp" raw).

Definition persisted (cls : model) (field : string) (v : val) : bool :=
  negb (match save_exclude cls with
        | Some exc => in_names field exc
        | None => false
        end)
  && negb (is_none v).

(** Whether some declaration of [f] has type [datetime]. *)
Definition datetime_field (fs : list (string * field_info)) (f : string)
  : bool :=
  existsb (fun e => String.eqb (fst e) f && is_datetime (snd e)) fs.

(** What the dictionary holds for a field after the loops: the value of
    the attribute when the field is a [datetime], else its export, as
    text when it is structured. *)
Definition stored_value (cls : model) (f : string) (v : val) : val :=
  if datetime_field (fields cls) f then v else blob (to_json true v).

(** The two store keys, and the outcome, of [finish_row] depend on the
    dictionary through the two key fields only. *)
(** The last lines of the row construction: the domain key fields and
    the timestamp leave the dictionary. *)
Definition tidy (kf : string * option string) (raw : gmap string val)
  : gmap string val :=
  base.delete "Timestamp"
    (match snd kf with
     | Some f => base.delete f (base.delete (fst kf) raw)
     | None => base.delete (fst kf) raw
     end).

Definition with_keys (pks rks : string) (raw : gmap string val)
  : gmap string val :=
  <["RowKey" := PStr Str rks]> (<["PartitionKey" := PStr Str pks]> raw).

Definition is_primitive (j : json) : bool :=
  match j with
  | JStr _ | JInt _ | JBool _ => true
  | _ => false
  end.

(** Whether some declaration of [f] has an annotation that [load]
    decodes. *)
Definition decodes_field (fs : list (string * field_info)) (f : string)
  : bool :=
  existsb (fun e => String.eqb (fst e) f && decodes (param_annotation (snd e)))
    fs.

Definition decoded (v : val) : val :=
  match json_loads v with
  | Ok j => of_json j
  | Raise _ => v
  end.

(** The names of the columns the store owns. *)
Definition store_column (f : string) : bool :=
  in_names f ["PartitionKey"; "RowKey"; "Timestamp"].

(** The key fields of a type are named apart from the columns of the
    store and from each other, and the row key field, when there is one,
    has a name. *)
Definition plain_key_names (kf : string * option string) : Prop :=
  store_column (fst kf) = false
  /\ forall f, snd kf = Some f ->
       store_column f = false /\ f <> EmptyString /\ f <> fst kf.

(** The dictionary of [load] once the store keys moved to the key
    fields. *)
Definition keyed (kf : string * option string) (pk rk : val)
    (data : gmap string val) : gmap string val :=
  base.delete "RowKey"
    (base.delete "PartitionKey"
       (match snd kf with
        | Some f => <[f := rk]> (<[fst kf := pk]> data)
        | None => <[fst kf := pk]> data
        end)).

(** The value of a field as [load] hands it to the constructor when the
    field went through [save] unharmed: the attribute itself for a
    [datetime], its export otherwise. *)
Definition round_value (cls : model) (f : string) (v : val) : val :=
  if datetime_field (fields cls) f then v else of_json (to_json true v).

(** A field that [load] treats the way [save] wrote it: [load] decodes
    it, or [save] wrote the value as it is (a [datetime] field, or a
    string, an integer or a boolean). *)
Definition read_back (cls : model) (f : string) (v : val) : bool :=
  decodes_field (fields cls) f
  || datetime_field (fields cls) f
  || is_primitive (to_json true v).

(** What [load] decodes is what [save] wrote as structured text: the
    field is not a [datetime] and holds a list, a dictionary or a model,
    whose dictionaries hold each key once. *)
Definition holds_structure (cls : model) (f : string) (v : val) : bool :=
  negb (datetime_field (fields cls) f)
  && negb (is_primitive (to_json true v))
  && distinct_keys v.

(** A record of the same type whose attribute [f] holds [v]. *)
Definition with_attr (self : instance) (f : string) (v : val) : instance :=
  {| cls := cls self; attrs := <[f := v]> (attrs self) |}.

(** A record type with another validating constructor. *)
Definition with_constructor (c : model)
    (ctor : gmap string val -> result (gmap string val)) : model :=
  {| name := name c; fields := fields c; key_fields := key_fields c;
     save_exclude := save_exclude c; event_include := event_include c;
     telemetry_include := telemetry_include c; parse_obj := ctor |}.

(** ** Sample record types *)

(** Two record types in the manner of the fleet's entities, an
    enumeration table, and a few records, for evaluation. *)
Module Sample.

Definition plain : field_info :=
  {| is_datetime := false; param_annotation := AClass false false |}.
Definition nested_model : field_info :=
  {| is_datetime := false; param_annotation := AClass true false |}.
Definition optional_model : field_info :=
  {| is_datetime := false;
     param_annotation := AUnion [AClass true false; AClass false false] |}.
Definition mapping : field_info :=
  {| is_datetime := false; param_annotation := AAlias ODict |}.
Definition sequence : field_info :=
  {| is_datetime := false; param_annotation := AAlias OList |}.
Definition timestamp : field_info :=
  {| is_datetime := true; param_annotation := AClass false false |}.

(** A task: keyed by job and task, with a work state, a nested
    configuration (a model with an optional target), a finishing time,
    and heartbeats that are not saved. *)
Definition Task : model := {|
  name := "Task";
  fields :=
    [("job_id", plain); ("task_id", plain); ("state", plain);
     ("config", nested_model); ("error", optional_model);
     ("end_time", timestamp); ("heartbeats", mapping);
     ("Timestamp", timestamp); ("etag", plain)];
  key_fields := Some ("job_id", Some "task_id");
  save_exclude := Some ["heartbeats"];
  event_include := Some ["job_id"; "task_id"; "state"; "error"];
  telemetry_include := Some ["job_id"; "task_id"; "state"];
  parse_obj := Ok
|}.

(** A pool: keyed by its name alone, with the filters of [ORMMixin]
    left as they are, and a list of tags. *)
Definition Pool : model := {|
  name := "Pool";
  fields :=
    [("name", plain); ("pool_id", plain); ("state", plain);
     ("tags", sequence); ("Timestamp", timestamp); ("etag", plain)];
  key_fields := Some ("name", None);
  save_exclude := None;
  event_include := Some [];
  telemetry_include := Some [];
  parse_obj := Ok
|}.

Definition TaskState (n : string) : val := PEnum "TaskState" n (PStr Str n).
Definition PoolState (n : string) : val := PEnum "PoolState" n (PStr Str n).

Definition enums : Enums := {|
  TelemetryEvent_members := ["Task"];
  UpdateType_members := ["Task"; "Job"; "Repro"; "Proxy"; "Pool"; "Node"];
  needs_work_of := fun c =>
    if String.eqb c "TaskState" then
      Some [TaskState "init"; TaskState "stopping"]
    else if String.eqb c "PoolState" then
      Some [PoolState "init"; PoolState "shutdown"]
    else None
|}.

Definition job : val := PUUID "6a9a8c1e-0d3b-4c57-9a75-0f2f1f0f6d11".
Definition tid : val := PUUID "0b1c2d3e-4f50-4617-8293-a4b5c6d7e8f9".

Definition task (state : string) (etag : val) : instance := {|
  cls := Task;
  attrs :=
    list_to_map
      [("job_id", job); ("task_id", tid); ("state", TaskState state);
       ("config",
        PModel [("duration", PInt 24); ("tags", PList []);
                ("target", PNone)]);
       ("error", PNone);
       ("end_time", PDatetime "2020-10-01T12:00:00");
       ("heartbeats", PDict [("worker-1", PStr Str "2020-10-01T11:59:00")]);
       ("Timestamp", PDatetime "2020-10-01T11:00:00");
       ("etag", etag)]
|}.

Definition pool (state : string) : instance := {|
  cls := Pool;
  attrs :=
    list_to_map
      [("name", PStr PoolName "linux"); ("pool_id", job);
       ("state", PoolState state);
       ("tags", PList [PStr Str "nightly"]);
       ("Timestamp", PNone); ("etag", PNone)]
|}.

(** The texts of the two keys of the tasks, and the row [save] builds
    for a task. *)
Definition job_text : string := "6a9a8c1e-0d3b-4c57-9a75-0f2f1f0f6d11".
Definition tid_text : string := "0b1c2d3e-4f50-4617-8293-a4b5c6d7e8f9".

Definition task_row (state : string) (etag : val) : gmap string val :=
  tidy ("job_id", Some "task_id")
    (with_keys job_text tid_text (stored (task state etag))).

(** A validating constructor for the task, in the manner of the
    library's: the keys are read as UUIDs, the state as a member of
    [TaskState], the configuration as the nested model, and a field that
    is absent takes its default, [None]. *)
Definition text_of (v : val) : option string :=
  match v with
  | PStr _ s => Some s
  | PUUID t => Some t
  | _ => None
  end.

Definition parse_config (v : val) : result val :=
  match v with
  | PDict items | PModel items =>
      match lookup_assoc "duration" items, lookup_assoc "tags" items with
      | Some (PInt d), Some (PList tags) =>
          Ok (PModel [("duration", PInt d); ("tags", PList tags);
                      ("target", default PNone (lookup_assoc "target" items))])
      | _, _ => Raise ValidationError
      end
  | _ => Raise ValidationError
  end.

Definition parse_task (data : gmap string val) : result (gmap string val) :=
  match data !! "job_id" ≫= text_of, data !! "task_id" ≫= text_of,
        data !! "state" ≫= text_of, data !! "config" with
  | Some j, Some t, Some s, Some c =>
      let? config := parse_config c in
      Ok (list_to_map
            [("job_id", PUUID j); ("task_id", PUUID t);
             ("state", TaskState s); ("config", config);
             ("error", default PNone (data !! "error"));
             ("end_time", default PNone (data !! "end_time"));
             ("heartbeats", default PNone (data !! "heartbeats"));
             ("Timestamp", default PNone (data !! "Timestamp"));
             ("etag", default PNone (data !! "etag"))])
  | _, _, _, _ => Raise ValidationError
  end.

Definition TypedTask : model := with_constructor Task parse_task.

Definition typed_task (state : string) (etag : val) : instance :=
  {| cls := TypedTask; attrs := attrs (task state etag) |}.

(** The world after a first, creating save of a running task. *)
Definition saved_once : world MemStore.t :=
  snd (save enums (task "running" PNone) true false MemStore.start).

End Sample.

Arguments Sample.task : simpl never.
Arguments Sample.typed_task : simpl never.
Arguments Sample.pool : simpl never.
Arguments Sample.task_row : simpl never.
Arguments Sample.saved_once : simpl never.

(** Whether a call of [save] returned [None]. *)
Definition succeeded {A S} (p : result (A * option Error) * world S) : bool :=
  match fst p with
  | Ok (_, None) => true
  | _ => false
  end.

(** ** Search *)

(** The query call of the table client: the rows of a table that the
    store returns for a filter expression and a limit, in order. *)
Class TableQuery (S : Type) : Type := {
  query_entities :
    string -> option string -> option Z -> S -> result (list (gmap string val))
}.

(** The compiled expression joined with the caller's own. *)
Definition combine_filters (search_filter raw_unchecked_filter : option string)
  : option string :=
  match raw_unchecked_filter with
  | None => search_filter
  | Some r =>
      match search_filter with
      | None => Some r
      | Some f => Some ("(" ++ f ++ ") and (" ++ r ++ ")")
      end
  end.

Section Search.

Context {S : Type} {querier : TableQuery S}.

(** [search]: the rows of the store are post-filtered and loaded one
    after the other; the first row that fails to load ends the loop. *)
Definition search (cls : model) (query : option QueryFilter)
    (raw_unchecked_filter : option string) (num_results : option Z)
  : M S (list instance) :=
  bind (lift (build_filters cls query)) (fun compiled =>
    let search_filter := combine_filters (fst compiled) raw_unchecked_filter in
    bind (ask (query_entities (table_name cls) search_filter num_results))
      (fun rows =>
         lift (rmap (load cls)
                 (List.filter
                    (fun row => post_filter row (Some (snd compiled)))
                    rows)))).

End Search.

(** ** More notions for the properties *)

(** The values whose text is the same before and after the export of
    [save]: strings of any class, UUIDs and integers. *)
Definition text_key (v : val) : bool := is_str v || is_uuid v || is_int v.

(** The equality clause of one value of a server-side list. *)
Definition clause (column : string) (v : val) : string :=
  match v with
  | PInt z => column ++ " eq " ++ pretty z
  | PBool b => column ++ " eq " ++ pretty (if b then 1 else 0)
  | PEnum _ n _ => column ++ " eq '" ++ n ++ "'"
  | _ => safe_clause column v
  end.

(** A list the compiler turns into a server-side group: integers only,
    enumeration members only, or safe strings only. *)
Definition server_safe (values : list val) : bool :=
  forallb is_int values || forallb is_enum values
  || forallb is_safe_string values.

Definition group (kf : string * option string) (item : string * list val)
  : string :=
  or_group (map (clause (store_field_name kf (fst item))) (snd item)).

(** The columns of a saved row are text, integers or booleans. *)
Definition is_column_value (v : val) : bool := is_str v || is_int v.

(** The call of the client that [save] makes. *)
Definition write_call (self : instance) (new require_etag : bool)
    (row : gmap string val) : effect :=
  let etag := default PNone (attrs self !! "etag") in
  if new then InsertEntity (table_name (cls self)) row
  else if truthy etag && require_etag
  then ReplaceEntity (table_name (cls self)) row etag
  else InsertOrReplaceEntity (table_name (cls self)) row.

(** ** The pool resize timer *)

(** [pool_resize/__init__.py]: the count of the machines that the tasks
    of a pool ask for, the scaling up and down of scale sets, and the
    decision that the timer takes for each pool.  The records carry the
    attributes that the functions read.  The searches of the record
    types, [ScalesetState.available], [Scaleset.scaleset_max_size] and
    the rounded quotient of [math.ceil] are parameters; [shutdown] and
    [resize] of a scale set, [Scaleset.create] and the [save] of the
    scale set it returns are calls out of these functions, written to a
    list in the order they are made. *)
Module PoolResize.

Record TaskPool : Type := { count : Z }.
Record TaskConfig : Type := { pool : TaskPool }.
Record Task : Type := { config : TaskConfig }.

Record Pool : Type := {
  name : string;
  max_size : Z;
  image : string;
  vm_sku : string;
  region : string;
  spot_instances : bool
}.

(** [max_size] of a scale set, which [scale_up] both calls and compares
    with an integer: an attribute that holds an integer, or a method that
    returns one. *)
Inductive member : Type :=
  | Attribute (value : Z)
  | Method (returns : Z).

(** A scale set: [state] is the name of its [ScalesetState], [new_size]
    is [None] until one of the functions assigns it, [own_max_size] is
    its [max_size] (the name is the pool's here). *)
Record Scaleset : Type := {
  scaleset_id : string;
  state : string;
  size : Z;
  new_size : option Z;
  own_max_size : member
}.

(** The calls written down: those of the methods of a scale set, the
    creation and the saving of a new scale set of [size] nodes, whose
    other arguments are attributes of the pool, and the call of
    [scale_up] by [main]. *)
Inductive call : Type :=
  | Shutdown (scaleset : Scaleset)
  | Resize (scaleset : Scaleset)
  | Create (pool : Pool) (size : Z)
  | SaveNew (pool : Pool) (size : Z)
  | ScaleUp (pool : Pool) (scalesets : list Scaleset) (nodes_needed : Z).

Definition set_new_size (scaleset : Scaleset) (n : Z) : Scaleset :=
  {| scaleset_id := scaleset_id scaleset;
     state := state scaleset;
     size := size scaleset;
     new_size := Some n;
     own_max_size := own_max_size scaleset |}.

(** [scaleset.max_size()]: an integer is not callable. *)
Definition call_max_size (scaleset : Scaleset) : result Z :=
  match own_max_size scaleset with
  | Method z => Ok z
  | Attribute _ => Raise TypeError
  end.

(** [min(scaleset.max_size, pool.max_size)]: a method and an integer do
    not compare. *)
Definition min_max_size (scaleset : Scaleset) (pool : Pool) : result Z :=
  match own_max_size scaleset with
  | Attribute z => Ok (Z.min z (max_size pool))
  | Method _ => Raise TypeError
  end.

Definition get_vm_count (tasks : list Task) : Z :=
  fold_left (fun count task => count + PoolResize.count (pool (config task)))
    tasks 0.

(** The inner loop of [main]: the tasks left without a machine once the
    sizes of the scale sets are taken off, or [None] when the loop meets
    a scale set that is resizing. *)
Fixpoint uncovered (scalesets : list Scaleset) (num_of_tasks : Z)
  : option Z :=
  match scalesets with
  | [] => Some num_of_tasks
  | scaleset :: rest =>
      if String.eqb (state scaleset) "resize" then None
      else uncovered rest (num_of_tasks - size scaleset)
  end.

Section Functions.

(** [ScalesetState.available()], by state name;
    [Scaleset.scaleset_max_size(image)]; [math.ceil(a / b)];
    [Node.search_states(scaleset_id=..., states=[NodeState.free])],
    [Task.get_tasks_by_pool_name] and [Scaleset.search_by_pool]. *)
Context {Node : Type}.
Variable available : list string.
Variable scaleset_max_size : string -> Z.
Variable ceil_quotient : Z -> Z -> result Z.
Variable search_free : string -> result (list Node).
Variable get_tasks_by_pool_name : string -> result (list Task).
Variable search_by_pool : string -> result (list Scaleset).

(** The first loop of [scale_up]: the nodes still needed when the loop
    ends, or [None] when it returns from the function; the scale sets as
    it leaves them; the calls made. *)
Fixpoint grow (pool : Pool) (scalesets : list Scaleset) (nodes_needed : Z)
  : result (option Z) * list Scaleset * list call :=
  match scalesets with
  | [] => (Ok (Some nodes_needed), [], [])
  | scaleset :: rest =>
      let continue :=
        let '(r, after, calls) := grow pool rest nodes_needed in
        (r, scaleset :: after, calls) in
      if in_names (state scaleset) available then
        match (if Z.ltb (size scaleset) (max_size pool)
               then rbind (call_max_size scaleset)
                      (fun m => Ok (Z.ltb (size scaleset) m))
               else Ok false) with
        | Raise e => (Raise e, scaleset :: rest, [])
        | Ok false => continue
        | Ok true =>
            match min_max_size scaleset pool with
            | Raise e => (Raise e, scaleset :: rest, [])
            | Ok max_size =>
                let current_size := size scaleset in
                if Z.leb nodes_needed max_size then
                  (Ok None,
                   set_new_size scaleset (current_size + nodes_needed) :: rest,
                   [])
                else
                  let scaleset := set_new_size scaleset max_size in
                  let nodes_needed :=
                    nodes_needed - (max_size - current_size) in
                  let '(r, after, calls) := grow pool rest nodes_needed in
                  (r, scaleset :: after, Resize scaleset :: calls)
            end
        end
      else continue
  end.

(** The sizes of the scale sets that the second loop of [scale_up]
    creates, one for each turn. *)
Fixpoint created_sizes (pool : Pool) (turns : nat) (nodes_needed : Z)
  : list Z :=
  match turns with
  | O => []
  | S turns' =>
      let max_nodes_scaleset :=
        Z.min (Z.min (scaleset_max_size (image pool)) (max_size pool))
          nodes_needed in
      max_nodes_scaleset
        :: created_sizes pool turns' (nodes_needed - max_nodes_scaleset)
  end.

Definition create_scalesets (pool : Pool) (turns : nat) (nodes_needed : Z)
  : list call :=
  flat_map (fun size => [Create pool size; SaveNew pool size])
    (created_sizes pool turns nodes_needed).

(** [scale_up]: its outcome, the scale sets as it leaves them, and the
    calls made. *)
Definition scale_up (pool : Pool) (scalesets : list Scaleset)
    (nodes_needed : Z) : result unit * list Scaleset * list call :=
  match grow pool scalesets nodes_needed with
  | (Raise e, after, calls) => (Raise e, after, calls)
  | (Ok None, after, calls) => (Ok tt, after, calls)
  | (Ok (Some nodes_needed), after, calls) =>
      if Z.gtb nodes_needed 0 then
        match ceil_quotient nodes_needed
                (Z.min (scaleset_max_size (image pool)) (max_size pool)) with
        | Raise e => (Raise e, after, calls)
        | Ok turns =>
            (Ok tt, after,
             (calls ++ create_scalesets pool (Z.to_nat turns) nodes_needed)%list)
        end
      else (Ok tt, after, calls)
  end.

(** One turn of the loop of [scale_down]: the scale set after it and the
    calls made. *)
Definition scale_down_one (scaleset : Scaleset) (nodes : list Node)
  : Scaleset * list call :=
  match nodes with
  | [] =>
      let resized :=
        set_new_size scaleset (size scaleset - Z.of_nat (length nodes)) in
      if match new_size resized with
         | Some n => Z.leb n 0
         | None => false
         end
      then (resized, [Shutdown resized])
      else (resized, [Resize resized])
  | _ :: _ => (scaleset, [])
  end.

(** [scale_down]: the scale sets as the loop leaves them, or the
    exception of a search, and the calls made until then. *)
Fixpoint scale_down (scalesets : list Scaleset)
  : result (list Scaleset) * list call :=
  match scalesets with
  | [] => (Ok [], [])
  | scaleset :: rest =>
      match search_free (scaleset_id scaleset) with
      | Raise e => (Raise e, [])
      | Ok nodes =>
          let '(scaleset', calls) := scale_down_one scaleset nodes in
          let '(r, calls') := scale_down rest in
          (match r with
           | Ok l => Ok (scaleset' :: l)
           | Raise e => Raise e
           end,
           (calls ++ calls')%list)
      end
  end.

(** The body of the loop of [main] for one pool. *)
Definition resize_pool (p : Pool) : result unit * list call :=
  match get_tasks_by_pool_name (name p) with
  | Raise e => (Raise e, [])
  | Ok [] => (Ok tt, [])
  | Ok tasks =>
      let num_of_tasks := get_vm_count tasks in
      match search_by_pool (name p) with
      | Raise e => (Raise e, [])
      | Ok scalesets =>
          match uncovered scalesets num_of_tasks with
          | None => (Ok tt, [])
          | Some num_of_tasks =>
              if Z.gtb num_of_tasks 0 then
                let '(r, _, calls) := scale_up p scalesets num_of_tasks in
                (r, ScaleUp p scalesets num_of_tasks :: calls)
              else if Z.ltb num_of_tasks 0 then
                let '(r, calls) := scale_down scalesets in
                (match r with
                 | Ok _ => Ok tt
                 | Raise e => Raise e
                 end, calls)
              else (Ok tt, [])
          end
      end
  end.

(** [main], on the pools that its first search returned. *)
Fixpoint main (pools : list Pool) : result unit * list call :=
  match pools with
  | [] => (Ok tt, [])
  | p :: rest =>
      match resize_pool p with
      | (Raise e, calls) => (Raise e, calls)
      | (Ok _, calls) =>
          let '(r, calls') := main rest in (r, (calls ++ calls')%list)
      end
  end.

(** What [scale_down] may ask of a scale set: a resize to the size it
    has, when that size is positive, or a shutdown when it is not, and
    only of a scale set without free nodes. *)
Definition keeps_size (c : call) : Prop :=
  match c with
  | Resize s =>
      new_size s = Some (size s) /\ 0 < size s
      /\ search_free (scaleset_id s) = Ok []
  | Shutdown s =>
      new_size s = Some (size s) /\ size s <= 0
      /\ search_free (scaleset_id s) = Ok []
  | _ => False
  end.

(** A scale set that stops the first loop of [scale_up]: it is
    available and smaller than the pool may be, and its [max_size] is an
    attribute, or a method that returns more than its size. *)
Definition has_room (pool : Pool) (scaleset : Scaleset) : Prop :=
  In (state scaleset) available
  /\ size scaleset < max_size pool
  /\ match own_max_size scaleset with
     | Attribute _ => True
     | Method m => size scaleset < m
     end.

End Functions.

End PoolResize.

(** ** More sample data *)

(** A table of enumerations without update types, a record without
    attributes, a store query that answers with two fixed rows, and a
    small fleet for the resize timer. *)
Module Fleet.

Definition strict_enums : Enums := {|
  TelemetryEvent_members := [];
  UpdateType_members := [];
  needs_work_of := needs_work_of Sample.enums
|}.

Definition keyless : instance := {| cls := Sample.Pool; attrs := ∅ |}.

(** A record type that leaves [key_fields] as [ORMMixin] has it, and a
    record of it. *)
Definition Note : model := {|
  name := "Note";
  fields :=
    [("text", Sample.plain); ("state", Sample.plain);
     ("Timestamp", Sample.timestamp); ("etag", Sample.plain)];
  key_fields := None;
  save_exclude := None;
  event_include := Some ["text"];
  telemetry_include := Some [];
  parse_obj := Ok
|}.

Definition note : instance := {|
  cls := Note;
  attrs :=
    list_to_map
      [("text", PStr Str "hello"); ("state", Sample.TaskState "init");
       ("Timestamp", PNone); ("etag", PNone)]
|}.

(** A record type keyed by an enumeration member whose value is not
    its name, and a record of it. *)
Definition Image : model := {|
  name := "Image";
  fields :=
    [("os", Sample.plain); ("path", Sample.plain);
     ("Timestamp", Sample.timestamp); ("etag", Sample.plain)];
  key_fields := Some ("os", None);
  save_exclude := None;
  event_include := Some [];
  telemetry_include := Some [];
  parse_obj := Ok
|}.

Definition image : instance := {|
  cls := Image;
  attrs :=
    list_to_map
      [("os", PEnum "OS" "linux" (PStr Str "Linux"));
       ("path", PStr Str "/images/linux");
       ("Timestamp", PNone); ("etag", PNone)]
|}.

Definition pool_row (name state : string) : gmap string val :=
  list_to_map
    [("PartitionKey", PStr Str name); ("RowKey", PStr Str name);
     ("state", PStr Str state)].

#[global] Instance two_rows : TableQuery unit := {
  query_entities := fun _ _ _ _ =>
    Ok [pool_row "linux" "running"; pool_row "windows" "halt"]
}.

Definition free_nodes (scaleset_id : string) : result (list string) :=
  if String.eqb scaleset_id "busy" then Ok ["node-1"] else Ok [].

Definition available : list string := ["init"; "setup"; "resize"; "running"].

Definition scaleset_max_size (image : string) : Z :=
  if String.prefix "/" image then 600 else 1000.

(** The quotient rounded up, exact as long as the floating-point
    division is. *)
Definition ceil_quotient (a b : Z) : result Z :=
  if Z.eqb b 0 then Raise ZeroDivisionError else Ok (- ((- a) / b)).

Definition scaleset (id : string) (size : Z) : PoolResize.Scaleset :=
  {| PoolResize.scaleset_id := id; PoolResize.state := "running";
     PoolResize.size := size; PoolResize.new_size := None;
     PoolResize.own_max_size := PoolResize.Method 1000 |}.

Definition pool_of (name : string) (max_size : Z) : PoolResize.Pool :=
  {| PoolResize.name := name; PoolResize.max_size := max_size;
     PoolResize.image := "Canonical:UbuntuServer:18.04-LTS:latest";
     PoolResize.vm_sku := "Standard_D2s_v3";
     PoolResize.region := "eastus";
     PoolResize.spot_instances := false |}.

Definition task_on (count : Z) : PoolResize.Task :=
  {| PoolResize.config :=
       {| PoolResize.pool := {| PoolResize.count := count |} |} |}.

Definition tasks_of (pool : string) : result (list PoolResize.Task) :=
  if String.eqb pool "linux" then Ok [task_on 2; task_on 3]
  else if String.eqb pool "windows" then Ok [task_on 1]
  else if String.eqb pool "bsd" then Ok [task_on 5]
  else Ok [].

Definition scalesets_of (pool : string) : result (list PoolResize.Scaleset) :=
  if String.eqb pool "linux" then Ok [scaleset "busy" 1; scaleset "idle" 2]
  else if String.eqb pool "windows" then Ok [scaleset "busy" 3; scaleset "idle" 4]
  else Ok [].

End Fleet.

(** * Properties *)

(** ** Generic facts *)

Lemma rbind_ok {A B} (r : result A) (k : A -> result B) (b : B) :
  rbind r k = Ok b -> exists a, r = Ok a /\ k a = Ok b.
Proof. destruct r as [a|e]; simpl; [eauto | discriminate]. Qed.

Lemma mem_Exists (x : val) (l : list val) :
  mem x l = true <-> Exists (fun y => Py.eqb x y = true) l.
Proof.
  unfold mem. rewrite existsb_exists, Exists_exists.
  split; intros (y & Hin & Hy); exists y; (split; [|exact Hy]).
  - by apply list_elem_of_In.
  - by apply list_elem_of_In.
Qed.

Lemma contains_true {A} (k : string) (d : gmap string A) :
  contains k d = true <-> is_Some (d !! k).
Proof.
  unfold contains. destruct (d !! k) eqn:E; split; intros H; eauto.
  - discriminate.
  - by destruct H.
Qed.

Lemma is_empty_true {A} (d : gmap string A) : is_empty d = true <-> d = ∅.
Proof.
  unfold is_empty. rewrite <- map_to_list_empty_iff.
  destruct (map_to_list d); split; congruence.
Qed.

Lemma in_names_In (k : string) (l : list string) :
  in_names k l = true <-> In k l.
Proof.
  unfold in_names. rewrite existsb_exists. split.
  - intros (y & Hin & Hy). apply String.eqb_eq in Hy. by subst.
  - intros Hin. exists k. split; [done | apply String.eqb_refl].
Qed.

(** ** Post-filter *)

Lemma post_filter_some (row : gmap string val) (fs : gmap string (list val)) :
  post_filter row (Some fs) = true <->
  forall field allowed, fs !! field = Some allowed ->
    exists v, row !! field = Some v /\ mem v allowed = true.
Proof.
  unfold post_filter. rewrite forallb_forall. split.
  - intros H field allowed Hf.
    specialize (H (field, allowed)). simpl in H.
    destruct (row !! field) as [v|].
    + exists v. split; [done|]. apply H.
      apply list_elem_of_In. by apply elem_of_map_to_list.
    + assert (false = true); [|discriminate].
      apply H. apply list_elem_of_In. by apply elem_of_map_to_list.
  - intros H [field allowed] Hin.
    apply list_elem_of_In, elem_of_map_to_list in Hin.
    destruct (H field allowed Hin) as (v & -> & Hv). exact Hv.
Qed.

(** C6.  The post-filter accepts a row exactly when every field named in
    the residual filters is present on the row with a value that is a
    member of the field's allowed values; a row that lacks such a field is
    rejected, and without residual filters, or with none in the set, every
    row is accepted. *)
Theorem post_filter_correct (row : gmap string val) :
  (forall filters,
     post_filter row filters = true <->
     forall fs field allowed,
       filters = Some fs -> fs !! field = Some allowed ->
       exists v, row !! field = Some v /\
                 Exists (fun y => Py.eqb v y = true) allowed)
  /\ (forall fs field allowed,
        fs !! field = Some allowed -> row !! field = None ->
        post_filter row (Some fs) = false)
  /\ post_filter row None = true
  /\ post_filter row (Some ∅) = true.
Proof.
  split; [|split; [|split]].
  - intros [fs|].
    + rewrite post_filter_some. split.
      * intros H fs' field allowed [= <-] Hf.
        destruct (H field allowed Hf) as (v & Hv & Hm).
        exists v. split; [done|]. by apply mem_Exists.
      * intros H field allowed Hf.
        destruct (H fs field allowed eq_refl Hf) as (v & Hv & Hm).
        exists v. split; [done|]. by apply mem_Exists.
    + simpl. split; [discriminate | done].
  - intros fs field allowed Hf Hrow.
    destruct (post_filter row (Some fs)) eqn:E; [|done].
    destruct (proj1 (post_filter_some row fs) E field allowed Hf)
      as (v & Hv & _).
    congruence.
  - reflexivity.
  - apply post_filter_some. intros field allowed Hf.
    by rewrite lookup_empty in Hf.
Qed.

(** ** Filter compiler *)

Lemma append_nil_l (s : string) : EmptyString ++ s = s.
Proof. reflexivity. Qed.

Lemma append_cons (x : ascii) (a b : string) :
  String x a ++ b = String x (a ++ b).
Proof. reflexivity. Qed.

Lemma append_assoc (a b c : string) : (a ++ b) ++ c = a ++ (b ++ c).
Proof.
  induction a as [|x a IH]; [reflexivity|].
  rewrite !append_cons. by rewrite IH.
Qed.

(** Appends are kept folded by [simpl]: bring both sides of an equation
    between texts to the same right-nested form. *)
Ltac norm_str :=
  repeat (rewrite ?append_assoc, ?append_cons, ?append_nil_l).

Lemma store_field_name_other (kf : string * option string) (field : string) :
  field <> fst kf -> snd kf <> Some field ->
  store_field_name kf field = field.
Proof.
  intros Hp Hr. unfold store_field_name.
  apply String.eqb_neq in Hp. rewrite Hp.
  rewrite bool_decide_eq_false_2; [done | congruence].
Qed.

Lemma rmap_enum_clause (field_name : string) (values : list val) :
  forallb is_enum values = true ->
  exists parts, rmap (enum_clause field_name) values = Ok parts /\
                length parts = length values.
Proof.
  induction values as [|v values IH]; simpl; intros H.
  - by exists [].
  - apply andb_prop in H as [Hv Hvs].
    destruct (IH Hvs) as (parts & -> & Hlen).
    destruct v; try discriminate. simpl.
    eexists; split; [done | simpl; by f_equal].
Qed.

Lemma rmap_int_clause_bad (field_name : string) (values : list val) :
  forallb is_int values = false ->
  rmap (int_clause field_name) values = Raise TypeError.
Proof.
  induction values as [|v values IH]; simpl; intros H; [discriminate|].
  destruct (is_int v) eqn:Hv; simpl in H.
  - rewrite (IH H). unfold int_clause.
    destruct v; try discriminate; reflexivity.
  - unfold int_clause. destruct v; try discriminate; reflexivity.
Qed.

Lemma rmap_enum_clause_bad (field_name : string) (values : list val) :
  forallb is_enum values = false ->
  rmap (enum_clause field_name) values = Raise TypeError.
Proof.
  induction values as [|v values IH]; simpl; intros H; [discriminate|].
  destruct (is_enum v) eqn:Hv; simpl in H.
  - rewrite (IH H). destruct v; try discriminate; reflexivity.
  - destruct v; try discriminate; reflexivity.
Qed.

(** A field whose list starts with neither an integer nor an enumeration
    member and is not made of safe strings goes to the residual filters. *)
Lemma build_filters_step_residual cls kf acc field v0 values :
  has_field cls field = true ->
  is_int v0 = false -> is_enum v0 = false ->
  forallb is_safe_string (v0 :: values) = false ->
  build_filters_step cls kf acc (field, v0 :: values) =
  Ok (fst acc, <[store_field_name kf field := v0 :: values]> (snd acc)).
Proof.
  intros Hf Hi He Hs. destruct acc as [parts post].
  unfold build_filters_step. rewrite Hf. simpl negb. cbv iota.
  rewrite Hi, He, Hs. reflexivity.
Qed.

(** C5.  On a declared field, two enumerated values compile to the
    parenthesised disjunction of their two equality clauses on the
    symbolic names, with no residual filter; a plain string value
    compiles to no server expression and to the residual filter of that
    field; and the groups of two fields are joined by [and], a group of
    one clause standing without parentheses.  The field is named by its
    store-side name, which is the field name itself unless the field is
    a key field. *)
Theorem build_filters_enum_pair_and_free_text
    (cls : model) (kf : string * option string) (field other : string)
    (ca na cb nb cc nc : string) (va vb vc : val) (s : string) :
  key_fields cls = Some kf ->
  has_field cls field = true ->
  has_field cls other = true ->
  let column := store_field_name kf field in
  let column' := store_field_name kf other in
  build_filters cls (Some [(field, [PEnum ca na va; PEnum cb nb vb])]) =
    Ok (Some ("(" ++ column ++ " eq '" ++ na ++ "' or "
                  ++ column ++ " eq '" ++ nb ++ "')"), ∅)
  /\ build_filters cls (Some [(field, [PStr Str s])]) =
       Ok (None, {[column := [PStr Str s]]})
  /\ build_filters cls
       (Some [(field, [PEnum ca na va; PEnum cb nb vb]);
              (other, [PEnum cc nc vc])]) =
       Ok (Some ("(" ++ column ++ " eq '" ++ na ++ "' or "
                     ++ column ++ " eq '" ++ nb ++ "') and "
                     ++ column' ++ " eq '" ++ nc ++ "'"), ∅)
  /\ (field <> fst kf -> snd kf <> Some field -> column = field).
Proof.
  intros Hk Hf Ho column column'. subst column column'.
  unfold build_filters, get_key_fields. rewrite Hk.
  split; [|split; [|split]]; simpl; rewrite ?Hf; simpl; rewrite ?Ho; simpl.
  - norm_str. reflexivity.
  - reflexivity.
  - norm_str. reflexivity.
  - apply store_field_name_other.
Qed.

(** C4, as the code has it.  A declared field whose non-empty list starts
    with a value that is neither an integer nor an enumeration member and
    is not made of safe strings only is deferred to the residual filters
    under its store-side name, in a turn of the loop and so in a query of
    that field alone; a list that starts with an integer, or with an
    enumeration member, and holds a value of another kind makes the
    compiler raise [TypeError]. *)
Theorem build_filters_mixed_values
    (cls : model) (kf : string * option string) (field : string)
    (v0 : val) (values : list val) :
  key_fields cls = Some kf ->
  has_field cls field = true ->
  (is_int v0 = false -> is_enum v0 = false ->
   forallb is_safe_string (v0 :: values) = false ->
   (forall acc,
      build_filters_step cls kf acc (field, v0 :: values) =
      Ok (fst acc, <[store_field_name kf field := v0 :: values]> (snd acc)))
   /\ build_filters cls (Some [(field, v0 :: values)]) =
      Ok (None, {[store_field_name kf field := v0 :: values]}))
  /\ (is_int v0 = true -> forallb is_int values = false ->
      build_filters cls (Some [(field, v0 :: values)]) = Raise TypeError)
  /\ (is_enum v0 = true -> forallb is_enum values = false ->
      build_filters cls (Some [(field, v0 :: values)]) = Raise TypeError).
Proof.
  intros Hk Hf. split; [|split].
  - intros Hi He Hs. split.
    + intros acc. by apply build_filters_step_residual.
    + unfold build_filters, get_key_fields. rewrite Hk.
      cbn [rbind rfold].
      rewrite (build_filters_step_residual cls kf ([], ∅) field v0 values)
        by done.
      reflexivity.
  - intros Hi Hbad.
    unfold build_filters, get_key_fields. rewrite Hk. simpl.
    rewrite Hf, Hi. simpl.
    assert (forallb is_int (v0 :: values) = false) as H
      by (simpl; rewrite Hi; exact Hbad).
    apply (rmap_int_clause_bad (store_field_name kf field)) in H.
    simpl in H. rewrite H. reflexivity.
  - intros He Hbad.
    assert (is_int v0 = false) as Hi by (destruct v0; done).
    unfold build_filters, get_key_fields. rewrite Hk. simpl.
    rewrite Hf, Hi, He. simpl.
    assert (forallb is_enum (v0 :: values) = false) as H
      by (simpl; rewrite He; exact Hbad).
    apply (rmap_enum_clause_bad (store_field_name kf field)) in H.
    simpl in H. rewrite H. reflexivity.
Qed.

(** ** Point lookup *)

Ltac unfold_m :=
  unfold bind, ret, raise, lift, emit, call, ask, try_except; simpl.

Section GetFacts.

Context {S : Type} {client : TableClient S}.

Lemma get_log (cls : model) (PK RK : val) (p r : string) (w : world S) :
  resolve PK = Ok p ->
  (if truthy RK then resolve RK else Ok p) = Ok r ->
  log (snd (get cls PK RK w)) =
  (log w ++ [GetEntity (table_name cls) p r])%list.
Proof.
  intros Hp Hr. unfold get. unfold_m. rewrite Hp.
  destruct (truthy RK); simpl in *.
  - rewrite Hr. simpl.
    destruct (get_entity (table_name cls) p r (store w)) as [raw|e]; simpl.
    + by destruct (load cls raw).
    + by destruct (bool_decide (e = AzureMissingResourceHttpError)).
  - injection Hr as <-.
    destruct (get_entity (table_name cls) p p (store w)) as [raw|e]; simpl.
    + by destruct (load cls raw).
    + by destruct (bool_decide (e = AzureMissingResourceHttpError)).
Qed.

(** C10.  A row key that is false in a condition, such as [0] or the
    empty string, is treated as no row key at all: [get] behaves as when
    none is given, and the point lookup it issues uses the resolved
    partition key as the row key, not the text of the supplied value. *)
Theorem get_falsy_row_key (cls : model) (PK RK : val) (p : string)
    (w : world S) :
  truthy RK = false ->
  resolve PK = Ok p ->
  get cls PK RK w = get cls PK PNone w
  /\ log (snd (get cls PK RK w)) =
     (log w ++ [GetEntity (table_name cls) p p])%list.
Proof.
  intros Hf Hp. split.
  - unfold get. by rewrite Hf.
  - apply get_log; [done|]. by rewrite Hf.
Qed.

End GetFacts.

(** ** Save and delete: what reaches the log *)

Lemma extend_nil {S} (w : world S) : extend w [] = w.
Proof. destruct w. unfold extend. simpl. by rewrite app_nil_r. Qed.

Lemma extend_extend {S} (w : world S) (l l' : list effect) :
  extend (extend w l) l' = extend w (l ++ l').
Proof. unfold extend. simpl. by rewrite app_assoc. Qed.

Section SaveFacts.

Context {S : Type} {client : TableClient S} (enums : Enums).

Lemma event_as_needed_run (self : instance) (w : world S) :
  _event_as_needed self w = (Ok tt, extend w (event_part self)).
Proof.
  unfold _event_as_needed, event_part.
  destruct (is_empty (event self)); unfold_m; [by rewrite extend_nil | done].
Qed.

Lemma telemetry_as_needed_run (self : instance) (w : world S) :
  _telemetry_as_needed enums self w =
  (Ok tt, extend w (telemetry_part enums self)).
Proof.
  unfold _telemetry_as_needed, telemetry_part.
  destruct (in_names _ _); simpl; [|unfold_m; by rewrite extend_nil].
  destruct (is_empty (telemetry self)); unfold_m;
    [by rewrite extend_nil | done].
Qed.

(** [queue] either raises and leaves the world as it is, or adds one
    message carrying the resolved keys. *)
Lemma queue_run (self : instance) (method : option string)
    (timeout : option Z) (w : world S) :
  (exists e, queue enums self method timeout w = (Raise e, w))
  \/ (exists keys pk rk,
        get_keys self = Ok keys /\ resolve (fst keys) = Ok pk /\
        resolve (snd keys) = Ok rk /\
        queue enums self method timeout w =
        (Ok tt, extend w [QueueUpdate (name (cls self)) pk rk method timeout])).
Proof.
  unfold queue.
  destruct (negb (contains "state" (attrs self))); [left; by eexists|].
  destruct (negb (in_names _ _)); [left; by eexists|].
  unfold_m.
  destruct (get_keys self) as [keys|e]; [|left; by eexists].
  destruct (resolve (fst keys)) as [pk|e] eqn:Hpk; [|left; by eexists].
  destruct (resolve (snd keys)) as [rk|e] eqn:Hrk; [|left; by eexists].
  right. exists keys, pk, rk. by rewrite Hpk, Hrk.
Qed.

Lemma queue_as_needed_run (self : instance) (w : world S) :
  _queue_as_needed enums self w =
  match queue_delay enums self with
  | None => (Ok tt, w)
  | Some d => queue enums self None (Some d) w
  end.
Proof.
  unfold _queue_as_needed, queue_delay.
  destruct (attrs self !! "state") as [state|]; [|done].
  destruct state as [| | | | |c n v| | | |]; try done.
  unfold needs_work. simpl.
  destruct (needs_work_of enums c) as [pending|]; [|done].
  destruct (mem (PEnum c n v) pending); [|done].
  unfold_m. by destruct (in_names n _).
Qed.

Lemma queue_as_needed_ok (self : instance) (w w1 : world S) :
  _queue_as_needed enums self w = (Ok tt, w1) ->
  match queue_delay enums self with
  | None => w1 = w
  | Some d =>
      exists pk rk,
        w1 = extend w [QueueUpdate (name (cls self)) pk rk None (Some d)]
  end.
Proof.
  rewrite queue_as_needed_run.
  destruct (queue_delay enums self) as [d|]; [|congruence].
  destruct (queue_run self None (Some d) w)
    as [[e He] | (keys & pk & rk & _ & _ & _ & Hq)].
  - rewrite He. discriminate.
  - rewrite Hq. intros [= <-]. by exists pk, rk.
Qed.

(** The write adds exactly one entry, the call of the client. *)
Lemma save_write_log (self : instance) (new require_etag : bool)
    (raw : gmap string val) (w w1 : world S) (r : result (string + Error)) :
  save_write self new require_etag raw w = (r, w1) ->
  exists e, is_write e = true /\ log w1 = (log w ++ [e])%list.
Proof.
  assert (forall e l, is_write e = true ->
            exists e', is_write e' = true /\ (l ++ [e])%list = (l ++ [e'])%list)
    as Hex by (intros e l He; by exists e).
  unfold save_write. destruct new; [|destruct (truthy _ && require_etag)];
    unfold_m.
  - destruct (insert_entity _ raw (store w)) as [[etag|e] s1]; simpl.
    + intros [= <- <-]. by apply Hex.
    + destruct (bool_decide _); intros [= <- <-]; by apply Hex.
  - destruct (replace_entity _ raw _ (store w)) as [[etag|e] s1]; simpl;
      intros [= <- <-]; by apply Hex.
  - destruct (insert_or_replace_entity _ raw (store w)) as [[etag|e] s1];
      simpl; intros [= <- <-]; by apply Hex.
Qed.

(** A save that returns [None]: the row was built and written, and the
    log grew by the write, the follow-up message when one is due, the
    telemetry entry and the dashboard entry, in that order. *)
Lemma save_success (self self' : instance) (new require_etag : bool)
    (w w' : world S) :
  save enums self new require_etag w = (Ok (self', None), w') ->
  exists row etag write queued,
    save_row self = Ok row
    /\ self' = set_etag self etag
    /\ is_write write = true
    /\ match queue_delay enums self' with
       | None => queued = []
       | Some d =>
           exists pk rk,
             queued = [QueueUpdate (name (cls self)) pk rk None (Some d)]
       end
    /\ log w' =
       (log w ++ write :: queued ++ telemetry_part enums self'
              ++ event_part self')%list.
Proof.
  unfold save. unfold bind at 1. unfold lift.
  destruct (save_row self) as [row|e]; [|discriminate].
  unfold bind at 1.
  destruct (save_write self new require_etag row w) as [[[etag|err]|e] w1]
    eqn:Hw; [| unfold ret; discriminate | discriminate].
  destruct (save_write_log _ _ _ _ _ _ _ Hw) as (write & Hwrite & Hlog1).
  unfold bind at 1.
  destruct (_queue_as_needed enums (set_etag self etag) w1)
    as [[[]|e] w2] eqn:Hq; [|discriminate].
  apply queue_as_needed_ok in Hq.
  unfold bind at 1. rewrite telemetry_as_needed_run.
  unfold bind at 1. rewrite event_as_needed_run.
  unfold ret. intros [= <- <-].
  destruct (queue_delay enums (set_etag self etag)) as [d|] eqn:Hd.
  - destruct Hq as (pk & rk & ->).
    exists row, etag, write, [QueueUpdate (name (cls self)) pk rk None (Some d)].
    repeat split; [done | by exists pk, rk |].
    simpl. rewrite Hlog1. by rewrite <- !app_assoc.
  - subst w2. exists row, etag, write, [].
    repeat split; [done |].
    simpl. rewrite Hlog1. by rewrite <- !app_assoc.
Qed.

End SaveFacts.

(** ** Save and delete: the claims *)

Section SaveClaims.

Context {S : Type} {client : TableClient S} (enums : Enums).

Lemma filter_event_part (p : effect -> bool) (self : instance) :
  (forall t d, p (AddEvent t d) = false) ->
  List.filter p (event_part self) = [].
Proof.
  intros H. unfold event_part. destruct (is_empty _); simpl; [done|].
  by rewrite H.
Qed.

Lemma filter_telemetry_part (p : effect -> bool) (self : instance) :
  (forall t d, p (TrackEvent t d) = false) ->
  List.filter p (telemetry_part enums self) = [].
Proof.
  intros H. unfold telemetry_part. destruct (_ && _); simpl; [|done].
  by rewrite H.
Qed.

Lemma queue_delay_set_etag (self : instance) (etag : string) :
  queue_delay enums (set_etag self etag) = queue_delay enums self.
Proof.
  unfold queue_delay, set_etag. simpl.
  by rewrite lookup_insert_ne.
Qed.

(** C1, as the code has it.  An insert that the client refuses with a
    conflict makes [save] return the [UNABLE_TO_CREATE] error value, the
    instance unchanged and nothing but the insert in the log.  A
    conditional replace that the client refuses is not caught: the
    exception of the client leaves [save], and again only the call is
    in the log. *)
Theorem save_conflict_outcomes (self : instance) (row : gmap string val)
    (w : world S) :
  save_row self = Ok row ->
  (forall s1 require_etag,
     insert_entity (table_name (cls self)) row (store w) =
       (Raise AzureConflictHttpError, s1) ->
     save enums self true require_etag w =
       (Ok (self, Some {| code := UNABLE_TO_CREATE; errors := ["row exists"] |}),
        {| store := s1;
           log := (log w ++ [InsertEntity (table_name (cls self)) row])%list |}))
  /\ (forall s1 etag e,
        attrs self !! "etag" = Some etag -> truthy etag = true ->
        replace_entity (table_name (cls self)) row etag (store w) =
          (Raise e, s1) ->
        save enums self false true w =
          (Raise e,
           {| store := s1;
              log := (log w ++
                      [ReplaceEntity (table_name (cls self)) row etag])%list |})).
Proof.
  intros Hrow. split.
  - intros s1 require_etag Hins.
    unfold save, save_write. rewrite Hrow. unfold_m. by rewrite Hins.
  - intros s1 etag e Hetag Ht Hrep.
    unfold save, save_write. rewrite Hrow, Hetag. simpl. rewrite Ht.
    unfold_m. by rewrite Hrep.
Qed.

(** C7, as the code has it.  After a save that returns [None], the
    dashboard received the event projection of the saved record exactly
    when that projection is not empty, and then once; the telemetry
    channel received the telemetry projection exactly when the type is
    in the telemetry catalog and that projection is not empty. *)
Theorem save_pushes_nonempty_projections (self self' : instance)
    (new require_etag : bool) (w w' : world S) :
  save enums self new require_etag w = (Ok (self', None), w') ->
  exists added,
    log w' = (log w ++ added)%list
    /\ List.filter is_add_event added =
       (if is_empty (event self') then []
        else [AddEvent (table_name (cls self')) (event self')])
    /\ List.filter is_track_event added =
       (if in_names (table_name (cls self')) (TelemetryEvent_members enums)
           && negb (is_empty (telemetry self'))
        then [TrackEvent (table_name (cls self')) (telemetry self')]
        else []).
Proof.
  intros Hsave.
  destruct (save_success enums _ _ _ _ _ _ Hsave)
    as (row & etag & write & queued & _ & -> & Hwrite & Hq & Hlog).
  eexists. split; [exact Hlog|].
  assert (List.filter is_add_event queued = []
          /\ List.filter is_track_event queued = []) as [Hqa Hqt].
  { destruct (queue_delay enums (set_etag self etag)).
    - destruct Hq as (pk & rk & ->). done.
    - by subst queued. }
  split.
  - simpl. destruct write; try discriminate; simpl;
      rewrite !List.filter_app, Hqa, filter_telemetry_part by done; simpl;
      unfold event_part; by destruct (is_empty _).
  - simpl. destruct write; try discriminate; simpl;
      rewrite !List.filter_app, Hqt, filter_event_part by done; simpl;
      rewrite app_nil_r; unfold telemetry_part; by destruct (_ && _).
Qed.

(** C8.  After a save that returns [None]: without a [state] attribute
    no follow-up message was enqueued; with a state that has no set of
    states needing work, or is not in it, none either; with a state in
    that set exactly one was enqueued, delayed by 30 seconds when the
    state is named [stopping], [stop] or [shutdown] and by 5 seconds
    otherwise. *)
Theorem save_queues_follow_up (self self' : instance)
    (new require_etag : bool) (w w' : world S) :
  save enums self new require_etag w = (Ok (self', None), w') ->
  exists added,
    log w' = (log w ++ added)%list
    /\ (attrs self !! "state" = None ->
        List.filter is_queue_update added = [])
    /\ (forall state,
          attrs self !! "state" = Some state ->
          match needs_work enums state with
          | None => List.filter is_queue_update added = []
          | Some pending =>
              if mem state pending then
                exists n pk rk,
                  enum_name state = Ok n
                  /\ List.filter is_queue_update added =
                     [QueueUpdate (name (cls self)) pk rk None
                        (Some (if in_names n ["stopping"; "stop"; "shutdown"]
                               then 30 else 5))]
              else List.filter is_queue_update added = []
          end).
Proof.
  intros Hsave.
  destruct (save_success enums _ _ _ _ _ _ Hsave)
    as (row & etag & write & queued & _ & -> & Hwrite & Hq & Hlog).
  rewrite queue_delay_set_etag in Hq.
  eexists. split; [exact Hlog|].
  assert (List.filter is_queue_update
            (write :: queued ++ telemetry_part enums (set_etag self etag)
                   ++ event_part (set_etag self etag)) = queued) as ->.
  { simpl. destruct write; try discriminate; simpl;
      rewrite !List.filter_app, filter_telemetry_part, filter_event_part
        by done;
      rewrite !app_nil_r;
      (destruct (queue_delay enums self);
       [destruct Hq as (pk & rk & ->); done | by subst queued]). }
  unfold queue_delay in Hq. split.
  - intros Hstate. by rewrite Hstate in Hq.
  - intros state Hstate. rewrite Hstate in Hq.
    destruct state as [| | | | |c n v| | | |]; try done.
    simpl in *. destruct (needs_work_of enums c) as [pending|]; [|done].
    destruct (mem (PEnum c n v) pending); [|done].
    assert (exists pk rk, queued =
              [QueueUpdate (name (cls self)) pk rk None
                 (Some (if in_names n ["stopping"; "stop"; "shutdown"]
                        then 30 else 5))]) as (pk & rk & ->)
      by (destruct (in_names n _); exact Hq).
    by exists n, pk, rk.
Qed.

(** C9, as the code has it.  [delete] first pushes the dashboard event,
    once, when the event projection of the record is not empty, and
    nothing when it is empty; then, the keys being resolved, it issues
    the delete of the row.  A missing row is not an error; any other
    failure of the client leaves [delete] as it came. *)
Theorem delete_event_then_row (self : instance) (keys : val * val)
    (p r : string) (w : world S) :
  get_keys self = Ok keys ->
  resolve (fst keys) = Ok p ->
  resolve (snd keys) = Ok r ->
  let log' :=
    (log w
       ++ (if is_empty (event self) then []
           else [AddEvent (table_name (cls self)) (event self)])
       ++ [DeleteEntity (table_name (cls self)) p r])%list in
  delete self w =
  match delete_entity (table_name (cls self)) p r (store w) with
  | (Ok _, s1) => (Ok tt, {| store := s1; log := log' |})
  | (Raise e, s1) =>
      (if bool_decide (e = AzureMissingResourceHttpError) then Ok tt
       else Raise e,
       {| store := s1; log := log' |})
  end.
Proof.
  intros Hk Hp Hr. simpl.
  unfold delete. unfold bind at 1. rewrite event_as_needed_run.
  unfold event_part. rewrite Hk. unfold_m. rewrite Hp, Hr.
  destruct (delete_entity _ p r (store w)) as [[[]|e] s1]; simpl.
  - by rewrite <- app_assoc.
  - destruct (bool_decide _); by rewrite <- app_assoc.
Qed.

End SaveClaims.

(** ** The row that save builds *)

Lemma save_row_finish (self : instance) :
  save_row self =
  let? kf := get_key_fields (cls self) in finish_row kf (stored self).
Proof. reflexivity. Qed.

Lemma exported_lookup (self : instance) (f : string) :
  exported self !! f =
  match attrs self !! f with
  | Some v => if persisted (cls self) f v then Some (to_json true v) else None
  | None => None
  end.
Proof.
  unfold exported, raw, persisted. rewrite map_lookup_imap.
  destruct (attrs self !! f) as [v|]; simpl; [|done].
  destruct (save_exclude (cls self)) as [exc|]; simpl.
  - destruct (in_names f exc); simpl; [done|]. by destruct (is_none v).
  - by destruct (is_none v).
Qed.

Lemma restore_lookup (self : instance) (fs : list (string * field_info))
    (raw : gmap string val) (f : string) :
  fold_left (restore_datetime self) fs raw !! f =
  match raw !! f with
  | None => None
  | Some b =>
      if datetime_field fs f then Some (default b (attrs self !! f))
      else Some b
  end.
Proof.
  revert raw. induction fs as [|e fs IH]; intros raw; simpl.
  - by destruct (raw !! f).
  - rewrite IH. unfold restore_datetime.
    destruct (String.eqb (fst e) f) eqn:E.
    + apply String.eqb_eq in E. subst f.
      destruct (raw !! fst e) as [b|] eqn:Hb; [|by rewrite Hb].
      destruct (is_datetime (snd e)); simpl; [|by rewrite Hb].
      destruct (attrs self !! fst e) as [v|]; simpl.
      * rewrite lookup_insert_eq. by destruct (datetime_field fs (fst e)).
      * rewrite Hb. by destruct (datetime_field fs (fst e)).
    + apply String.eqb_neq in E. simpl.
      destruct (raw !! fst e) as [b|]; [|done].
      destruct (is_datetime (snd e)); [|done].
      destruct (attrs self !! fst e) as [v|]; [|done].
      by rewrite lookup_insert_ne.
Qed.

Lemma stored_lookup (self : instance) (f : string) :
  stored self !! f =
  match attrs self !! f with
  | Some v =>
      if persisted (cls self) f v then Some (stored_value (cls self) f v)
      else None
  | None => None
  end.
Proof.
  unfold stored, stored_value. rewrite restore_lookup, lookup_fmap.
  rewrite exported_lookup.
  destruct (attrs self !! f) as [v|]; simpl; [|done].
  destruct (persisted (cls self) f v); simpl; [|done].
  by destruct (datetime_field _ f).
Qed.

Lemma stored_agree (a b : instance) (f : string) :
  cls a = cls b -> attrs a !! f = attrs b !! f ->
  stored a !! f = stored b !! f.
Proof. intros Hc Hf. by rewrite !stored_lookup, Hc, Hf. Qed.

Lemma finish_row_ok (kf : string * option string) (raw r : gmap string val) :
  finish_row kf raw = Ok r <->
  exists pk pks rk rks,
    raw !! fst kf = Some pk /\ resolve pk = Ok pks
    /\ <["PartitionKey" := PStr Str pks]> raw !! or_field (snd kf) (fst kf)
       = Some rk
    /\ resolve rk = Ok rks
    /\ r = tidy kf (with_keys pks rks raw).
Proof.
  destruct kf as [pkf rkf]. unfold finish_row, getitem, delitem, tidy, with_keys.
  simpl. split.
  - destruct (raw !! pkf) as [pk|] eqn:Hpk; [|discriminate]. simpl.
    destruct (resolve pk) as [pks|] eqn:Hpks; [|discriminate]. simpl.
    destruct (<["PartitionKey":=PStr Str pks]> raw !! or_field rkf pkf)
      as [rk|] eqn:Hrk; [|discriminate]. simpl.
    destruct (resolve rk) as [rks|] eqn:Hrks; [|discriminate]. simpl.
    destruct (<["RowKey":=PStr Str rks]>
                (<["PartitionKey":=PStr Str pks]> raw) !! pkf);
      [|discriminate]. simpl.
    intros [= <-]. exists pk, pks, rk, rks. by destruct rkf.
  - intros (pk & pks & rk & rks & Hpk & Hpks & Hrk & Hrks & ->).
    rewrite Hpk. simpl. rewrite Hpks. simpl. rewrite Hrk. simpl.
    rewrite Hrks. simpl.
    assert (is_Some (<["RowKey":=PStr Str rks]>
                       (<["PartitionKey":=PStr Str pks]> raw) !! pkf)) as [x ->].
    { rewrite !lookup_insert. repeat case_decide; eauto. }
    simpl. by destruct rkf.
Qed.

Lemma tidy_store_key (kf : string * option string) (pks rks : string)
    (raw raw' : gmap string val) (k : string) :
  k = "PartitionKey" \/ k = "RowKey" ->
  tidy kf (with_keys pks rks raw) !! k = tidy kf (with_keys pks rks raw') !! k.
Proof.
  destruct kf as [pkf rkf]. unfold tidy, with_keys. simpl.
  intros [-> | ->]; destruct rkf as [f|];
    rewrite !lookup_delete, !lookup_insert; repeat case_decide;
    simplify_eq; done.
Qed.

Lemma tidy_key_fields (kf : string * option string) (raw : gmap string val) :
  tidy kf raw !! fst kf = None
  /\ (forall f, snd kf = Some f -> tidy kf raw !! f = None).
Proof.
  destruct kf as [pkf rkf]. unfold tidy. simpl. split.
  - destruct rkf as [f|]; rewrite !lookup_delete; repeat case_decide; done.
  - intros f ->. rewrite !lookup_delete; repeat case_decide; done.
Qed.

Lemma finish_row_keys (kf : string * option string)
    (raw raw' r : gmap string val) :
  raw !! fst kf = raw' !! fst kf ->
  raw !! or_field (snd kf) (fst kf) = raw' !! or_field (snd kf) (fst kf) ->
  finish_row kf raw = Ok r ->
  exists r',
    finish_row kf raw' = Ok r'
    /\ r !! "PartitionKey" = r' !! "PartitionKey"
    /\ r !! "RowKey" = r' !! "RowKey".
Proof.
  intros Hpk Hrk Hr.
  apply finish_row_ok in Hr
    as (pk & pks & rk & rks & Hpk1 & Hpks & Hrk1 & Hrks & ->).
  exists (tidy kf (with_keys pks rks raw')). split.
  - apply finish_row_ok. exists pk, pks, rk, rks.
    repeat split; [congruence | done | | done].
    rewrite lookup_insert in Hrk1 |- *. case_decide; [done | congruence].
  - split; apply tidy_store_key; auto.
Qed.

(** C3.  Two saves of records of one type that agree on the key fields
    hand the client rows with the same [PartitionKey] and the same
    [RowKey], whatever the other fields hold: when the first builds its
    row so does the second, both keys are the resolved texts of the key
    fields, and the domain key fields are in neither row. *)
Theorem save_keys_stable (a b : instance) (kf : string * option string)
    (ra : gmap string val) :
  cls a = cls b ->
  key_fields (cls a) = Some kf ->
  attrs a !! fst kf = attrs b !! fst kf ->
  (forall f, snd kf = Some f -> attrs a !! f = attrs b !! f) ->
  save_row a = Ok ra ->
  exists rb,
    save_row b = Ok rb
    /\ ra !! "PartitionKey" = rb !! "PartitionKey"
    /\ ra !! "RowKey" = rb !! "RowKey"
    /\ ra !! fst kf = None /\ rb !! fst kf = None
    /\ (forall f, snd kf = Some f -> ra !! f = None /\ rb !! f = None)
    /\ (exists pk pks rk rks,
          stored a !! fst kf = Some pk /\ resolve pk = Ok pks
          /\ resolve rk = Ok rks
          /\ ra = tidy kf (with_keys pks rks (stored a))
          /\ rb = tidy kf (with_keys pks rks (stored b))).
Proof.
  intros Hcls Hkf Hpk Hrk Ha.
  rewrite save_row_finish in Ha. rewrite save_row_finish.
  unfold get_key_fields in *. rewrite <- Hcls. rewrite Hkf in Ha |- *.
  simpl in Ha |- *.
  assert (stored a !! fst kf = stored b !! fst kf) as Hs1
    by (by apply stored_agree).
  assert (stored a !! or_field (snd kf) (fst kf)
          = stored b !! or_field (snd kf) (fst kf)) as Hs2.
  { apply stored_agree; [done|]. unfold or_field.
    destruct (snd kf) as [f|] eqn:E; [|done].
    destruct (String.eqb f EmptyString); [done | by apply Hrk]. }
  apply finish_row_ok in Ha
    as (pk & pks & rk & rks & Hpk1 & Hpks & Hrk1 & Hrks & ->).
  exists (tidy kf (with_keys pks rks (stored b))).
  split; [|split; [|split; [|split; [|split; [|split]]]]].
  - apply finish_row_ok. exists pk, pks, rk, rks.
    repeat split; [congruence | done | | done].
    rewrite lookup_insert in Hrk1 |- *. case_decide; [done | congruence].
  - apply tidy_store_key; auto.
  - apply tidy_store_key; auto.
  - apply (proj1 (tidy_key_fields kf _)).
  - apply (proj1 (tidy_key_fields kf _)).
  - intros f Hf. split; by apply (proj2 (tidy_key_fields kf _)).
  - exists pk, pks, rk, rks. repeat split; done.
Qed.

(** ** The reader reads what the printer writes *)

Lemma append_length (s t : string) :
  String.length (s ++ t) = (String.length s + String.length t)%nat.
Proof. induction s as [|c s IH]; [done|]. rewrite append_cons. simpl. lia. Qed.

(** *** Strings *)

Lemma read_string_cons (c : ascii) (s' : string) :
  read_string (String c s') =
  let n := nat_of_ascii c in
  if Nat.eqb n 34 then Some (EmptyString, s')
  else if Nat.ltb n 32 then None
  else if Nat.eqb n 92 then
    match s' with
    | String e s'' =>
        let m := nat_of_ascii e in
        let simple (x : nat) :=
          match read_string s'' with
          | Some (t, rest) => Some (String (ascii_of_nat x) t, rest)
          | None => None
          end in
        if Nat.eqb m 34 then simple 34%nat
        else if Nat.eqb m 92 then simple 92%nat
        else if Nat.eqb m 47 then simple 47%nat
        else if Nat.eqb m 110 then simple 10%nat
        else if Nat.eqb m 114 then simple 13%nat
        else if Nat.eqb m 116 then simple 9%nat
        else if Nat.eqb m 98 then simple 8%nat
        else if Nat.eqb m 102 then simple 12%nat
        else if Nat.eqb m 117 then
          match s'' with
          | String h1 (String h2 (String h3 (String h4 s3))) =>
              match hex_of h1, hex_of h2, hex_of h3, hex_of h4,
                    read_string s3 with
              | Some 0%nat, Some 0%nat, Some a, Some b, Some (t, rest) =>
                  Some (String (ascii_of_nat (16 * a + b)) t, rest)
              | _, _, _, _, _ => None
              end
          | _ => None
          end
        else None
    | EmptyString => None
    end
  else
    match read_string s' with
    | Some (t, rest) => Some (String c t, rest)
    | None => None
    end.
Proof. reflexivity. Qed.

Lemma read_string_char (c : ascii) (t : string) :
  read_string (escape_char c ++ t) =
  match read_string t with
  | Some (u, rest) => Some (String c u, rest)
  | None => None
  end.
Proof.
  destruct c as [[] [] [] [] [] [] [] []];
    cbv - [read_string]; rewrite read_string_cons; cbv - [read_string];
    destruct (read_string t) as [[u r]|]; reflexivity.
Qed.

Lemma read_string_escape (s rest : string) :
  read_string (escape s ++ String dquote rest) = Some (s, rest).
Proof.
  induction s as [|c s IH]; [reflexivity|].
  cbn [escape]. rewrite append_assoc, read_string_char. by rewrite IH.
Qed.

Lemma read_string_quote (s rest : string) :
  quote s ++ rest = String dquote (escape s ++ String dquote rest).
Proof. unfold quote. norm_str. reflexivity. Qed.

(** *** Numbers *)

Lemma read_digits_no_digit (s : string) :
  no_digit s -> read_digits s = ([], s).
Proof. destruct s as [|c s]; [done|]. simpl. by intros ->. Qed.

Lemma digit_of_char (k : N) :
  (k < 10)%N -> digit_of (pretty_N_char k) = Some (Z.of_N k).
Proof.
  intros Hk.
  assert (k = 0 \/ k = 1 \/ k = 2 \/ k = 3 \/ k = 4 \/ k = 5 \/ k = 6
          \/ k = 7 \/ k = 8 \/ k = 9)%N as H by lia.
  repeat destruct H as [-> | H]; try subst k; reflexivity.
Qed.

Lemma pretty_N_go_app (x : N) (s t : string) :
  pretty_N_go x s ++ t = pretty_N_go x (s ++ t).
Proof.
  revert s. induction (N.lt_wf_0 x) as [x _ IH]; intros s.
  assert (x = 0 \/ 0 < x)%N as [-> | Hx] by lia.
  - by rewrite !pretty_N_go_0.
  - rewrite (pretty_N_go_step x s), (pretty_N_go_step x (s ++ t)) by done.
    rewrite IH by (apply N.div_lt; lia). by rewrite append_cons.
Qed.

(** The digits that print [x], in front of what is read from [s]. *)
Lemma read_digits_pretty (x : N) (s : string) (ds : list Z) (rest : string) :
  read_digits s = (ds, rest) ->
  exists ds',
    read_digits (pretty_N_go x s) = ((ds' ++ ds)%list, rest)
    /\ (forall acc,
          fold_left (fun acc d => 10 * acc + d) ds' acc =
          acc * 10 ^ Z.of_nat (length ds') + Z.of_N x)
    /\ (x = 0%N -> ds' = [])
    /\ ((0 < x)%N -> exists d ds'', ds' = d :: ds'' /\ d <> 0).
Proof.
  revert s ds. induction (N.lt_wf_0 x) as [x _ IH]; intros s ds Hs.
  assert (x = 0 \/ 0 < x)%N as [-> | Hx] by lia.
  - exists []. rewrite pretty_N_go_0.
    split; [done|]. split; [intros acc; simpl; lia|]. split; [done | lia].
  - rewrite pretty_N_go_step by done.
    assert (x `mod` 10 < 10)%N as Hm by (apply N.mod_lt; lia).
    destruct (IH (x `div` 10)%N (N.div_lt x 10 Hx eq_refl)
                (String (pretty_N_char (x `mod` 10)) s)
                (Z.of_N (x `mod` 10) :: ds)) as (ds1 & Hr & Hf & H0 & Hpos).
    { simpl. by rewrite digit_of_char, Hs. }
    exists (ds1 ++ [Z.of_N (x `mod` 10)])%list. split; [|split; [|split]].
    + by rewrite <- app_assoc.
    + intros acc. rewrite fold_left_app, Hf. simpl.
      rewrite length_app. simpl.
      rewrite Nat2Z.inj_add, Z.pow_add_r by lia.
      pose proof (N.div_mod x 10 ltac:(lia)) as Hdm.
      assert (Z.of_N x = 10 * Z.of_N (x `div` 10) + Z.of_N (x `mod` 10))
        as -> by lia.
      change (10 ^ Z.of_nat 1) with 10. ring.
    + lia.
    + intros _. destruct (N.eq_0_gt_0_cases (x `div` 10)) as [Hd | Hd].
      * rewrite (H0 Hd). exists (Z.of_N (x `mod` 10)), []. split; [done|].
        pose proof (N.div_mod x 10 ltac:(lia)). lia.
      * destruct (Hpos Hd) as (d & ds'' & -> & Hne).
        exists d, (ds'' ++ [Z.of_N (x `mod` 10)])%list. by split.
Qed.

Lemma read_nat_pretty (x : N) (rest : string) :
  (0 < x)%N -> no_digit rest ->
  read_nat (pretty_N_go x "" ++ rest) = Some (Z.of_N x, rest).
Proof.
  intros Hx Hrest. rewrite pretty_N_go_app, append_nil_l.
  destruct (read_digits_pretty x rest [] rest (read_digits_no_digit _ Hrest))
    as (ds & Hr & Hf & _ & Hpos).
  destruct (Hpos Hx) as (d & ds' & -> & Hd).
  unfold read_nat. rewrite Hr, app_nil_r.
  specialize (Hf 0). rewrite Z.mul_0_l, Z.add_0_l in Hf. rewrite Hf.
  destruct d as [|p|p]; [done| |]; by destruct ds'.
Qed.

Lemma read_nat_zero (rest : string) :
  no_digit rest -> read_nat (String "0" rest) = Some (0, rest).
Proof.
  intros Hrest. unfold read_nat. simpl.
  by rewrite (read_digits_no_digit _ Hrest).
Qed.

(** The first character of a printed number. *)
Lemma pretty_N_go_head (x : N) (s : string) :
  (0 < x)%N ->
  exists k t, (k < 10)%N /\ pretty_N_go x s = String (pretty_N_char k) t.
Proof.
  revert s. induction (N.lt_wf_0 x) as [x _ IH]; intros s Hx.
  rewrite pretty_N_go_step by done.
  destruct (N.eq_0_gt_0_cases (x `div` 10)) as [-> | Hd].
  - rewrite pretty_N_go_0. exists (x `mod` 10)%N, s.
    split; [apply N.mod_lt; lia | done].
  - apply IH; [apply N.div_lt; lia | done].
Qed.

(** *** Values *)

Lemma starts_value_skip (s : string) :
  starts_value s -> skip_ws s = s.
Proof. intros (c & t & -> & Hws & _). simpl. by rewrite Hws. Qed.

Lemma pretty_pos (p : positive) : pretty (Z.pos p) = pretty_N_go (N.pos p) "".
Proof. reflexivity. Qed.

Lemma pretty_neg (p : positive) :
  pretty (Z.neg p) = String "-" (pretty_N_go (N.pos p) "").
Proof. reflexivity. Qed.

Lemma starts_value_digit (k : N) (t : string) :
  (k < 10)%N -> starts_value (String (pretty_N_char k) t).
Proof.
  intros Hk. exists (pretty_N_char k), t. split; [done|].
  assert (k = 0 \/ k = 1 \/ k = 2 \/ k = 3 \/ k = 4 \/ k = 5 \/ k = 6
          \/ k = 7 \/ k = 8 \/ k = 9)%N as H by lia.
  repeat destruct H as [-> | H]; try subst k; done.
Qed.

Lemma dumps_head (j : json) (rest : string) : starts_value (dumps j ++ rest).
Proof.
  destruct j as [|[]|[|p|p]|s|l|l]; cbn [dumps]; norm_str;
    try (eexists _, _; split; [reflexivity|done]).
  rewrite pretty_pos.
  destruct (pretty_N_go_head (N.pos p) "") as (k & t & Hk & ->); [done|].
  norm_str. by apply starts_value_digit.
Qed.

Lemma read_value_space (fuel : nat) (s : string) :
  read_value fuel (String " " s) = read_value fuel s.
Proof. by destruct fuel. Qed.

Lemma read_members_space (fuel : nat) (s : string) :
  read_members fuel (String " " s) = read_members fuel s.
Proof. by destruct fuel. Qed.

Lemma read_value_digit (fuel : nat) (k : N) (s : string) :
  (k < 10)%N ->
  read_value (S fuel) (String (pretty_N_char k) s) =
  tag JInt (read_nat (String (pretty_N_char k) s)).
Proof.
  intros Hk.
  assert (k = 0 \/ k = 1 \/ k = 2 \/ k = 3 \/ k = 4 \/ k = 5 \/ k = 6
          \/ k = 7 \/ k = 8 \/ k = 9)%N as H by lia.
  repeat destruct H as [-> | H]; try subst k; reflexivity.
Qed.

Lemma read_value_minus (fuel : nat) (s : string) :
  read_value (S fuel) (String "-" s) = tag (fun z => JInt (- z)) (read_nat s).
Proof. reflexivity. Qed.

Lemma read_value_quote (fuel : nat) (s : string) :
  read_value (S fuel) (String dquote s) = tag JStr (read_string s).
Proof. reflexivity. Qed.

Lemma read_value_list (fuel : nat) (s : string) :
  starts_value s ->
  read_value (S fuel) (String "[" s) = tag JList (read_items fuel s).
Proof.
  intros Hs. pose proof (starts_value_skip s Hs) as Hskip.
  destruct Hs as (c & t & -> & _ & Hc & _).
  change (read_value (S fuel) (String "[" (String c t))) with
    (match skip_ws (String c t) with
     | String c' rest' =>
         if Ascii.eqb c' "]" then Some (JList [], rest')
         else tag JList (read_items fuel (String c t))
     | EmptyString => None
     end).
  by rewrite Hskip, Hc.
Qed.

Lemma read_value_dict (fuel : nat) (s : string) :
  starts_value s ->
  read_value (S fuel) (String "{" s) =
  tag (fun l => JDict (dict_of_pairs l)) (read_members fuel s).
Proof.
  intros Hs. pose proof (starts_value_skip s Hs) as Hskip.
  destruct Hs as (c & t & -> & _ & _ & Hc).
  change (read_value (S fuel) (String "{" (String c t))) with
    (match skip_ws (String c t) with
     | String c' rest' =>
         if Ascii.eqb c' "}" then Some (JDict [], rest')
         else tag (fun l => JDict (dict_of_pairs l))
                (read_members fuel (String c t))
     | EmptyString => None
     end).
  by rewrite Hskip, Hc.
Qed.

Lemma read_items_cons (fuel : nat) (s : string) :
  read_items (S fuel) s =
  match read_value fuel s with
  | Some (v, rest) =>
      match skip_ws rest with
      | String c rest' =>
          if Ascii.eqb c "," then tag (cons v) (read_items fuel rest')
          else if Ascii.eqb c "]" then Some ([v], rest')
          else None
      | EmptyString => None
      end
  | None => None
  end.
Proof. reflexivity. Qed.

Lemma read_members_cons (fuel : nat) (s : string) :
  read_members (S fuel) (String dquote s) =
  match read_string s with
  | Some (k, rest1) =>
      match skip_ws rest1 with
      | String c rest2 =>
          if Ascii.eqb c ":" then
            match read_value fuel rest2 with
            | Some (v, rest3) =>
                match skip_ws rest3 with
                | String c' rest4 =>
                    if Ascii.eqb c' "," then
                      tag (cons (k, v)) (read_members fuel rest4)
                    else if Ascii.eqb c' "}" then Some ([(k, v)], rest4)
                    else None
                | EmptyString => None
                end
            | None => None
            end
          else None
      | EmptyString => None
      end
  | None => None
  end.
Proof. reflexivity. Qed.

Lemma read_items_space (fuel : nat) (s : string) :
  read_items fuel (String " " s) = read_items fuel s.
Proof.
  destruct fuel; [done|]. by rewrite !read_items_cons, read_value_space.
Qed.

Lemma concat_cons2 (sep a b : string) (l : list string) :
  String.concat sep (a :: b :: l) = a ++ sep ++ String.concat sep (b :: l).
Proof. reflexivity. Qed.

Lemma read_items_dumps (l : list json) :
  Forall reads l -> l <> [] ->
  forall fuel rest,
    (fold_right (fun x n => S (weight x + n)) 0 l <= fuel)%nat ->
    read_items fuel (String.concat ", " (map dumps l) ++ String "]" rest)
    = Some (l, rest).
Proof.
  induction 1 as [|x l Hx Hl IH]; [done|]. intros _ fuel rest Hfuel.
  simpl in Hfuel. destruct fuel as [|fuel]; [lia|]. rewrite read_items_cons.
  destruct l as [|y l].
  - change (String.concat ", " (map dumps [x])) with (dumps x).
    rewrite Hx by (done || lia). reflexivity.
  - change (map dumps (x :: y :: l)) with (dumps x :: dumps y :: map dumps l).
    rewrite concat_cons2. norm_str.
    rewrite Hx by (done || lia).
    change (skip_ws (String "," (String " "
              (String.concat ", " (dumps y :: map dumps l) ++ String "]" rest))))
      with (String "," (String " "
              (String.concat ", " (dumps y :: map dumps l) ++ String "]" rest))).
    cbv iota beta.
    change (Ascii.eqb "," ",") with true. cbv iota.
    rewrite read_items_space.
    change (dumps y :: map dumps l) with (map dumps (y :: l)).
    rewrite IH; [done|done|lia].
Qed.

Lemma read_members_dumps (l : list (string * json)) :
  Forall (fun kv => reads (snd kv)) l -> l <> [] ->
  forall fuel rest,
    (fold_right (fun kv n => S (weight (snd kv) + n)) 0 l <= fuel)%nat ->
    read_members fuel (String.concat ", " (map member l) ++ String "}" rest)
    = Some (l, rest).
Proof.
  induction 1 as [|[k v] l Hx Hl IH]; [done|]. intros _ fuel rest Hfuel.
  simpl in Hfuel, Hx. destruct fuel as [|fuel]; [lia|].
  destruct l as [|y l].
  - change (String.concat ", " (map member [(k, v)])) with (member (k, v)).
    unfold member. cbn [fst snd]. rewrite !append_assoc, read_string_quote.
    rewrite read_members_cons, read_string_escape. norm_str.
    change (skip_ws (String ":" (String " " (dumps v ++ String "}" rest))))
      with (String ":" (String " " (dumps v ++ String "}" rest))).
    cbv iota beta. change (Ascii.eqb ":" ":") with true. cbv iota.
    rewrite read_value_space, Hx by (done || lia). reflexivity.
  - change (map member ((k, v) :: y :: l))
      with (member (k, v) :: member y :: map member l).
    rewrite concat_cons2. unfold member at 1. cbn [fst snd].
    rewrite !append_assoc, read_string_quote.
    rewrite read_members_cons, read_string_escape. norm_str.
    match goal with
    | |- context [skip_ws (String ":" (String " " ?t))] =>
        change (skip_ws (String ":" (String " " t)))
          with (String ":" (String " " t))
    end.
    cbv iota beta. change (Ascii.eqb ":" ":") with true. cbv iota.
    rewrite read_value_space, Hx by (done || lia).
    match goal with
    | |- context [skip_ws (String "," (String " " ?t))] =>
        change (skip_ws (String "," (String " " t)))
          with (String "," (String " " t))
    end.
    cbv iota beta. change (Ascii.eqb "," ",") with true. cbv iota.
    rewrite read_members_space.
    change (member y :: map member l) with (map member (y :: l)).
    rewrite IH; [done|done|lia].
Qed.

Lemma concat_head {A} (f : A -> string) (l : list A) (t : string) :
  l <> [] -> (forall x u, starts_value (f x ++ u)) ->
  starts_value (String.concat ", " (map f l) ++ t).
Proof.
  intros Hl Hf. destruct l as [|x [|y l]]; [done| |].
  - apply Hf.
  - change (map f (x :: y :: l)) with (f x :: f y :: map f l).
    rewrite concat_cons2, append_assoc. apply Hf.
Qed.

Lemma member_head (kv : string * json) (u : string) :
  starts_value (member kv ++ u).
Proof.
  unfold member. rewrite append_assoc, read_string_quote.
  eexists _, _. split; [reflexivity|done].
Qed.

(** *** Dictionaries *)

Lemma assoc_set_fresh {A} (k : string) (v : A) (d : list (string * A)) :
  ~ In k (map fst d) -> assoc_set k v d = (d ++ [(k, v)])%list.
Proof.
  induction d as [|[k' v'] d IH]; [done|]. simpl. intros Hk.
  destruct (String.eqb_spec k' k) as [->|Hne]; [tauto|].
  rewrite IH; [done | tauto].
Qed.

Lemma dict_of_pairs_app {A} (l acc : list (string * A)) :
  NoDup (map fst (acc ++ l)%list) ->
  fold_left (fun d kv => assoc_set (fst kv) (snd kv) d) l acc
  = (acc ++ l)%list.
Proof.
  revert acc. induction l as [|[k v] l IH]; intros acc Hnd; simpl.
  - by rewrite app_nil_r.
  - rewrite assoc_set_fresh.
    + rewrite IH; rewrite <- app_assoc; done.
    + rewrite map_app in Hnd. apply NoDup_app in Hnd as (_ & Hdisj & _).
      intros Hin. apply (Hdisj k); [by apply list_elem_of_In|]. simpl. left.
Qed.

Lemma dict_of_pairs_distinct {A} (l : list (string * A)) :
  NoDup (map fst l) -> dict_of_pairs l = l.
Proof. intros H. unfold dict_of_pairs. by rewrite dict_of_pairs_app. Qed.

Lemma read_value_dumps (j : json) : distinct j = true -> reads j.
Proof.
  induction j as [|b|z|s|l IH|l IH] using json_nested_ind;
    intros Hd fuel rest Hfuel Hrest;
    (destruct fuel as [|fuel]; [simpl in Hfuel; lia|]).
  - reflexivity.
  - by destruct b.
  - destruct z as [|p|p].
    + change (dumps (JInt 0) ++ rest) with (String "0" rest).
      rewrite (read_value_digit fuel 0) by done.
      change (pretty_N_char 0) with "0"%char. by rewrite read_nat_zero.
    + cbn [dumps]. rewrite pretty_pos.
      destruct (pretty_N_go_head (N.pos p) "") as (k & t & Hk & Hhead);
        [done|].
      rewrite Hhead, append_cons, read_value_digit by done.
      rewrite <- append_cons, <- Hhead, read_nat_pretty by done. reflexivity.
    + cbn [dumps]. rewrite pretty_neg, append_cons, read_value_minus.
      rewrite read_nat_pretty by done. reflexivity.
  - cbn [dumps]. rewrite read_string_quote, read_value_quote.
    by rewrite read_string_escape.
  - cbn [dumps distinct] in *. norm_str. destruct l as [|x l].
    + reflexivity.
    + rewrite read_value_list
        by (apply concat_head; [done | apply dumps_head]).
      rewrite read_items_dumps; [done| |done|simpl in *; lia].
      apply List.Forall_forall. intros y Hy.
      rewrite List.Forall_forall in IH. rewrite forallb_forall in Hd.
      by apply IH, Hd.
  - cbn [dumps distinct] in *. norm_str. destruct l as [|x l].
    + reflexivity.
    + apply andb_prop in Hd as [Hnd Hd]. apply bool_decide_eq_true in Hnd.
      rewrite read_value_dict
        by (apply (concat_head member); [done | apply member_head]).
      change (map (fun kv => quote (fst kv) ++ ": " ++ dumps (snd kv)) (x :: l))
        with (map member (x :: l)).
      rewrite read_members_dumps; [|  |done|simpl in *; lia].
      * cbn [tag]. by rewrite dict_of_pairs_distinct.
      * apply List.Forall_forall. intros y Hy.
        rewrite List.Forall_forall in IH. rewrite forallb_forall in Hd.
        by apply IH, Hd.
Qed.

Lemma append_nil_r (s : string) : s ++ EmptyString = s.
Proof. induction s as [|c s IH]; [done|]. by rewrite append_cons, IH. Qed.

Lemma concat_length_bound {A} (f : A -> string) (w : A -> nat) (l : list A) :
  Forall (fun x => (w x <= String.length (f x))%nat) l ->
  (fold_right (fun x n => S (w x + n)) 0 l
   <= String.length (String.concat ", " (map f l)) + 1)%nat.
Proof.
  induction 1 as [|x l Hx Hl IH]; [simpl; lia|].
  destruct l as [|y l].
  - simpl in *. lia.
  - change (map f (x :: y :: l)) with (f x :: f y :: map f l).
    rewrite concat_cons2, !append_length.
    change (map f (y :: l)) with (f y :: map f l) in IH.
    cbn [fold_right] in *. simpl (String.length ", "). lia.
Qed.

Lemma weight_length (j : json) : (weight j <= String.length (dumps j))%nat.
Proof.
  induction j as [|b|z|s|l IH|l IH] using json_nested_ind.
  - simpl. lia.
  - destruct b; simpl; lia.
  - cbn [weight dumps]. destruct z as [|p|p].
    + simpl. lia.
    + rewrite pretty_pos.
      destruct (pretty_N_go_head (N.pos p) "") as (k & t & _ & ->); [done|].
      simpl. lia.
    + rewrite pretty_neg. simpl. lia.
  - simpl. lia.
  - cbn [weight dumps]. rewrite append_cons, append_nil_l. cbn [String.length].
    rewrite append_length. simpl (String.length "]").
    pose proof (concat_length_bound dumps weight l IH). lia.
  - cbn [weight dumps]. rewrite append_cons, append_nil_l. cbn [String.length].
    rewrite append_length. simpl (String.length "}").
    pose proof (concat_length_bound
                  (fun kv => quote (fst kv) ++ ": " ++ dumps (snd kv))
                  (fun kv => weight (snd kv)) l) as H.
    assert (Forall
              (fun x : string * json =>
                 (weight (snd x)
                  <= String.length (quote (fst x) ++ ": " ++ dumps (snd x)))%nat)
              l) as Hall.
    { eapply Forall_impl; [exact IH|]. intros [k v] Hv. simpl in *.
      rewrite !append_length. lia. }
    specialize (H Hall). lia.
Qed.

(** The printer and the reader are inverse on the values whose
    dictionaries hold each key once. *)
Lemma loads_dumps (j : json) : distinct j = true -> loads (dumps j) = Some j.
Proof.
  intros Hd. unfold loads.
  rewrite <- (append_nil_r (dumps j)) at 2.
  rewrite (read_value_dumps j Hd); [done| |done].
  pose proof (weight_length j). lia.
Qed.

(** ** Loading a saved row *)

Lemma blob_primitive (j : json) : is_primitive j = true -> blob j = of_json j.
Proof. by destruct j. Qed.

Lemma blob_structured (j : json) :
  is_primitive j = false -> blob j = PStr Str (dumps j).
Proof. by destruct j. Qed.

Lemma decodes_field_notin (fs : list (string * field_info)) (f : string) :
  f ∉ fs.*1 -> decodes_field fs f = false.
Proof.
  induction fs as [|e fs IH]; simpl; intros Hf; [done|].
  apply not_elem_of_cons in Hf as [Hne Hf].
  rewrite (IH Hf), orb_false_r.
  assert (String.eqb (fst e) f = false) as -> by (apply String.eqb_neq; congruence).
  done.
Qed.

(** The loop of [load] over the declared fields, when every text it
    decodes is well formed. *)
Lemma rfold_load_fields (fs : list (string * field_info)) :
  NoDup fs.*1 ->
  forall data : gmap string val,
    (forall f info v,
       (f, info) ∈ fs -> data !! f = Some v ->
       decodes (param_annotation info) = true ->
       exists j, json_loads v = Ok j) ->
    exists d,
      rfold load_field fs data = Ok d
      /\ forall k,
           d !! k =
           (fun v => if decodes_field fs k then decoded v else v)
             <$> data !! k.
Proof.
  induction fs as [|e fs IH]; intros Hnd data Hok.
  - exists data. split; [done|]. intros k. simpl. by destruct (data !! k).
  - apply NoDup_cons in Hnd as [Hnotin Hnd]. simpl in Hnotin.
    cbn [rfold]. unfold load_field at 1.
    destruct (data !! fst e) as [v|] eqn:Hv.
    + destruct (decodes (param_annotation (snd e))) eqn:Hdec.
      * destruct (Hok (fst e) (snd e) v) as [j Hj];
          [destruct e; apply elem_of_cons; by left | done | done |].
        rewrite Hj. simpl.
        destruct (IH Hnd (<[fst e := of_json j]> data)) as (d & Hd & Hlook).
        { intros f info v' Hin Hf Hdec'.
          assert (f <> fst e) as Hne.
          { intros ->. apply Hnotin. apply list_elem_of_fmap.
            by exists (fst e, info). }
          rewrite lookup_insert_ne in Hf by done.
          apply (Hok f info v'); [apply elem_of_cons; by right | done..]. }
        exists d. split; [done|]. intros k. rewrite Hlook. simpl.
        destruct (String.eqb (fst e) k) eqn:E.
        -- apply String.eqb_eq in E. subst k.
           rewrite lookup_insert_eq, Hv. simpl.
           rewrite (decodes_field_notin fs (fst e) Hnotin), Hdec. simpl.
           unfold decoded. by rewrite Hj.
        -- apply String.eqb_neq in E. by rewrite lookup_insert_ne.
      * simpl. destruct (IH Hnd data) as (d & Hd & Hlook).
        { intros f info v' Hin. apply Hok. apply elem_of_cons. by right. }
        exists d. split; [done|]. intros k. rewrite Hlook. simpl.
        destruct (String.eqb (fst e) k) eqn:E; [|done].
        apply String.eqb_eq in E. subst k.
        by rewrite Hdec.
    + simpl. destruct (IH Hnd data) as (d & Hd & Hlook).
      { intros f info v' Hin. apply Hok. apply elem_of_cons. by right. }
      exists d. split; [done|]. intros k. rewrite Hlook. simpl.
      destruct (String.eqb (fst e) k) eqn:E; [|done].
      apply String.eqb_eq in E. subst k. by rewrite Hv.
Qed.

Lemma decodes_field_in (fs : list (string * field_info)) (f : string)
    (info : field_info) :
  (f, info) ∈ fs -> decodes (param_annotation info) = true ->
  decodes_field fs f = true.
Proof.
  intros Hin Hdec. unfold decodes_field. apply existsb_exists.
  exists (f, info). split; [by apply list_elem_of_In|].
  simpl. by rewrite String.eqb_refl, Hdec.
Qed.

Lemma store_column_false (f : string) :
  store_column f = false ->
  f <> "PartitionKey" /\ f <> "RowKey" /\ f <> "Timestamp".
Proof.
  unfold store_column, in_names. simpl. rewrite !orb_false_iff.
  rewrite !String.eqb_neq. tauto.
Qed.

Lemma saved_row_lookup (kf : string * option string) (pks rks : string)
    (st : gmap string val) (k : string) :
  plain_key_names kf ->
  tidy kf (with_keys pks rks st) !! k =
  if bool_decide (k = fst kf) || bool_decide (snd kf = Some k)
     || String.eqb k "Timestamp"
  then None
  else if String.eqb k "PartitionKey" then Some (PStr Str pks)
  else if String.eqb k "RowKey" then Some (PStr Str rks)
  else st !! k.
Proof.
  destruct kf as [pkf rkf]. intros [Hp Hr]. simpl in *.
  apply store_column_false in Hp as (Hp1 & Hp2 & Hp3).
  unfold tidy, with_keys. simpl.
  destruct rkf as [f|].
  - destruct (Hr f eq_refl) as (Hc & Hf1 & Hf2).
    apply store_column_false in Hc as (Hc1 & Hc2 & Hc3).
    rewrite !lookup_delete, !lookup_insert.
    repeat case_bool_decide; repeat case_decide; simplify_eq; simpl;
      try done;
      repeat (match goal with
              | |- context [String.eqb ?a ?b] =>
                  destruct (String.eqb_spec a b); simplify_eq
              end); done.
  - rewrite !lookup_delete, !lookup_insert.
    repeat case_bool_decide; repeat case_decide; simplify_eq; simpl;
      try done;
      repeat (match goal with
              | |- context [String.eqb ?a ?b] =>
                  destruct (String.eqb_spec a b); simplify_eq
              end); done.
Qed.

Lemma keyed_lookup (kf : string * option string) (pks rks : string)
    (st : gmap string val) (k : string) :
  plain_key_names kf ->
  keyed kf (PStr Str pks) (PStr Str rks) (tidy kf (with_keys pks rks st)) !! k =
  if bool_decide (snd kf = Some k) then Some (PStr Str rks)
  else if bool_decide (k = fst kf) then Some (PStr Str pks)
  else if store_column k then None
  else st !! k.
Proof.
  intros Hnames. pose proof (saved_row_lookup kf pks rks st k Hnames) as Hrow.
  destruct kf as [pkf rkf]. destruct Hnames as [Hp Hr]. simpl in *.
  apply store_column_false in Hp as (Hp1 & Hp2 & Hp3).
  unfold keyed. simpl. unfold store_column, in_names. simpl.
  destruct rkf as [f|].
  - destruct (Hr f eq_refl) as (Hc & Hf1 & Hf2).
    apply store_column_false in Hc as (Hc1 & Hc2 & Hc3).
    rewrite !lookup_delete, !lookup_insert, Hrow.
    repeat case_bool_decide; repeat case_decide; simplify_eq; simpl;
      try done;
      repeat (match goal with
              | |- context [String.eqb ?a ?b] =>
                  destruct (String.eqb_spec a b); simplify_eq
              end); done.
  - rewrite !lookup_delete, !lookup_insert, Hrow.
    repeat case_bool_decide; repeat case_decide; simplify_eq; simpl;
      try done;
      repeat (match goal with
              | |- context [String.eqb ?a ?b] =>
                  destruct (String.eqb_spec a b); simplify_eq
              end); done.
Qed.

Lemma load_data_saved (cls : model) (kf : string * option string)
    (pks rks : string) (st : gmap string val) :
  key_fields cls = Some kf ->
  plain_key_names kf ->
  load_data cls (tidy kf (with_keys pks rks st)) =
  rfold load_field (fields cls)
    (keyed kf (PStr Str pks) (PStr Str rks) (tidy kf (with_keys pks rks st))).
Proof.
  intros Hkf Hnames.
  pose proof (fun k => saved_row_lookup kf pks rks st k Hnames) as Hrow.
  unfold load_data, get_key_fields. rewrite Hkf. simpl.
  destruct kf as [pkf rkf]. simpl in *.
  unfold contains, getitem, delitem, keyed. simpl.
  destruct Hnames as [Hp Hr]. simpl in *.
  apply store_column_false in Hp as (Hp1 & Hp2 & Hp3).
  rewrite (Hrow pkf).
  rewrite bool_decide_eq_true_2 by done. simpl.
  destruct rkf as [f|].
  - destruct (Hr f eq_refl) as (Hc & Hf1 & Hf2).
    apply store_column_false in Hc as (Hc1 & Hc2 & Hc3).
    rewrite (Hrow f).
    rewrite (bool_decide_eq_true_2 (Some f = Some f)) by done.
    rewrite orb_true_r. simpl.
    rewrite (Hrow "PartitionKey").
    rewrite !bool_decide_eq_false_2 by congruence. simpl.
    rewrite lookup_insert_ne by done.
    rewrite (Hrow "RowKey").
    rewrite !bool_decide_eq_false_2 by congruence. simpl.
    rewrite !lookup_insert_ne by done.
    rewrite (Hrow "PartitionKey").
    rewrite !bool_decide_eq_false_2 by congruence. simpl.
    rewrite lookup_delete_ne by done.
    rewrite !lookup_insert_ne by done.
    rewrite (Hrow "RowKey").
    rewrite !bool_decide_eq_false_2 by congruence. simpl.
    reflexivity.
  - simpl.
    rewrite (Hrow "PartitionKey").
    rewrite !bool_decide_eq_false_2 by congruence. simpl.
    rewrite !lookup_insert_ne by done.
    rewrite (Hrow "PartitionKey").
    rewrite !bool_decide_eq_false_2 by congruence. simpl.
    rewrite lookup_delete_ne by done.
    rewrite !lookup_insert_ne by done.
    rewrite (Hrow "RowKey").
    rewrite !bool_decide_eq_false_2 by congruence. simpl.
    reflexivity.
Qed.

Lemma export_fields (b : bool) (l : list (string * val)) :
  (fix export (l : list (string * val)) : list (string * json) :=
     match l with
     | [] => []
     | kv :: l' =>
         if b && is_none (snd kv) then export l'
         else (fst kv, to_json b (snd kv)) :: export l'
     end) l
  = map (fun kv => (fst kv, to_json b (snd kv)))
      (List.filter (fun kv => negb (b && is_none (snd kv))) l).
Proof.
  induction l as [|kv l IH]; [done|]. simpl.
  destruct (b && is_none (snd kv)); simpl; by rewrite IH.
Qed.

Lemma NoDup_keys_filter {A} (p : string * A -> bool) (l : list (string * A)) :
  NoDup (map fst l) -> NoDup (map fst (List.filter p l)).
Proof.
  induction l as [|kv l IH]; [done|]. simpl. intros Hnd.
  apply NoDup_cons in Hnd as [Hnotin Hnd].
  destruct (p kv); simpl; [|by apply IH].
  apply NoDup_cons. split; [|by apply IH].
  intros Hin. apply Hnotin.
  apply list_elem_of_In in Hin. apply list_elem_of_In.
  apply in_map_iff in Hin as (x & Hx & Hin). apply in_map_iff.
  exists x. split; [done|]. by apply filter_In in Hin as [Hin _].
Qed.

(** The export of a value whose dictionaries hold each key once is such
    a value too. *)
Lemma to_json_distinct (b : bool) (v : val) :
  distinct_keys v = true -> distinct (to_json b v) = true.
Proof.
  induction v as [| | | | | c n v IH | | l IH | l IH | l IH]
    using val_nested_ind; try done.
  - cbn [distinct_keys to_json distinct]. intros Hd.
    apply forallb_forall. intros j Hj.
    apply in_map_iff in Hj as (x & <- & Hx).
    rewrite List.Forall_forall in IH. rewrite forallb_forall in Hd.
    by apply IH, Hd.
  - cbn [distinct_keys to_json distinct]. intros Hd.
    apply andb_prop in Hd as [Hnd Hd]. apply andb_true_intro. split.
    + rewrite map_map. simpl. exact Hnd.
    + apply forallb_forall. intros j Hj.
      apply in_map_iff in Hj as (x & <- & Hx). simpl.
      rewrite List.Forall_forall in IH. rewrite forallb_forall in Hd.
      by apply IH, Hd.
  - cbn [distinct_keys to_json]. rewrite export_fields. cbn [distinct].
    intros Hd. apply andb_prop in Hd as [Hnd Hd]. apply andb_true_intro.
    split.
    + rewrite map_map. simpl. apply bool_decide_eq_true.
      apply bool_decide_eq_true in Hnd. by apply NoDup_keys_filter.
    + apply forallb_forall. intros j Hj.
      apply in_map_iff in Hj as (x & <- & Hx). simpl.
      apply filter_In in Hx as [Hx _].
      rewrite List.Forall_forall in IH. rewrite forallb_forall in Hd.
      by apply IH, Hd.
Qed.

(** The text [save] writes for a structured value reads back to the
    export of the value. *)
Lemma holds_structure_loads (cls : model) (f : string) (v : val) :
  holds_structure cls f v = true ->
  json_loads (stored_value cls f v) = Ok (to_json true v).
Proof.
  unfold holds_structure, stored_value. intros H.
  apply andb_prop in H as [H Hk]. apply andb_prop in H as [Hd Hp].
  apply negb_true_iff in Hd, Hp.
  rewrite Hd, (blob_structured _ Hp). simpl.
  by rewrite (loads_dumps _ (to_json_distinct true v Hk)).
Qed.

Lemma read_back_value (cls : model) (f : string) (v : val) :
  (decodes_field (fields cls) f = true -> holds_structure cls f v = true) ->
  read_back cls f v = true ->
  (if decodes_field (fields cls) f then decoded (stored_value cls f v)
   else stored_value cls f v) = round_value cls f v.
Proof.
  intros Hs Hb. destruct (decodes_field (fields cls) f) eqn:Hdec.
  - specialize (Hs eq_refl). unfold decoded.
    rewrite (holds_structure_loads cls f v Hs).
    unfold holds_structure in Hs.
    apply andb_prop in Hs as [Hs _]. apply andb_prop in Hs as [Hd _].
    apply negb_true_iff in Hd. unfold round_value. by rewrite Hd.
  - unfold read_back in Hb. rewrite Hdec in Hb. simpl in Hb.
    unfold stored_value, round_value.
    destruct (datetime_field (fields cls) f); [done|].
    simpl in Hb. by apply blob_primitive.
Qed.

(** The dictionary that [load] builds from a saved row, field by
    field: the store keys under the key fields, and every other persisted
    field as [save] stored it, decoded where [load] decodes. *)
Lemma load_saved_fields (self : instance) (kf : string * option string)
    (row : gmap string val) :
  key_fields (cls self) = Some kf ->
  NoDup (fields (cls self)).*1 ->
  plain_key_names kf ->
  decodes_field (fields (cls self)) (fst kf) = false ->
  (forall f, snd kf = Some f -> decodes_field (fields (cls self)) f = false) ->
  (forall f v,
     attrs self !! f = Some v -> persisted (cls self) f v = true ->
     decodes_field (fields (cls self)) f = true ->
     holds_structure (cls self) f v = true) ->
  save_row self = Ok row ->
  exists d pks rks,
    load_data (cls self) row = Ok d
    /\ row !! "PartitionKey" = Some (PStr Str pks)
    /\ row !! "RowKey" = Some (PStr Str rks)
    /\ d !! fst kf = Some (PStr Str pks)
    /\ (exists pk,
          attrs self !! fst kf = Some pk
          /\ resolve (stored_value (cls self) (fst kf) pk) = Ok pks)
    /\ (forall f, snd kf = Some f ->
          d !! f = Some (PStr Str rks)
          /\ exists rk,
               attrs self !! f = Some rk
               /\ resolve (stored_value (cls self) f rk) = Ok rks)
    /\ (forall f,
          f <> fst kf -> snd kf <> Some f ->
          d !! f =
          if store_column f then None
          else match attrs self !! f with
               | Some v =>
                   if persisted (cls self) f v
                   then Some (if decodes_field (fields (cls self)) f
                              then decoded (stored_value (cls self) f v)
                              else stored_value (cls self) f v)
                   else None
               | None => None
               end)
    /\ (forall f,
          f <> fst kf -> snd kf <> Some f -> store_column f = false ->
          row !! f = stored self !! f).
Proof.
  intros Hkf Hnd Hnames Hdpk Hdrk Hst Hrow.
  rewrite save_row_finish in Hrow. unfold get_key_fields in Hrow.
  rewrite Hkf in Hrow. simpl in Hrow.
  apply finish_row_ok in Hrow
    as (pk & pks & rk & rks & Hpk & Hpks & Hrk & Hrks & ->).
  pose proof (keyed_lookup kf pks rks (stored self)) as Hkeyed.
  pose proof (fun k => saved_row_lookup kf pks rks (stored self) k Hnames)
    as Hsaved.
  destruct (rfold_load_fields (fields (cls self)) Hnd
              (keyed kf (PStr Str pks) (PStr Str rks)
                 (tidy kf (with_keys pks rks (stored self)))))
    as (d & Hd & Hlook).
  { intros f info v Hin Hf Hdec.
    pose proof (decodes_field_in _ _ _ Hin Hdec) as Hdf.
    rewrite Hkeyed in Hf by done.
    case_bool_decide as E1; [by rewrite (Hdrk f) in Hdf|].
    case_bool_decide as E2; [subst f; by rewrite Hdpk in Hdf|].
    destruct (store_column f) eqn:Hsc; [discriminate|].
    rewrite stored_lookup in Hf.
    destruct (attrs self !! f) as [v0|] eqn:Hv0; [|discriminate].
    destruct (persisted (cls self) f v0) eqn:Hp; [|discriminate].
    injection Hf as <-. exists (to_json true v0).
    apply holds_structure_loads. by apply (Hst f v0). }
  rewrite <- (load_data_saved (cls self) kf pks rks (stored self) Hkf Hnames)
    in Hd.
  pose proof Hnames as [Hp Hr].
  pose proof (store_column_false _ Hp) as (Hp1 & Hp2 & Hp3).
  rewrite stored_lookup in Hpk.
  destruct (attrs self !! fst kf) as [pkv|] eqn:Hpkv; [|discriminate].
  destruct (persisted (cls self) (fst kf) pkv); [|discriminate].
  injection Hpk as <-.
  exists d, pks, rks. split; [done|].
  split; [|split; [|split; [|split; [|split; [|split]]]]].
  - rewrite Hsaved. simpl.
    rewrite !bool_decide_eq_false_2; [done | | congruence].
    intros E. destruct (Hr _ E) as (Hc & _).
    by apply store_column_false in Hc as (? & _).
  - rewrite Hsaved. simpl.
    rewrite !bool_decide_eq_false_2; [done | | congruence].
    intros E. destruct (Hr _ E) as (Hc & _).
    by apply store_column_false in Hc as (? & ? & _).
  - rewrite Hlook, Hkeyed by done. rewrite Hdpk.
    rewrite bool_decide_eq_false_2.
    + by rewrite bool_decide_eq_true_2.
    + intros E. by destruct (Hr _ E) as (_ & _ & ?).
  - by exists pkv.
  - intros f Hf. split.
    + rewrite Hlook, Hkeyed by done.
      rewrite (Hdrk f Hf). by rewrite bool_decide_eq_true_2.
    + destruct (Hr f Hf) as (Hc & Hne & Hnpk).
      apply store_column_false in Hc as (Hc1 & _).
      unfold or_field in Hrk. rewrite Hf in Hrk.
      apply String.eqb_neq in Hne. rewrite Hne in Hrk.
      rewrite lookup_insert_ne in Hrk by done.
      rewrite stored_lookup in Hrk.
      destruct (attrs self !! f) as [rkv|]; [|discriminate].
      destruct (persisted (cls self) f rkv); [|discriminate].
      injection Hrk as <-. by exists rkv.
  - intros f Hf1 Hf2. rewrite Hlook, Hkeyed by done.
    rewrite !bool_decide_eq_false_2 by congruence.
    destruct (store_column f); [done|].
    rewrite stored_lookup.
    destruct (attrs self !! f) as [v|]; [|done].
    by destruct (persisted (cls self) f v).
  - intros f Hf1 Hf2 Hsc. rewrite Hsaved.
    rewrite !bool_decide_eq_false_2 by congruence.
    apply store_column_false in Hsc as (Hs1 & Hs2 & Hs3).
    apply String.eqb_neq in Hs1, Hs2, Hs3. by rewrite Hs1, Hs2, Hs3.
Qed.


(** X23.  A persisted field that holds a list, a dictionary or a model
    and that [load] does not decode, such as a field declared as a list,
    is stored as the text of its export, and [load] hands that same text
    to the validating constructor, not the structure. *)
Theorem load_undecoded_structure (self : instance)
    (kf : string * option string) (row : gmap string val)
    (f : string) (v : val) :
  key_fields (cls self) = Some kf ->
  NoDup (fields (cls self)).*1 ->
  plain_key_names kf ->
  decodes_field (fields (cls self)) (fst kf) = false ->
  (forall f, snd kf = Some f -> decodes_field (fields (cls self)) f = false) ->
  (forall f v,
     attrs self !! f = Some v -> persisted (cls self) f v = true ->
     decodes_field (fields (cls self)) f = true ->
     holds_structure (cls self) f v = true) ->
  save_row self = Ok row ->
  f <> fst kf -> snd kf <> Some f -> store_column f = false ->
  attrs self !! f = Some v -> persisted (cls self) f v = true ->
  read_back (cls self) f v = false ->
  exists d,
    load_data (cls self) row = Ok d
    /\ row !! f = Some (PStr Str (dumps (to_json true v)))
    /\ d !! f = Some (PStr Str (dumps (to_json true v)))
    /\ d !! f <> Some (of_json (to_json true v)).
Proof.
  intros Hkf Hnd Hnames Hdpk Hdrk Hst Hrow Hf1 Hf2 Hsc Hv Hper Hback.
  destruct (load_saved_fields self kf row Hkf Hnd Hnames Hdpk Hdrk Hst Hrow)
    as (d & pks & rks & Hd & _ & _ & _ & _ & _ & Hrest & Hsame).
  unfold read_back in Hback. apply orb_false_iff in Hback as [Hback Hprim].
  apply orb_false_iff in Hback as [Hdec Hdt].
  assert (stored_value (cls self) f v = PStr Str (dumps (to_json true v)))
    as Hsv.
  { unfold stored_value. rewrite Hdt. by apply blob_structured. }
  assert (d !! f = Some (PStr Str (dumps (to_json true v)))) as Hdf
    by (by rewrite (Hrest f Hf1 Hf2), Hsc, Hv, Hper, Hdec, Hsv).
  exists d. split; [done|]. split; [|split; [done|]].
  - by rewrite (Hsame f Hf1 Hf2 Hsc), stored_lookup, Hv, Hper, Hsv.
  - rewrite Hdf. intros [= Heq].
    destruct (to_json true v); simpl in Hprim, Heq; discriminate.
Qed.

(** ** The claims on the sample records *)

Lemma succeeded_run {A S} (p : result (A * option Error) * world S) :
  succeeded p = true -> exists a, p = (Ok (a, None), snd p).
Proof.
  unfold succeeded. destruct p as [[[a [e|]]|e] w]; simpl; try discriminate.
  intros _. by exists a.
Qed.

Lemma Ok_inj {A} (a b : A) : Ok a = Ok b -> a = b.
Proof. congruence. Qed.

Lemma Ok_inj_some {A} (a b : A) : Some a = Some b -> b = a.
Proof. congruence. Qed.

Lemma mem_insert_existing (table : string) (row : gmap string val)
    (s : MemStore.t) (k : string * string) :
  MemStore.keys_of row = Some k ->
  MemStore.etag_of table k s <> None ->
  MemStore.insert table row s = (Raise AzureConflictHttpError, s).
Proof.
  unfold MemStore.insert, MemStore.etag_of. intros -> H.
  destruct (MemStore.rows s !! (table, k.1, k.2)); [done|].
  by destruct H.
Qed.

Lemma mem_replace_stale (table : string) (row : gmap string val)
    (if_match : val) (s : MemStore.t) (k : string * string) (etag : string) :
  MemStore.keys_of row = Some k ->
  MemStore.etag_of table k s = Some etag ->
  Py.eqb if_match (PStr Str etag) = false ->
  MemStore.replace table row if_match s = (Raise (AzureHttpError 412), s).
Proof.
  unfold MemStore.replace, MemStore.etag_of. intros -> H Hne.
  destruct (MemStore.rows s !! (table, k.1, k.2)) as [[r e]|];
    [|discriminate].
  injection H as ->. by rewrite Hne.
Qed.

Import Sample.

Ltac task_row_tac :=
  rewrite save_row_finish;
  match goal with
  | |- context [get_key_fields ?c] =>
      change (get_key_fields c)
        with (Ok (A := string * option string) ("job_id", Some "task_id"))
  end;
  cbn [rbind]; apply finish_row_ok;
  exists (PStr Str job_text), job_text, (PStr Str tid_text), tid_text;
  (split; [vm_compute; reflexivity|]); (split; [reflexivity|]);
  (split; [vm_compute; reflexivity|]); split; reflexivity.

Lemma task_running_row :
  save_row (task "running" PNone) = Ok (task_row "running" PNone).
Proof. task_row_tac. Qed.

Lemma task_stopping_row :
  save_row (task "stopping" (PStr Str "W/3"))
  = Ok (task_row "stopping" (PStr Str "W/3")).
Proof. task_row_tac. Qed.

Lemma task_stale_row :
  save_row (task "running" (PStr Str "W/7"))
  = Ok (task_row "running" (PStr Str "W/7")).
Proof. task_row_tac. Qed.

Lemma first_save_runs :
  exists self',
    save enums (task "running" PNone) true false MemStore.start =
    (Ok (self', None), saved_once).
Proof. apply succeeded_run. vm_compute. reflexivity. Qed.

Lemma stopping_save_runs :
  exists self',
    save enums (task "stopping" PNone) true false MemStore.start =
    (Ok (self', None),
     snd (save enums (task "stopping" PNone) true false MemStore.start)).
Proof. apply succeeded_run. vm_compute. reflexivity. Qed.

(** C1: a conditional replace with a stale token leaves [save] as an
    exception, not as an error value. *)
Lemma save_stale_token_raises :
  MemStore.etag_of "Task" (job_text, tid_text) (store saved_once)
  = Some "W/0"
  /\ fst (save enums (task "running" (PStr Str "W/7")) false true saved_once)
     = Raise (AzureHttpError 412)
  /\ ~ (exists self' err,
          fst (save enums (task "running" (PStr Str "W/7")) false true
                 saved_once) = Ok (self', Some err)).
Proof.
  assert (fst (save enums (task "running" (PStr Str "W/7")) false true
                 saved_once) = Raise (AzureHttpError 412)) as H
    by (vm_compute; reflexivity).
  split; [vm_compute; reflexivity|].
  split; [exact H|]. intros (self' & err & H'). rewrite H in H'. discriminate.
Qed.

Lemma save_conflict_outcomes_witness :
  save_row (task "running" PNone) = Ok (task_row "running" PNone)
  /\ save enums (task "running" PNone) true false saved_once =
     (Ok (task "running" PNone,
          Some {| code := UNABLE_TO_CREATE; errors := ["row exists"] |}),
      {| store := store saved_once;
         log := (log saved_once
                 ++ [InsertEntity "Task" (task_row "running" PNone)])%list |})
  /\ save enums (task "running" (PStr Str "W/7")) false true saved_once =
     (Raise (AzureHttpError 412),
      {| store := store saved_once;
         log := (log saved_once
                 ++ [ReplaceEntity "Task"
                       (task_row "running" (PStr Str "W/7"))
                       (PStr Str "W/7")])%list |}).
Proof.
  split; [exact task_running_row|]. split.
  - apply (proj1 (save_conflict_outcomes enums (task "running" PNone)
                    (task_row "running" PNone) saved_once task_running_row)
             (store saved_once) false).
    apply (mem_insert_existing "Task" _ _ (job_text, tid_text)).
    + vm_compute. reflexivity.
    + vm_compute. discriminate.
  - apply (proj2 (save_conflict_outcomes enums
                    (task "running" (PStr Str "W/7"))
                    (task_row "running" (PStr Str "W/7")) saved_once
                    task_stale_row)
             (store saved_once) (PStr Str "W/7") (AzureHttpError 412)).
    + vm_compute. reflexivity.
    + reflexivity.
    + apply (mem_replace_stale "Task" _ _ _ (job_text, tid_text) "W/0").
      * vm_compute. reflexivity.
      * vm_compute. reflexivity.
      * reflexivity.
Defined.

(** A field that [save_exclude] names does not reach the row: two
    records that differ in it alone are saved as the same row. *)
Lemma save_row_excluded (self : instance) (exc : list string) (f : string)
    (v : val) :
  save_exclude (cls self) = Some exc -> In f exc ->
  save_row (with_attr self f v) = save_row self.
Proof.
  intros Hexc Hin. rewrite !save_row_finish.
  assert (stored (with_attr self f v) = stored self) as ->; [|done].
  apply map_eq. intros k. rewrite !stored_lookup. cbn [with_attr cls attrs].
  destruct (decide (k = f)) as [->|Hne].
  - rewrite lookup_insert_eq.
    assert (forall x, persisted (cls self) f x = false) as Hper.
    { intros x. unfold persisted. rewrite Hexc.
      by rewrite (proj2 (in_names_In f exc) Hin). }
    rewrite Hper. destruct (attrs self !! f) as [x|]; [by rewrite Hper | done].
  - by rewrite lookup_insert_ne.
Qed.

(** The validating constructor plays no part in [save]. *)
Lemma save_row_constructor (self : instance)
    (ctor : gmap string val -> result (gmap string val)) :
  save_row {| cls := with_constructor (cls self) ctor; attrs := attrs self |}
  = save_row self.
Proof. reflexivity. Qed.

Lemma typed_task_row :
  save_row (typed_task "running" PNone) = Ok (task_row "running" PNone).
Proof.
  rewrite <- task_running_row.
  exact (save_row_constructor (task "running" PNone) parse_task).
Qed.


Lemma task_structures :
  forall f v,
    attrs (task "running" PNone) !! f = Some v ->
    persisted Task f v = true ->
    decodes_field (fields Task) f = true ->
    holds_structure Task f v = true.
Proof.
  assert (map_Forall
            (fun f v =>
               persisted Task f v = true ->
               decodes_field (fields Task) f = true ->
               holds_structure Task f v = true)
            (attrs (task "running" PNone))) as H
    by (refine (bool_decide_unpack _ _); vm_compute; exact I).
  intros f v Hf. exact (H f v Hf).
Qed.


Lemma pool_structures :
  forall f v,
    attrs (pool "running") !! f = Some v ->
    persisted Pool f v = true ->
    decodes_field (fields Pool) f = true ->
    holds_structure Pool f v = true.
Proof.
  assert (map_Forall
            (fun f v =>
               persisted Pool f v = true ->
               decodes_field (fields Pool) f = true ->
               holds_structure Pool f v = true)
            (attrs (pool "running"))) as H
    by (refine (bool_decide_unpack _ _); vm_compute; exact I).
  intros f v Hf. exact (H f v Hf).
Qed.

Lemma load_undecoded_structure_witness :
  exists row d,
    save_row (pool "running") = Ok row
    /\ load_data Pool row = Ok d
    /\ row !! "tags" = Some (PStr Str (dumps (JList [JStr "nightly"])))
    /\ d !! "tags" = Some (PStr Str (dumps (JList [JStr "nightly"]))).
Proof.
  destruct (save_row (pool "running")) as [row|e] eqn:Hrow.
  - destruct (load_undecoded_structure (pool "running") ("name", None) row
                "tags" (PList [PStr Str "nightly"]))
      as (d & Hd & Hr & Hdf & _).
    + reflexivity.
    + refine (bool_decide_unpack _ _). vm_compute. exact I.
    + split; [reflexivity|]. intros f [=].
    + reflexivity.
    + intros f [=].
    + exact pool_structures.
    + exact Hrow.
    + intros [=].
    + intros [=].
    + reflexivity.
    + vm_compute. reflexivity.
    + reflexivity.
    + reflexivity.
    + exists row, d. split; [reflexivity|]. split; [exact Hd|].
      split; [exact Hr | exact Hdf].
  - exfalso.
    assert (match save_row (pool "running") with
            | Ok _ => true
            | Raise _ => false
            end = true) as Hok by (vm_compute; reflexivity).
    rewrite Hrow in Hok. discriminate.
Defined.

(** The reader on text outside the values of [json]: a number with a
    fraction is read by [json.loads] and has no value here, a number
    that ends with a point is refused. *)
Lemma json_loads_outside :
  json_loads (PStr Str "[1.5, 2e3]") = Raise Unmodelled
  /\ json_loads (PStr Str "[1., 2]") = Raise JSONDecodeError
  /\ json_loads (PInt 1) = Raise TypeError.
Proof. repeat split; vm_compute; reflexivity. Qed.

Lemma save_keys_stable_witness :
  save_row (task "running" PNone) = Ok (task_row "running" PNone)
  /\ exists rb,
       save_row (task "stopping" (PStr Str "W/3")) = Ok rb
       /\ task_row "running" PNone !! "PartitionKey" = rb !! "PartitionKey"
       /\ task_row "running" PNone !! "RowKey" = rb !! "RowKey"
       /\ rb !! "job_id" = None /\ rb !! "task_id" = None.
Proof.
  split; [exact task_running_row|].
  destruct (save_keys_stable (task "running" PNone)
              (task "stopping" (PStr Str "W/3"))
              ("job_id", Some "task_id") (task_row "running" PNone))
    as (rb & Hb & Hpk & Hrk & _ & Hj & Ht & _).
  - reflexivity.
  - reflexivity.
  - vm_compute. reflexivity.
  - intros f [= <-]. vm_compute. reflexivity.
  - exact task_running_row.
  - exists rb. split; [exact Hb|]. split; [exact Hpk|]. split; [exact Hrk|].
    split; [exact Hj|]. exact (proj2 (Ht "task_id" eq_refl)).
Defined.

(** C4: a list that starts with an integer, or with an enumeration
    member, and goes on with text makes the compiler raise. *)
Lemma build_filters_mixed_raises :
  build_filters Task (Some [("state", [PInt 1; PStr Str "running now"])])
  = Raise TypeError
  /\ build_filters Task
       (Some [("state", [TaskState "init"; PStr Str "running now"])])
     = Raise TypeError
  /\ ~ (exists compiled,
          build_filters Task
            (Some [("state", [PInt 1; PStr Str "running now"])])
          = Ok compiled).
Proof.
  assert (build_filters Task
            (Some [("state", [PInt 1; PStr Str "running now"])])
          = Raise TypeError) as H by (vm_compute; reflexivity).
  split; [exact H|]. split; [vm_compute; reflexivity|].
  intros (compiled & H'). rewrite H in H'. discriminate.
Qed.

Lemma build_filters_mixed_values_witness :
  key_fields Task = Some ("job_id", Some "task_id")
  /\ has_field Task "state" = true
  /\ build_filters Task
       (Some [("state", [PStr Str "running now"; PInt 1])])
     = Ok (None, {["state" := [PStr Str "running now"; PInt 1]]})
  /\ build_filters Task (Some [("state", [PInt 1; PStr Str "running now"])])
     = Raise TypeError.
Proof.
  split; [reflexivity|]. split; [reflexivity|]. split.
  - apply (proj1 (build_filters_mixed_values Task ("job_id", Some "task_id")
                    "state" (PStr Str "running now") [PInt 1]
                    eq_refl eq_refl));
      reflexivity.
  - apply (proj1 (proj2 (build_filters_mixed_values Task
                           ("job_id", Some "task_id")
                           "state" (PInt 1) [PStr Str "running now"]
                           eq_refl eq_refl)));
      reflexivity.
Defined.

Lemma build_filters_enum_pair_and_free_text_witness :
  key_fields Task = Some ("job_id", Some "task_id")
  /\ has_field Task "state" = true
  /\ has_field Task "error" = true
  /\ build_filters Task
       (Some [("state", [TaskState "init"; TaskState "running"])])
     = Ok (Some "(state eq 'init' or state eq 'running')", ∅)
  /\ build_filters Task (Some [("state", [PStr Str "contains space"])])
     = Ok (None, {["state" := [PStr Str "contains space"]]})
  /\ build_filters Task
       (Some [("state", [TaskState "init"; TaskState "running"]);
              ("error", [TaskState "stopping"])])
     = Ok (Some "(state eq 'init' or state eq 'running') and error eq 'stopping'",
           ∅).
Proof.
  split; [reflexivity|]. split; [reflexivity|]. split; [reflexivity|].
  destruct (build_filters_enum_pair_and_free_text Task
              ("job_id", Some "task_id") "state" "error"
              "TaskState" "init" "TaskState" "running" "TaskState" "stopping"
              (PStr Str "init") (PStr Str "running") (PStr Str "stopping")
              "contains space" eq_refl eq_refl eq_refl)
    as (Hpair & Htext & Hboth & _).
  split; [exact Hpair|]. split; [exact Htext | exact Hboth].
Defined.

Lemma post_filter_correct_witness :
  post_filter {["state" := PStr Str "running"]}
    (Some {["state" := [PStr Str "init"; PStr Str "running"]]}) = true
  /\ post_filter {["state" := PStr Str "running"]}
       (Some {["os" := [PStr Str "linux"]]}) = false.
Proof.
  destruct (post_filter_correct {["state" := PStr Str "running"]})
    as (Hiff & Hmiss & _).
  split.
  - apply Hiff. intros fs field allowed Hfs Hf.
    apply Ok_inj_some in Hfs. subst fs.
    apply lookup_singleton_Some in Hf as [<- <-].
    exists (PStr Str "running"). split; [apply lookup_singleton_eq|].
    apply Exists_cons_tl, Exists_cons_hd. reflexivity.
  - apply (Hmiss _ "os" [PStr Str "linux"]).
    + apply lookup_singleton_eq.
    + apply lookup_singleton_ne. discriminate.
Defined.

(** C7: a pool keeps the event filter of [ORMMixin], its projection is
    empty, and a save that succeeds pushes nothing to the dashboard. *)
Lemma save_empty_projection_no_event :
  succeeded (save enums (pool "running") false false MemStore.start) = true
  /\ List.filter is_add_event
       (log (snd (save enums (pool "running") false false MemStore.start)))
     = [].
Proof. split; vm_compute; reflexivity. Qed.

Lemma save_pushes_nonempty_projections_witness :
  exists self',
    save enums (task "running" PNone) true false MemStore.start =
      (Ok (self', None), saved_once)
    /\ exists added,
         log saved_once = (log MemStore.start ++ added)%list
         /\ List.filter is_add_event added =
            (if is_empty (event self') then []
             else [AddEvent (table_name (cls self')) (event self')])
         /\ List.filter is_track_event added =
            (if in_names (table_name (cls self'))
                  (TelemetryEvent_members enums)
                && negb (is_empty (telemetry self'))
             then [TrackEvent (table_name (cls self')) (telemetry self')]
             else [])
         /\ length (List.filter is_add_event (log saved_once)) = 1%nat.
Proof.
  destruct first_save_runs as [self' Hsave]. exists self'.
  split; [exact Hsave|].
  destruct (save_pushes_nonempty_projections enums _ _ _ _ _ _ Hsave)
    as (added & Hlog & Hadd & Htrack).
  exists added. split; [exact Hlog|]. split; [exact Hadd|].
  split; [exact Htrack|]. vm_compute. reflexivity.
Defined.

Lemma save_queues_follow_up_witness :
  (exists added,
     log saved_once = (log MemStore.start ++ added)%list
     /\ List.filter is_queue_update added = [])
  /\ (exists added pk rk,
        log (snd (save enums (task "stopping" PNone) true false
                    MemStore.start))
        = (log MemStore.start ++ added)%list
        /\ List.filter is_queue_update added =
           [QueueUpdate "Task" pk rk None (Some 30)]).
Proof.
  split.
  - destruct first_save_runs as [self' Hsave].
    destruct (save_queues_follow_up enums _ _ _ _ _ _ Hsave)
      as (added & Hlog & _ & Hstate).
    exists added. split; [exact Hlog|].
    assert (attrs (task "running" PNone) !! "state"
            = Some (TaskState "running")) as Hs by (vm_compute; reflexivity).
    exact (Hstate _ Hs).
  - destruct stopping_save_runs as [self' Hsave].
    destruct (save_queues_follow_up enums _ _ _ _ _ _ Hsave)
      as (added & Hlog & _ & Hstate).
    assert (attrs (task "stopping" PNone) !! "state"
            = Some (TaskState "stopping")) as Hs by (vm_compute; reflexivity).
    destruct (Hstate _ Hs) as (n & pk & rk & Hn & Hq).
    apply Ok_inj in Hn. subst n.
    exists added, pk, rk. split; [exact Hlog | exact Hq].
Defined.

(** C9: the delete of a pool, whose event projection is empty, pushes no
    event at all. *)
Lemma delete_empty_projection_no_event :
  fst (delete (pool "running") MemStore.start) = Ok tt
  /\ List.filter is_add_event
       (log (snd (delete (pool "running") MemStore.start))) = [].
Proof. split; vm_compute; reflexivity. Qed.

Lemma delete_event_then_row_witness :
  get_keys (task "running" PNone) = Ok (job, tid)
  /\ fst (delete (task "running" PNone) MemStore.start) = Ok tt
  /\ log (snd (delete (task "running" PNone) MemStore.start)) =
     [AddEvent "Task" (event (task "running" PNone));
      DeleteEntity "Task" job_text tid_text].
Proof.
  assert (get_keys (task "running" PNone) = Ok (job, tid)) as Hk
    by (vm_compute; reflexivity).
  split; [exact Hk|].
  rewrite (delete_event_then_row (task "running" PNone) (job, tid)
             job_text tid_text MemStore.start Hk eq_refl eq_refl).
  assert (is_empty (event (task "running" PNone)) = false) as ->
    by (vm_compute; reflexivity).
  split; reflexivity.
Defined.

Lemma get_falsy_row_key_witness :
  truthy (PInt 0) = false
  /\ truthy (PStr Str EmptyString) = false
  /\ resolve job = Ok job_text
  /\ log (snd (get Task job (PInt 0) MemStore.start)) =
     [GetEntity "Task" job_text job_text]
  /\ get Task job (PStr Str EmptyString) MemStore.start =
     get Task job PNone MemStore.start.
Proof.
  split; [reflexivity|]. split; [reflexivity|]. split; [reflexivity|]. split.
  - apply (proj2 (get_falsy_row_key Task job (PInt 0) job_text
                    MemStore.start eq_refl eq_refl)).
  - apply (proj1 (get_falsy_row_key Task job (PStr Str EmptyString) job_text
                    MemStore.start eq_refl eq_refl)).
Defined.

(** * Further properties *)

(** ** Key resolver *)

(** X1.  The resolver accepts exactly strings, UUIDs, enumeration members and
    integers, booleans among them, and rejects every other value with
    [NotImplementedError]; the text of an accepted key resolves to
    itself, so resolving twice changes nothing. *)
Theorem resolve_accepts_keys (key : val) :
  (is_str key || is_uuid key || is_enum key || is_int key = true ->
   exists s, resolve key = Ok s
             /\ forall c, resolve (PStr c s) = Ok s)
  /\ (is_str key || is_uuid key || is_enum key || is_int key = false ->
      resolve key = Raise NotImplementedError).
Proof.
  split; intros H; destruct key; simpl in H; try discriminate;
    try reflexivity; eexists; split; try reflexivity; intros; reflexivity.
Qed.

(** ** Filter compiler, the general case *)

Lemma rfold_step_undeclared cls kf (query : QueryFilter) acc :
  Exists (fun item => has_field cls (fst item) = false) query ->
  exists e, rfold (build_filters_step cls kf) query acc = Raise e.
Proof.
  intros H. revert acc. induction H as [[f vs] l Hx | [f vs] l _ IH];
    intros acc; simpl in *.
  - destruct acc as [parts post]. unfold build_filters_step.
    rewrite Hx. simpl. by exists ValueError.
  - destruct (build_filters_step cls kf acc (f, vs)) as [acc'|e]; simpl.
    + apply IH.
    + by exists e.
Qed.

(** X2.  A query that names a field the type does not declare never
    compiles, whatever the other fields are; when the undeclared field
    is the first of the query the compiler raises [ValueError]. *)
Theorem build_filters_unknown_field (cls : model) (query : QueryFilter) :
  Exists (fun item => has_field cls (fst item) = false) query ->
  (exists e, build_filters cls (Some query) = Raise e)
  /\ (forall kf f vs rest,
        key_fields cls = Some kf -> query = (f, vs) :: rest ->
        has_field cls f = false ->
        build_filters cls (Some query) = Raise ValueError).
Proof.
  intros H. split.
  - destruct query as [|item query]; [by apply Exists_nil in H|].
    unfold build_filters, get_key_fields.
    destruct (key_fields cls) as [kf|]; simpl; [|by exists NotImplementedError].
    destruct (rfold_step_undeclared cls kf (item :: query) ([], ∅) H)
      as [e He].
    simpl in He. rewrite He. by exists e.
  - intros kf f vs rest Hk -> Hf.
    unfold build_filters, get_key_fields. rewrite Hk. simpl.
    by rewrite Hf.
Qed.

Lemma rmap_int_clause_ok (column : string) (values : list val) :
  forallb is_int values = true ->
  rmap (int_clause column) values = Ok (map (clause column) values).
Proof.
  induction values as [|v values IH]; simpl; intros H; [done|].
  apply andb_prop in H as [Hv Hvs]. rewrite (IH Hvs).
  destruct v; try discriminate; reflexivity.
Qed.

Lemma rmap_enum_clause_ok (column : string) (values : list val) :
  forallb is_enum values = true ->
  rmap (enum_clause column) values = Ok (map (clause column) values).
Proof.
  induction values as [|v values IH]; simpl; intros H; [done|].
  apply andb_prop in H as [Hv Hvs]. rewrite (IH Hvs).
  destruct v; try discriminate; reflexivity.
Qed.

Lemma map_safe_clause (column : string) (values : list val) :
  forallb is_safe_string values = true ->
  map (safe_clause column) values = map (clause column) values.
Proof.
  induction values as [|v values IH]; simpl; intros H; [done|].
  apply andb_prop in H as [Hv Hvs]. rewrite (IH Hvs).
  destruct v as [| | |c s| | | | | |]; try discriminate; try reflexivity.
Qed.

Lemma is_safe_not_int_enum (v : val) :
  is_safe_string v = true -> is_int v = false /\ is_enum v = false.
Proof. destruct v; try discriminate; done. Qed.

Lemma is_int_not_enum (v : val) : is_int v = true -> is_enum v = false.
Proof. destruct v; try discriminate; done. Qed.

Lemma server_safe_cons (v0 : val) (values : list val) :
  server_safe (v0 :: values) = true ->
  (is_int v0 = true /\ forallb is_int (v0 :: values) = true)
  \/ (is_int v0 = false /\ is_enum v0 = true
      /\ forallb is_enum (v0 :: values) = true)
  \/ (is_int v0 = false /\ is_enum v0 = false
      /\ forallb is_safe_string (v0 :: values) = true).
Proof.
  unfold server_safe. cbn [forallb].
  destruct v0 as [| | |c s| | | | | |]; try destruct c; cbn;
    destruct (forallb is_int values), (forallb is_enum values),
      (forallb is_safe_string values);
    cbn; intros H; try discriminate; auto 10.
Qed.

(** A turn of the loop on a server-side list adds its group and leaves
    the residual filters alone. *)
Lemma build_filters_step_server cls kf parts post field values :
  has_field cls field = true ->
  values <> [] -> server_safe values = true ->
  build_filters_step cls kf (parts, post) (field, values) =
  Ok ((parts ++ [group kf (field, values)])%list, post).
Proof.
  intros Hf Hne Hs. unfold build_filters_step. rewrite Hf. simpl negb.
  cbv iota. destruct values as [|v0 values]; [done|].
  unfold group. simpl fst. simpl snd.
  set (column := store_field_name kf field).
  destruct (server_safe_cons v0 values Hs)
    as [(Hi & Hall) | [(Hi & He & Hall) | (Hi & He & Hall)]].
  - rewrite Hi. rewrite (rmap_int_clause_ok column _ Hall). reflexivity.
  - rewrite Hi, He. rewrite (rmap_enum_clause_ok column _ Hall). reflexivity.
  - rewrite Hi, He, Hall. rewrite (map_safe_clause column _ Hall).
    reflexivity.
Qed.

Lemma rfold_server cls kf (query : QueryFilter) parts post :
  Forall (fun item =>
            has_field cls (fst item) = true /\ snd item <> []
            /\ server_safe (snd item) = true) query ->
  rfold (build_filters_step cls kf) query (parts, post) =
  Ok ((parts ++ map (group kf) query)%list, post).
Proof.
  intros H. revert parts.
  induction H as [|[f vs] l (Hf & Hne & Hs) _ IH]; intros parts;
    cbn [rfold map].
  - by rewrite app_nil_r.
  - cbn [fst snd] in *.
    rewrite (build_filters_step_server cls kf parts post f vs) by done.
    cbn [rbind]. rewrite IH. by rewrite <- app_assoc.
Qed.

(** X3.  When every field of a query is declared and constrained to a
    non-empty list of integers only, of enumeration members only or of
    safe strings only, the query compiles to the groups of its fields in
    order, joined by [and], and leaves no residual filter. *)
Theorem build_filters_server_side (cls : model)
    (kf : string * option string) (query : QueryFilter) :
  key_fields cls = Some kf ->
  query <> [] ->
  Forall (fun item =>
            has_field cls (fst item) = true /\ snd item <> []
            /\ server_safe (snd item) = true) query ->
  build_filters cls (Some query) =
  Ok (Some (String.concat " and " (map (group kf) query)), ∅).
Proof.
  intros Hk Hne H. unfold build_filters, get_key_fields. rewrite Hk.
  destruct query as [|item query]; [done|].
  cbn [rbind]. rewrite (rfold_server cls kf (item :: query) [] ∅ H).
  simpl. reflexivity.
Qed.

(** A turn of the loop either leaves the residual filters as they are or
    adds the list of its own field under the store-side name. *)
Lemma build_filters_step_post cls kf acc item acc' :
  build_filters_step cls kf acc item = Ok acc' ->
  snd acc' = snd acc
  \/ (snd acc' = <[store_field_name kf (fst item) := snd item]> (snd acc)
      /\ snd item <> []
      /\ server_safe (snd item) = false).
Proof.
  destruct acc as [parts post], item as [field values].
  unfold build_filters_step.
  destruct (negb (has_field cls field)); [discriminate|].
  destruct values as [|v0 values]; [intros [= <-]; by left|].
  destruct (is_int v0) eqn:Hi.
  - destruct (rmap _ (v0 :: values)) as [ps|]; [|discriminate]. simpl.
    destruct ps; intros [= <-]; by left.
  - destruct (is_enum v0) eqn:He.
    + destruct (rmap _ (v0 :: values)) as [ps|]; [|discriminate]. simpl.
      destruct ps; intros [= <-]; by left.
    + destruct (forallb is_safe_string (v0 :: values)) eqn:Hs.
      * simpl. intros [= <-]. by left.
      * simpl. intros [= <-]. right. split; [done|]. split; [done|].
        unfold server_safe. simpl. rewrite Hi, He. simpl.
        simpl in Hs. exact Hs.
Qed.

Lemma rfold_post cls kf (query : QueryFilter) acc acc' :
  rfold (build_filters_step cls kf) query acc = Ok acc' ->
  forall column values,
    snd acc' !! column = Some values ->
    snd acc !! column = Some values
    \/ exists field,
         In (field, values) query
         /\ column = store_field_name kf field
         /\ values <> [] /\ server_safe values = false.
Proof.
  revert acc. induction query as [|item query IH]; intros acc; simpl.
  - intros [= <-]. auto.
  - destruct (build_filters_step cls kf acc item) as [acc1|] eqn:Hstep;
      [|discriminate].
    simpl. intros Hrest column values Hlook.
    destruct (IH acc1 Hrest column values Hlook) as [Hold | (field & Hin & H)].
    + destruct (build_filters_step_post cls kf acc item acc1 Hstep)
        as [Heq | (Heq & Hne & Hs)].
      * left. by rewrite <- Heq.
      * rewrite Heq in Hold.
        destruct (decide (store_field_name kf (fst item) = column)) as [E|E].
        -- subst column. rewrite lookup_insert_eq in Hold.
           injection Hold as <-. right. exists (fst item).
           split; [left; by destruct item|]. done.
        -- rewrite lookup_insert_ne in Hold by done. by left.
    + right. exists field. split; [by right | done].
Qed.

(** X4.  Every residual filter that the compiler returns comes from a field
    of the query: it is keyed by the store-side name of that field,
    holds the list the query gave for it, and that list is not one the
    compiler could have sent to the server. *)
Theorem build_filters_residual_origin (cls : model)
    (kf : string * option string) (query : QueryFilter)
    (expr : option string) (residual : gmap string (list val))
    (column : string) (values : list val) :
  key_fields cls = Some kf ->
  build_filters cls (Some query) = Ok (expr, residual) ->
  residual !! column = Some values ->
  exists field,
    In (field, values) query
    /\ column = store_field_name kf field
    /\ values <> [] /\ server_safe values = false.
Proof.
  intros Hk Hb Hlook. unfold build_filters, get_key_fields in Hb.
  rewrite Hk in Hb. destruct query as [|item query].
  - injection Hb as <- <-. by rewrite lookup_empty in Hlook.
  - cbn [rbind] in Hb.
    destruct (rfold (build_filters_step cls kf) (item :: query) ([], ∅))
      as [[parts post]|] eqn:Hr; [|discriminate].
    simpl in Hb.
    assert (post = residual) as -> by (destruct parts; congruence).
    destruct (rfold_post cls kf _ _ _ Hr column values Hlook) as [H|H];
      [|exact H].
    simpl in H. by rewrite lookup_empty in H.
Qed.

(** ** Post-filter: more filters, fewer rows *)

(** X5.  A row accepted under a set of residual filters is accepted under
    every subset of it. *)
Theorem post_filter_antitone (row : gmap string val)
    (fs fs' : gmap string (list val)) :
  fs ⊆ fs' ->
  post_filter row (Some fs') = true ->
  post_filter row (Some fs) = true.
Proof.
  intros Hsub H. apply post_filter_some. intros field allowed Hf.
  apply (proj1 (post_filter_some row fs') H field allowed).
  by apply (lookup_weaken fs fs').
Qed.

(** ** Keys on the write path and on the read path *)

Lemma resolve_export (v : val) :
  text_key v = true -> resolve (blob (to_json true v)) = resolve v.
Proof. destruct v; try discriminate; reflexivity. Qed.

Lemma stored_key (self : instance) (f : string) (pk : val) :
  stored self !! f = Some pk ->
  datetime_field (fields (cls self)) f = false ->
  exists v, attrs self !! f = Some v /\ pk = blob (to_json true v).
Proof.
  rewrite stored_lookup. intros H Hd.
  destruct (attrs self !! f) as [v|]; [|discriminate].
  destruct (persisted (cls self) f v); [|discriminate].
  unfold stored_value in H. rewrite Hd in H. injection H as <-. by exists v.
Qed.

Lemma saved_keys (self : instance)
    (kf : string * option string) (row : gmap string val) :
  key_fields (cls self) = Some kf ->
  plain_key_names kf ->
  datetime_field (fields (cls self)) (fst kf) = false ->
  (forall f, snd kf = Some f ->
             datetime_field (fields (cls self)) f = false) ->
  (forall v, attrs self !! fst kf = Some v -> text_key v = true) ->
  (forall f v, snd kf = Some f -> attrs self !! f = Some v ->
               text_key v = true) ->
  save_row self = Ok row ->
  exists keys p r,
    get_keys self = Ok keys
    /\ resolve (fst keys) = Ok p /\ resolve (snd keys) = Ok r
    /\ row !! "PartitionKey" = Some (PStr Str p)
    /\ row !! "RowKey" = Some (PStr Str r).
Proof.
  intros Hkf Hnames Hdp Hdr Htp Htr Hrow.
  rewrite save_row_finish in Hrow. unfold get_key_fields in Hrow.
  rewrite Hkf in Hrow. cbn [rbind] in Hrow.
  apply finish_row_ok in Hrow
    as (pk & pks & rk & rks & Hpk & Hpks & Hrk & Hrks & ->).
  pose proof (fun k => saved_row_lookup kf pks rks (stored self) k Hnames)
    as Hsaved.
  destruct (stored_key self _ pk Hpk Hdp) as (v & Hv & ->).
  rewrite (resolve_export v (Htp v Hv)) in Hpks.
  unfold get_keys, get_key_fields, getattr. rewrite Hkf. cbn [rbind].
  destruct kf as [pkf rkf]. destruct Hnames as [Hp Hr]. cbn [fst snd] in *.
  pose proof (store_column_false _ Hp) as (Hp1 & Hp2 & Hp3).
  rewrite Hv. cbn [rbind].
  assert (tidy (pkf, rkf) (with_keys pks rks (stored self)) !! "PartitionKey"
          = Some (PStr Str pks)) as HPK.
  { rewrite Hsaved. cbn [fst snd].
    rewrite !bool_decide_eq_false_2; [done | | congruence].
    intros E. destruct (Hr _ E) as (Hc & _).
    by apply store_column_false in Hc as (? & _). }
  assert (tidy (pkf, rkf) (with_keys pks rks (stored self)) !! "RowKey"
          = Some (PStr Str rks)) as HRK.
  { rewrite Hsaved. cbn [fst snd].
    rewrite !bool_decide_eq_false_2; [done | | congruence].
    intros E. destruct (Hr _ E) as (Hc & _).
    by apply store_column_false in Hc as (? & ? & _). }
  destruct rkf as [f|].
  - destruct (Hr f eq_refl) as (Hc & Hf1 & Hf2).
    pose proof (store_column_false _ Hc) as (Hc1 & Hc2 & Hc3).
    unfold or_field in Hrk.
    assert (String.eqb f EmptyString = false) as Hfe
      by (by apply String.eqb_neq).
    rewrite Hfe in Hrk |- *.
    rewrite lookup_insert_ne in Hrk by done.
    destruct (stored_key self _ rk Hrk (Hdr f eq_refl)) as (v' & Hv' & ->).
    rewrite (resolve_export v' (Htr f v' eq_refl Hv')) in Hrks.
    rewrite Hv'. cbn [rbind].
    exists (v, v'), pks, rks. done.
  - cbn [or_field] in Hrk. rewrite lookup_insert_ne in Hrk by done.
    rewrite Hpk in Hrk. injection Hrk as <-.
    rewrite (resolve_export v (Htp v Hv)) in Hrks.
    exists (v, v), pks, rks. done.
Qed.

(** X6.  When the partition key field holds an enumeration member, the
    row that [save] builds is filed under the text of the member's
    value, since [save] resolves the key after the export, while
    [get_keys] hands the member itself to [resolve], which gives its
    name: the path of [delete] and [queue] looks under the name. *)
Theorem resolve_after_export (self : instance) (kf : string * option string)
    (row : gmap string val) (c n : string) (value : val) :
  key_fields (cls self) = Some kf ->
  plain_key_names kf ->
  datetime_field (fields (cls self)) (fst kf) = false ->
  attrs self !! fst kf = Some (PEnum c n value) ->
  save_row self = Ok row ->
  exists keys text,
    get_keys self = Ok keys
    /\ fst keys = PEnum c n value
    /\ resolve (fst keys) = Ok n
    /\ resolve (blob (to_json true value)) = Ok text
    /\ row !! "PartitionKey" = Some (PStr Str text)
    /\ (forall cl s, value = PStr cl s -> text = s)
    /\ (forall z, value = PInt z -> text = pretty z).
Proof.
  intros Hkf Hnames Hdp Hv Hrow.
  rewrite save_row_finish in Hrow. unfold get_key_fields in Hrow.
  rewrite Hkf in Hrow. cbn [rbind] in Hrow.
  apply finish_row_ok in Hrow
    as (pk & pks & rk & rks & Hpk & Hpks & Hrk & Hrks & ->).
  pose proof (fun k => saved_row_lookup kf pks rks (stored self) k Hnames)
    as Hsaved.
  destruct (stored_key self _ pk Hpk Hdp) as (v & Hv' & ->).
  rewrite Hv in Hv'. injection Hv' as <-.
  change (to_json true (PEnum c n value)) with (to_json true value) in Hpks.
  assert (exists keys, get_keys self = Ok keys /\ fst keys = PEnum c n value)
    as (keys & Hkeys & Hfst).
  { unfold get_keys, get_key_fields, getattr. rewrite Hkf. cbn [rbind].
    destruct kf as [pkf rkf]. destruct Hnames as [Hp Hr]. cbn [fst snd] in *.
    rewrite Hv. cbn [rbind]. destruct rkf as [f|]; [|by eexists].
    destruct (Hr f eq_refl) as (Hc & Hf1 & Hf2).
    apply store_column_false in Hc as (Hc1 & _).
    apply String.eqb_neq in Hf1. rewrite Hf1.
    unfold or_field in Hrk. rewrite Hf1 in Hrk.
    rewrite lookup_insert_ne in Hrk by done.
    rewrite stored_lookup in Hrk.
    destruct (attrs self !! f) as [rkv|]; [|discriminate].
    cbn [rbind]. by eexists. }
  exists keys, pks. split; [done|]. split; [done|].
  split; [by rewrite Hfst|]. split; [done|]. split; [|split].
  - rewrite Hsaved. destruct Hnames as [Hp Hr].
    pose proof (store_column_false _ Hp) as (Hp1 & Hp2 & Hp3).
    rewrite !bool_decide_eq_false_2; [done | | congruence].
    intros E. destruct (Hr _ E) as (Hc & _).
    by apply store_column_false in Hc as (? & _).
  - intros cl s ->. simpl in Hpks. by injection Hpks.
  - intros z ->. simpl in Hpks. by injection Hpks.
Qed.

(** X7.  The row that [save] writes is filed under the keys that [delete] and
    [queue] compute from the record, when the key fields are named apart
    from the store columns, are not of type [datetime], and hold
    strings, UUIDs or integers. *)
Theorem saved_row_keys_match (self : instance)
    (kf : string * option string) (row : gmap string val) :
  key_fields (cls self) = Some kf ->
  plain_key_names kf ->
  datetime_field (fields (cls self)) (fst kf) = false ->
  (forall f, snd kf = Some f ->
             datetime_field (fields (cls self)) f = false) ->
  (forall v, attrs self !! fst kf = Some v -> text_key v = true) ->
  (forall f v, snd kf = Some f -> attrs self !! f = Some v ->
               text_key v = true) ->
  save_row self = Ok row ->
  exists keys p r,
    get_keys self = Ok keys
    /\ resolve (fst keys) = Ok p /\ resolve (snd keys) = Ok r
    /\ row !! "PartitionKey" = Some (PStr Str p)
    /\ row !! "RowKey" = Some (PStr Str r).
Proof. apply saved_keys. Qed.

(** ** The columns of a saved row *)

Lemma blob_column (j : json) : is_column_value (blob j) = true.
Proof. by destruct j. Qed.

Lemma tidied_lookup (kf : string * option string) (pks rks : string)
    (st : gmap string val) (f : string) (v : val) :
  tidy kf (with_keys pks rks st) !! f = Some v ->
  f <> "Timestamp" /\ f <> fst kf /\ snd kf <> Some f
  /\ ((f = "PartitionKey" /\ v = PStr Str pks)
      \/ (f = "RowKey" /\ v = PStr Str rks)
      \/ (f <> "PartitionKey" /\ f <> "RowKey" /\ st !! f = Some v)).
Proof.
  destruct kf as [pkf rkf]. unfold tidy, with_keys. cbn [fst snd].
  destruct rkf as [g|];
    rewrite !lookup_delete, !lookup_insert;
    repeat case_decide; simplify_eq; intros Hlook; simplify_eq;
    repeat split; try congruence; auto 10.
Qed.

(** X8.  A row that [save] hands to the client never has a [Timestamp] column
    nor the domain key fields; every column of a field that is not of
    type [datetime] is text, an integer or a boolean; and apart from the
    two store keys it has no column for an attribute that holds [None]
    or that the type excludes from saving. *)
Theorem saved_row_columns (self : instance) (kf : string * option string)
    (row : gmap string val) :
  key_fields (cls self) = Some kf ->
  save_row self = Ok row ->
  row !! "Timestamp" = None
  /\ row !! fst kf = None
  /\ (forall f v,
        row !! f = Some v ->
        datetime_field (fields (cls self)) f = false ->
        is_column_value v = true)
  /\ (forall f,
        f <> "PartitionKey" -> f <> "RowKey" ->
        attrs self !! f = None
        \/ attrs self !! f = Some PNone
        \/ (exists exc, save_exclude (cls self) = Some exc /\ In f exc) ->
        row !! f = None).
Proof.
  intros Hkf Hrow.
  rewrite save_row_finish in Hrow. unfold get_key_fields in Hrow.
  rewrite Hkf in Hrow. cbn [rbind] in Hrow.
  apply finish_row_ok in Hrow
    as (pk & pks & rk & rks & Hpk & Hpks & Hrk & Hrks & ->).
  split; [|split; [|split]].
  - destruct (tidy kf (with_keys pks rks (stored self)) !! "Timestamp")
      as [v|] eqn:E; [|done].
    apply tidied_lookup in E as (E & _). done.
  - apply (proj1 (tidy_key_fields kf _)).
  - intros f v Hf Hd.
    apply tidied_lookup in Hf
      as (_ & _ & _ & [[_ ->] | [[_ ->] | (_ & _ & Hst)]]); try done.
    destruct (stored_key self f v Hst Hd) as (v0 & _ & ->).
    apply blob_column.
  - intros f Hf1 Hf2 Hwhy.
    destruct (tidy kf (with_keys pks rks (stored self)) !! f)
      as [v|] eqn:E; [|done].
    apply tidied_lookup in E
      as (_ & _ & _ & [[? _] | [[? _] | (_ & _ & Hst)]]); try done.
    rewrite stored_lookup in Hst.
    destruct Hwhy as [Hn | [Hn | (exc & Hexc & Hin)]].
    + by rewrite Hn in Hst.
    + rewrite Hn in Hst. unfold persisted in Hst. simpl in Hst.
      by rewrite andb_false_r in Hst.
    + destruct (attrs self !! f) as [v0|]; [|done].
      unfold persisted in Hst. rewrite Hexc in Hst.
      apply in_names_In in Hin. rewrite Hin in Hst. done.
Qed.

(** ** The calls that save makes *)

Section MoreSaveFacts.

Context {S : Type} {client : TableClient S} (enums : Enums).

Lemma queue_as_needed_world (self : instance) (w : world S) :
  exists l,
    snd (_queue_as_needed enums self w) = extend w l
    /\ Forall (fun e => is_write e = false) l.
Proof.
  rewrite queue_as_needed_run.
  destruct (queue_delay enums self) as [d|].
  - destruct (queue_run enums self None (Some d) w)
      as [[e He] | (keys & pk & rk & _ & _ & _ & Hq)].
    + rewrite He. exists []. by rewrite extend_nil.
    + rewrite Hq. eexists. split; [reflexivity|]. by repeat constructor.
  - exists []. by rewrite extend_nil.
Qed.

Lemma save_write_call (self : instance) (new require_etag : bool)
    (row : gmap string val) (w : world S) :
  log (snd (save_write self new require_etag row w)) =
  (log w ++ [write_call self new require_etag row])%list
  /\ (forall tok w1,
        save_write self new require_etag row w = (Ok (inl tok), w1) ->
        exists s1,
          w1 = {| store := s1;
                  log := (log w ++ [write_call self new require_etag row])%list |}).
Proof.
  unfold save_write, write_call.
  destruct new; [|destruct (truthy _ && require_etag)]; unfold_m.
  - destruct (insert_entity _ row (store w)) as [[tok|e] s1]; simpl.
    + split; [done|]. intros tok' w1 [= <- <-]. by exists s1.
    + destruct (bool_decide _); simpl; (split; [done|]); intros; discriminate.
  - destruct (replace_entity _ row _ (store w)) as [[tok|e] s1]; simpl.
    + split; [done|]. intros tok' w1 [= <- <-]. by exists s1.
    + split; [done|]. intros; discriminate.
  - destruct (insert_or_replace_entity _ row (store w)) as [[tok|e] s1]; simpl.
    + split; [done|]. intros tok' w1 [= <- <-]. by exists s1.
    + split; [done|]. intros; discriminate.
Qed.

(** X9.  [save] makes exactly one call of the table client, whatever comes
    of it: an insert for a new record, a conditional replace when a
    token is required and the record has one, an upsert otherwise, and
    so also when a token is required of a record that has none.  When
    the row cannot be built, [save] raises before any call. *)
Theorem save_one_client_call (self : instance) (new require_etag : bool)
    (w : world S) :
  (forall row,
     save_row self = Ok row ->
     exists rest,
       log (snd (save enums self new require_etag w)) =
       (log w ++ write_call self new require_etag row :: rest)%list
       /\ Forall (fun e => is_write e = false) rest)
  /\ (forall e,
        save_row self = Raise e ->
        save enums self new require_etag w = (Raise e, w))
  /\ (forall row,
        new = false -> require_etag = true ->
        attrs self !! "etag" = None \/ attrs self !! "etag" = Some PNone ->
        write_call self new require_etag row =
        InsertOrReplaceEntity (table_name (cls self)) row).
Proof.
  split; [|split].
  - intros row Hrow. unfold save. unfold bind at 1. unfold lift.
    rewrite Hrow. unfold bind at 1.
    destruct (save_write_call self new require_etag row w) as [Hlog Hok].
    destruct (save_write self new require_etag row w)
      as [[[tok|err]|e] w1] eqn:Hw; simpl in Hlog.
    + destruct (Hok tok w1 eq_refl) as [s1 ->].
      unfold bind at 1.
      destruct (queue_as_needed_world (set_etag self tok)
                  {| store := s1;
                     log := (log w ++
                             [write_call self new require_etag row])%list |})
        as (l & Hq & Hl).
      destruct (_queue_as_needed enums (set_etag self tok) _)
        as [[[]|e] w2]; simpl in Hq; subst w2.
      * unfold bind at 1. rewrite telemetry_as_needed_run.
        unfold bind at 1. rewrite event_as_needed_run.
        unfold ret. simpl.
        exists (l ++ telemetry_part enums (set_etag self tok)
                  ++ event_part (set_etag self tok))%list.
        split; [by rewrite <- !app_assoc|].
        apply Forall_app. split; [exact Hl|]. apply Forall_app. split.
        -- unfold telemetry_part. destruct (_ && _); by repeat constructor.
        -- unfold event_part. destruct (is_empty _); by repeat constructor.
      * simpl. exists l. split; [by rewrite <- !app_assoc | exact Hl].
    + unfold ret. simpl. exists []. by rewrite Hlog.
    + simpl. exists []. by rewrite Hlog.
  - intros e Hrow. unfold save. unfold bind at 1. unfold lift.
    by rewrite Hrow.
  - intros row -> -> Hetag. unfold write_call.
    destruct Hetag as [-> | ->]; reflexivity.
Qed.

Lemma queue_not_update_type (self : instance) (method : option string)
    (timeout : option Z) (w : world S) :
  ~ In (name (cls self)) (UpdateType_members enums) ->
  queue enums self method timeout w = (Raise NotImplementedError, w).
Proof.
  intros Hn. unfold queue.
  destruct (negb (contains "state" (attrs self))); [done|].
  destruct (in_names (name (cls self)) (UpdateType_members enums)) eqn:E;
    [|done].
  apply in_names_In in E. done.
Qed.

(** X10.  [queue] enqueues one message carrying the resolved keys of the
    record, or raises and enqueues nothing; it raises
    [NotImplementedError] for a record without a [state] attribute and
    for a type that is not an update type. *)
Theorem queue_one_message_or_none (self : instance)
    (method : option string) (timeout : option Z) (w : world S) :
  ((exists e, queue enums self method timeout w = (Raise e, w))
   \/ (exists keys pk rk,
         get_keys self = Ok keys /\ resolve (fst keys) = Ok pk
         /\ resolve (snd keys) = Ok rk
         /\ queue enums self method timeout w =
            (Ok tt,
             extend w [QueueUpdate (name (cls self)) pk rk method timeout])))
  /\ (attrs self !! "state" = None ->
      queue enums self method timeout w = (Raise NotImplementedError, w))
  /\ (~ In (name (cls self)) (UpdateType_members enums) ->
      queue enums self method timeout w = (Raise NotImplementedError, w)).
Proof.
  split; [apply queue_run|]. split.
  - intros Hs. unfold queue, contains. by rewrite Hs.
  - apply queue_not_update_type.
Qed.

(** X11.  When the follow-up message cannot be queued, [save] raises after the
    write: the store keeps the row, and neither telemetry nor the
    dashboard hears of it. *)
Theorem save_raises_after_write (self : instance) (new require_etag : bool)
    (row : gmap string val) (tok : string) (d : Z) (w w1 : world S) :
  save_row self = Ok row ->
  save_write self new require_etag row w = (Ok (inl tok), w1) ->
  queue_delay enums (set_etag self tok) = Some d ->
  ~ In (name (cls self)) (UpdateType_members enums) ->
  save enums self new require_etag w = (Raise NotImplementedError, w1)
  /\ exists s1,
       w1 = {| store := s1;
               log := (log w ++ [write_call self new require_etag row])%list |}.
Proof.
  intros Hrow Hw Hd Hn. split.
  - unfold save. unfold bind at 1. unfold lift. rewrite Hrow.
    unfold bind at 1. rewrite Hw. unfold bind at 1.
    rewrite queue_as_needed_run, Hd.
    by rewrite (queue_not_update_type (set_etag self tok) None (Some d) w1 Hn).
  - apply (proj2 (save_write_call self new require_etag row w) tok w1 Hw).
Qed.

(** X12.  [delete] pushes the dashboard event before it looks at the keys: a
    record whose keys cannot be read or resolved still has its event
    pushed, and the row is never asked to be deleted. *)
Theorem delete_unresolved_keys (self : instance) (e : exn) (w : world S) :
  get_keys self = Raise e
  \/ (exists keys, get_keys self = Ok keys
                   /\ (resolve (fst keys) = Raise e
                       \/ (exists p, resolve (fst keys) = Ok p
                                     /\ resolve (snd keys) = Raise e))) ->
  delete self w = (Raise e, extend w (event_part self)).
Proof.
  intros H. unfold delete. unfold bind at 1. rewrite event_as_needed_run.
  unfold_m.
  destruct H as [-> | (keys & -> & [-> | (p & -> & ->)])]; reflexivity.
Qed.

Lemma get_run (cls : model) (PK RK : val) (p r : string) (w : world S) :
  resolve PK = Ok p ->
  (if truthy RK then resolve RK else Ok p) = Ok r ->
  get cls PK RK w =
  (match get_entity (table_name cls) p r (store w) with
   | Ok row =>
       match load cls row with
       | Ok entry => Ok (Some entry)
       | Raise e => Raise e
       end
   | Raise e =>
       if bool_decide (e = AzureMissingResourceHttpError) then Ok None
       else Raise e
   end,
   extend w [GetEntity (table_name cls) p r]).
Proof.
  intros Hp Hr. unfold get. unfold_m. rewrite Hp.
  destruct (truthy RK); simpl in *.
  - rewrite Hr. simpl.
    destruct (get_entity (table_name cls) p r (store w)) as [row|e]; simpl.
    + by destruct (load cls row).
    + by destruct (bool_decide _).
  - injection Hr as <-.
    destruct (get_entity (table_name cls) p p (store w)) as [row|e]; simpl.
    + by destruct (load cls row).
    + by destruct (bool_decide _).
Qed.

(** A copy of the run of [delete] for the store lemmas below. *)
Lemma delete_run (self : instance) (keys : val * val) (p r : string)
    (w : world S) :
  get_keys self = Ok keys ->
  resolve (fst keys) = Ok p ->
  resolve (snd keys) = Ok r ->
  delete self w =
  match delete_entity (table_name (cls self)) p r (store w) with
  | (Ok _, s1) =>
      (Ok tt,
       {| store := s1;
          log := (log w ++ event_part self
                  ++ [DeleteEntity (table_name (cls self)) p r])%list |})
  | (Raise e, s1) =>
      (if bool_decide (e = AzureMissingResourceHttpError) then Ok tt
       else Raise e,
       {| store := s1;
          log := (log w ++ event_part self
                  ++ [DeleteEntity (table_name (cls self)) p r])%list |})
  end.
Proof.
  intros Hk Hp Hr.
  unfold delete. unfold bind at 1. rewrite event_as_needed_run.
  rewrite Hk. unfold_m. rewrite Hp, Hr.
  destruct (delete_entity _ p r (store w)) as [[[]|e] s1]; simpl.
  - by rewrite <- app_assoc.
  - destruct (bool_decide _); by rewrite <- app_assoc.
Qed.

(** X13.  [get]: an unsupported key raises before any call; otherwise one
    point lookup is made, a missing row gives [None], any other failure
    of the client is raised, and a row is loaded. *)
Theorem get_outcomes (cls : model) (PK RK : val) (w : world S) :
  (forall e, resolve PK = Raise e -> get cls PK RK w = (Raise e, w))
  /\ (forall p e,
        resolve PK = Ok p -> truthy RK = true -> resolve RK = Raise e ->
        get cls PK RK w = (Raise e, w))
  /\ (forall p r,
        resolve PK = Ok p ->
        (if truthy RK then resolve RK else Ok p) = Ok r ->
        get cls PK RK w =
        (match get_entity (table_name cls) p r (store w) with
         | Ok row =>
             match load cls row with
             | Ok entry => Ok (Some entry)
             | Raise e => Raise e
             end
         | Raise e =>
             if bool_decide (e = AzureMissingResourceHttpError) then Ok None
             else Raise e
         end,
         extend w [GetEntity (table_name cls) p r])).
Proof.
  split; [|split].
  - intros e He. unfold get. unfold_m. by rewrite He.
  - intros p e Hp Ht He. unfold get. unfold_m. rewrite Hp, Ht. simpl.
    by rewrite He.
  - intros p r. apply get_run.
Qed.

End MoreSaveFacts.

(** ** Loading any row *)

Lemma rfold_load_dom (fs : list (string * field_info))
    (data d : gmap string val) :
  rfold load_field fs data = Ok d -> dom d = dom data.
Proof.
  revert data. induction fs as [|f fs IH]; intros data; cbn [rfold].
  - by intros [= <-].
  - unfold load_field at 1.
    destruct (data !! fst f) as [v|] eqn:Hv.
    + destruct (decodes (param_annotation (snd f))).
      * destruct (json_loads v) as [j|]; [|discriminate]. cbn [rbind].
        intros H. rewrite (IH _ H). rewrite dom_insert_L.
        apply elem_of_dom_2 in Hv. set_solver.
      * cbn [rbind]. apply IH.
    + cbn [rbind]. apply IH.
Qed.

(** X14.  [load] refuses a row that already has a column named like a key
    field, and a row without store keys; when it reaches the
    constructor, the dictionary it hands over has the columns of the
    row, with the two store keys gone and the key fields in their
    place: decoding changes values, never the set of fields. *)
Theorem load_data_shape (cls : model) (kf : string * option string)
    (data : gmap string val) :
  key_fields cls = Some kf ->
  (is_Some (data !! fst kf) -> load_data cls data = Raise Exception)
  /\ (forall f, snd kf = Some f -> is_Some (data !! f) ->
                load_data cls data = Raise Exception)
  /\ (data !! fst kf = None ->
      (forall f, snd kf = Some f -> data !! f = None) ->
      data !! "PartitionKey" = None ->
      load_data cls data = Raise KeyError)
  /\ (forall d,
        load_data cls data = Ok d ->
        dom d =
        (dom data ∪ {[fst kf]}
           ∪ match snd kf with Some f => {[f]} | None => ∅ end)
          ∖ {["PartitionKey"]} ∖ {["RowKey"]}).
Proof.
  intros Hkf. destruct kf as [pkf rkf]. cbn [fst snd].
  unfold load_data, get_key_fields. rewrite Hkf. cbn [rbind].
  split; [|split; [|split]].
  - intros Hp. apply contains_true in Hp. by rewrite Hp.
  - intros f -> Hf. apply contains_true in Hf. rewrite Hf.
    by destruct (contains pkf data).
  - intros Hp Hr HPK.
    assert (contains pkf data = false) as ->
      by (unfold contains; by rewrite Hp).
    assert (match rkf with Some f => contains f data | None => false end
            = false) as ->.
    { destruct rkf as [f|]; [|done]. unfold contains. by rewrite (Hr f). }
    unfold getitem. by rewrite HPK.
  - intros d.
    destruct (contains pkf data); [discriminate|].
    destruct (match rkf with Some f => contains f data | None => false end);
      [discriminate|].
    unfold getitem, delitem.
    destruct (data !! "PartitionKey") as [pk|]; [|discriminate].
    cbn [rbind].
    destruct rkf as [f|].
    + destruct (<[pkf:=pk]> data !! "RowKey") as [rk|]; [|discriminate].
      cbn [rbind].
      destruct (<[f:=rk]> (<[pkf:=pk]> data) !! "PartitionKey");
        [|discriminate].
      cbn [rbind].
      destruct (base.delete "PartitionKey" (<[f:=rk]> (<[pkf:=pk]> data))
                  !! "RowKey"); [|discriminate].
      cbn [rbind]. intros H. rewrite (rfold_load_dom _ _ _ H).
      rewrite !dom_delete_L, !dom_insert_L. set_solver.
    + cbn [rbind].
      destruct (<[pkf:=pk]> data !! "PartitionKey"); [|discriminate].
      cbn [rbind].
      destruct (base.delete "PartitionKey" (<[pkf:=pk]> data) !! "RowKey");
        [|discriminate].
      cbn [rbind]. intros H. rewrite (rfold_load_dom _ _ _ H).
      rewrite !dom_delete_L, !dom_insert_L. set_solver.
Qed.

(** ** Save, lookup and delete on the store in memory *)

Lemma save_success_store {S : Type} {client : TableClient S} (enums : Enums)
    (self self' : instance) (new require_etag : bool) (w w' : world S) :
  save enums self new require_etag w = (Ok (self', None), w') ->
  exists row tok w1,
    save_row self = Ok row
    /\ save_write self new require_etag row w = (Ok (inl tok), w1)
    /\ self' = set_etag self tok
    /\ store w' = store w1.
Proof.
  unfold save. unfold bind at 1. unfold lift.
  destruct (save_row self) as [row|e]; [|discriminate].
  unfold bind at 1.
  destruct (save_write self new require_etag row w) as [[[tok|err]|e] w1]
    eqn:Hw; [| unfold ret; discriminate | discriminate].
  unfold bind at 1.
  destruct (_queue_as_needed enums (set_etag self tok) w1)
    as [[[]|e] w2] eqn:Hq; [|discriminate].
  apply queue_as_needed_ok in Hq.
  unfold bind at 1. rewrite telemetry_as_needed_run.
  unfold bind at 1. rewrite event_as_needed_run.
  unfold ret. intros [= <- <-].
  exists row, tok, w1. repeat split; try done.
  destruct (queue_delay enums (set_etag self tok)).
  - by destruct Hq as (pk & rk & ->).
  - by subst w2.
Qed.

Lemma mem_save_write (self : instance) (new require_etag : bool)
    (row : gmap string val) (tok : string) (w w1 : world MemStore.t) :
  save_write self new require_etag row w = (Ok (inl tok), w1) ->
  exists k,
    MemStore.keys_of row = Some k
    /\ MemStore.rows (store w1) !! (table_name (cls self), fst k, snd k)
       = Some (row, tok).
Proof.
  unfold save_write.
  destruct new; [|destruct (truthy _ && require_etag)]; unfold_m.
  - unfold MemStore.insert.
    destruct (MemStore.keys_of row) as [k|]; [|simpl; discriminate].
    destruct (MemStore.rows (store w) !! _); simpl; [discriminate|].
    intros [= <- <-]. exists k. split; [done|]. simpl.
    apply lookup_insert_eq.
  - unfold MemStore.replace.
    destruct (MemStore.keys_of row) as [k|]; [|simpl; discriminate].
    destruct (MemStore.rows (store w) !! _) as [[r0 e0]|];
      [|simpl; discriminate].
    destruct (Py.eqb _ _); simpl; [|discriminate].
    intros [= <- <-]. exists k. split; [done|]. simpl.
    apply lookup_insert_eq.
  - unfold MemStore.insert_or_replace.
    destruct (MemStore.keys_of row) as [k|]; [|simpl; discriminate].
    simpl. intros [= <- <-]. exists k. split; [done|]. simpl.
    apply lookup_insert_eq.
Qed.

Lemma mem_saved_lookup (enums : Enums) (self self' : instance)
    (new require_etag : bool) (w w' : world MemStore.t) :
  save enums self new require_etag w = (Ok (self', None), w') ->
  exists row k tok,
    save_row self = Ok row
    /\ MemStore.keys_of row = Some k
    /\ attrs self' = <["etag" := PStr Str tok]> (attrs self)
    /\ get_entity (table_name (cls self)) (fst k) (snd k) (store w')
       = Ok (<["etag" := PStr Str tok]> row).
Proof.
  intros Hsave.
  destruct (save_success_store enums _ _ _ _ _ _ Hsave)
    as (row & tok & w1 & Hrow & Hw & -> & Hst).
  destruct (mem_save_write _ _ _ _ _ _ _ Hw) as (k & Hk & Hrows).
  exists row, k, tok. repeat split; try done.
  simpl. unfold MemStore.lookup. rewrite Hst. by rewrite Hrows.
Qed.

(** X15.  After a save that returns [None] on the store in memory, the store
    holds the row that [save] built under the row's own keys, and its
    concurrency token is the one the record now carries: a point lookup
    gives the row back with that token. *)
Theorem save_then_lookup (enums : Enums) (self self' : instance)
    (new require_etag : bool) (w w' : world MemStore.t) :
  save enums self new require_etag w = (Ok (self', None), w') ->
  exists row k tok,
    save_row self = Ok row
    /\ MemStore.keys_of row = Some k
    /\ attrs self' = <["etag" := PStr Str tok]> (attrs self)
    /\ get_entity (table_name (cls self)) (fst k) (snd k) (store w')
       = Ok (<["etag" := PStr Str tok]> row).
Proof. apply mem_saved_lookup. Qed.

Lemma keys_of_saved (row : gmap string val) (p r : string) :
  row !! "PartitionKey" = Some (PStr Str p) ->
  row !! "RowKey" = Some (PStr Str r) ->
  MemStore.keys_of row = Some (p, r).
Proof. intros Hp Hr. unfold MemStore.keys_of. by rewrite Hp, Hr. Qed.

(** X16.  Saving and then getting.  With key fields as in
    [saved_row_keys_match], a record saved on the store in memory is
    found again by [get] on its own key values when its row key is true
    in a condition, and [get] loads the stored row.  When the row key is
    false in a condition, such as [0], [get] looks under the partition
    key instead, and reports the record as absent if nothing is stored
    there. *)
Theorem save_then_get (enums : Enums) (self self' : instance)
    (kf : string * option string) (new require_etag : bool)
    (w w' : world MemStore.t) :
  key_fields (cls self) = Some kf ->
  plain_key_names kf ->
  datetime_field (fields (cls self)) (fst kf) = false ->
  (forall f, snd kf = Some f ->
             datetime_field (fields (cls self)) f = false) ->
  (forall v, attrs self !! fst kf = Some v -> text_key v = true) ->
  (forall f v, snd kf = Some f -> attrs self !! f = Some v ->
               text_key v = true) ->
  save enums self new require_etag w = (Ok (self', None), w') ->
  exists keys p row tok,
    get_keys self = Ok keys
    /\ save_row self = Ok row
    /\ resolve (fst keys) = Ok p
    /\ (truthy (snd keys) = true ->
        fst (get (cls self) (fst keys) (snd keys) w') =
        match load (cls self) (<["etag" := PStr Str tok]> row) with
        | Ok entry => Ok (Some entry)
        | Raise e => Raise e
        end)
    /\ (truthy (snd keys) = false ->
        MemStore.etag_of (table_name (cls self)) (p, p) (store w') = None ->
        fst (get (cls self) (fst keys) (snd keys) w') = Ok None).
Proof.
  intros Hkf Hnames Hdp Hdr Htp Htr Hsave.
  destruct (mem_saved_lookup enums _ _ _ _ _ _ Hsave)
    as (row & k & tok & Hrow & Hk & _ & Hget).
  destruct (saved_keys self kf row Hkf Hnames Hdp Hdr Htp Htr Hrow)
    as (keys & p & r & Hkeys & Hp & Hr & HPK & HRK).
  rewrite (keys_of_saved row p r HPK HRK) in Hk. injection Hk as <-.
  cbn [fst snd] in Hget.
  exists keys, p, row, tok. repeat split; try done.
  - intros Ht.
    rewrite (get_run (cls self) (fst keys) (snd keys) p r w' Hp)
      by (by rewrite Ht).
    cbn [fst]. by rewrite Hget.
  - intros Hf Hnone.
    rewrite (get_run (cls self) (fst keys) (snd keys) p p w' Hp)
      by (by rewrite Hf).
    cbn [fst]. simpl. unfold MemStore.lookup, MemStore.etag_of in *.
    cbn [fst snd] in Hnone.
    destruct (MemStore.rows (store w') !! (table_name (cls self), p, p));
      [discriminate|].
    reflexivity.
Qed.

(** X17.  On the store in memory [delete] always succeeds once the keys are
    resolved: afterwards no row is stored under them, every other row is
    as it was, and a [get] under those keys reports the record as
    absent.  Deleting again succeeds as well. *)
Theorem delete_removes_row (self : instance) (keys : val * val)
    (p r : string) (w : world MemStore.t) :
  get_keys self = Ok keys ->
  resolve (fst keys) = Ok p ->
  resolve (snd keys) = Ok r ->
  let w1 := snd (delete self w) in
  fst (delete self w) = Ok tt
  /\ MemStore.rows (store w1) =
     base.delete (table_name (cls self), p, r) (MemStore.rows (store w))
  /\ fst (delete self w1) = Ok tt
  /\ store (snd (delete self w1)) = store w1
  /\ (truthy (snd keys) = true ->
      fst (get (cls self) (fst keys) (snd keys) w1) = Ok None).
Proof.
  intros Hk Hp Hr. cbn zeta.
  assert (forall w0 : world MemStore.t,
            fst (delete self w0) = Ok tt
            /\ MemStore.rows (store (snd (delete self w0))) =
               base.delete (table_name (cls self), p, r)
                 (MemStore.rows (store w0))
            /\ MemStore.next (store (snd (delete self w0)))
               = MemStore.next (store w0)) as Hdel.
  { intros w0.
    rewrite (delete_run self keys p r w0 Hk Hp Hr).
    simpl. unfold MemStore.remove.
    destruct (MemStore.rows (store w0) !! (table_name (cls self), p, r))
      eqn:E; simpl.
    - done.
    - repeat split. symmetry. by apply delete_id. }
  destruct (Hdel w) as (H1 & H2 & H3).
  destruct (Hdel (snd (delete self w))) as (H4 & H5 & H6).
  split; [done|]. split; [done|]. split; [done|]. split.
  - destruct (store (snd (delete self (snd (delete self w))))) as [rows' n'].
    destruct (store (snd (delete self w))) as [rows1 n1].
    simpl in *. rewrite H5, H6. f_equal.
    rewrite H2. apply delete_id. apply lookup_delete_eq.
  - intros Ht.
    rewrite (get_run (cls self) (fst keys) (snd keys) p r
               (snd (delete self w)) Hp) by (by rewrite Ht).
    cbn [fst]. simpl. unfold MemStore.lookup. rewrite H2.
    by rewrite lookup_delete_eq.
Qed.

(** ** Search *)

Lemma rmap_Forall2 {A B} (f : A -> result B) (l : list A) (ys : list B) :
  rmap f l = Ok ys -> Forall2 (fun x y => f x = Ok y) l ys.
Proof.
  revert ys. induction l as [|x l IH]; intros ys; cbn [rmap].
  - intros [= <-]. constructor.
  - destruct (f x) as [y|] eqn:Hy; [|discriminate]. cbn [rbind].
    destruct (rmap f l) as [ys'|]; [|discriminate]. cbn [rbind].
    intros [= <-]. constructor; [done | by apply IH].
Qed.

Lemma filter_length_le {A} (p : A -> bool) (l : list A) :
  (length (List.filter p l) <= length l)%nat.
Proof.
  induction l as [|x l IH]; simpl; [lia|]. destruct (p x); simpl; lia.
Qed.

Section SearchFacts.

Context {S : Type} {querier : TableQuery S}.

(** X18.  [search] raises what the compiler raises without asking the store,
    and what the store raises; otherwise the records it returns are the
    loads, in order, of exactly the rows of the store that pass the
    residual filters, so never more records than rows, and the world is
    as it was. *)
Theorem search_outcomes (cls : model) (query : option QueryFilter)
    (raw_unchecked_filter : option string) (num_results : option Z)
    (w : world S) :
  (forall e, build_filters cls query = Raise e ->
             search cls query raw_unchecked_filter num_results w
             = (Raise e, w))
  /\ (forall expr residual,
        build_filters cls query = Ok (expr, residual) ->
        let asked :=
          query_entities (table_name cls)
            (combine_filters expr raw_unchecked_filter) num_results (store w)
        in
        (forall e, asked = Raise e ->
                   search cls query raw_unchecked_filter num_results w
                   = (Raise e, w))
        /\ (forall rows entries,
              asked = Ok rows ->
              search cls query raw_unchecked_filter num_results w
              = (Ok entries, w) ->
              Forall2 (fun row entry => load cls row = Ok entry)
                (List.filter (fun row => post_filter row (Some residual)) rows)
                entries
              /\ (length entries <= length rows)%nat)
        /\ (forall rows,
              asked = Ok rows ->
              snd (search cls query raw_unchecked_filter num_results w) = w)).
Proof.
  split.
  - intros e He. unfold search. unfold_m. by rewrite He.
  - intros expr residual Hb. cbn zeta. unfold search. unfold_m. rewrite Hb.
    cbn [fst snd]. split; [|split].
    + intros e He. by rewrite He.
    + intros rows entries Hrows. rewrite Hrows. intros [= Hmap].
      pose proof (rmap_Forall2 _ _ _ Hmap) as HF. split; [exact HF|].
      rewrite <- (Forall2_length _ _ _ HF). apply filter_length_le.
    + intros rows Hrows. by rewrite Hrows.
Qed.

End SearchFacts.

(** ** The pool resize timer *)

Section PoolResizeFacts.

Import PoolResize.

Context {Node : Type}.
Variable available : list string.
Variable scaleset_max_size : string -> Z.
Variable ceil_quotient : Z -> Z -> result Z.
Variable search_free : string -> result (list Node).
Variable get_tasks_by_pool_name : string -> result (list PoolResize.Task).
Variable search_by_pool : string -> result (list Scaleset).

Lemma scale_down_one_keeps (s : Scaleset) (nodes : list Node) :
  search_free (scaleset_id s) = Ok nodes ->
  Forall (keeps_size search_free) (snd (scale_down_one s nodes))
  /\ size (fst (scale_down_one s nodes)) = size s
  /\ scaleset_id (fst (scale_down_one s nodes)) = scaleset_id s
  /\ (nodes <> [] -> scale_down_one s nodes = (s, [])).
Proof.
  intros Hs. destruct nodes as [|n nodes].
  - unfold scale_down_one. cbn [new_size set_new_size].
    replace (size s - Z.of_nat (length (@nil Node))) with (size s)
      by (cbn [length]; lia).
    destruct (Z.leb (size s) 0) eqn:E; cbn [fst snd size scaleset_id].
    + apply Z.leb_le in E. repeat split; try done.
      constructor; [|constructor]. cbn. done.
    + apply Z.leb_gt in E. repeat split; try done.
      constructor; [|constructor]. cbn. done.
  - repeat split; done.
Qed.

Lemma scale_down_sizes (scalesets : list Scaleset) :
  Forall (keeps_size search_free) (snd (scale_down search_free scalesets))
  /\ (forall after,
        fst (scale_down search_free scalesets) = Ok after ->
        Forall2 (fun s s' =>
                   size s' = size s
                   /\ scaleset_id s' = scaleset_id s
                   /\ (forall nodes,
                         search_free (scaleset_id s) = Ok nodes ->
                         nodes <> [] -> s' = s))
          scalesets after).
Proof.
  induction scalesets as [|s rest [IHc IHs]]; cbn [scale_down].
  - split; [constructor|]. intros after [= <-]. constructor.
  - destruct (search_free (scaleset_id s)) as [nodes|e] eqn:Hs.
    + destruct (scale_down_one_keeps s nodes Hs) as (Hk & Hsize & Hid & Hsame).
      destruct (scale_down_one s nodes) as [s' calls].
      destruct (scale_down search_free rest) as [r calls'].
      cbn [fst snd] in *. split.
      * apply Forall_app. by split.
      * intros after Hafter. destruct r as [l|]; [|discriminate].
        injection Hafter as <-. constructor; [|by apply IHs].
        split; [done|]. split; [done|].
        intros nodes' Hn Hne. rewrite Hs in Hn. injection Hn as <-.
        by injection (Hsame Hne).
    + cbn. split; [constructor | discriminate].
Qed.

(** X19.  [scale_down] never makes a scale set smaller: a scale set with free
    nodes is left alone, and one without is asked to resize to the size
    it already has, or to shut down when that size is not positive.  The
    sizes and the identifiers of the scale sets are unchanged. *)
Theorem scale_down_keeps_sizes (scalesets : list Scaleset) :
  Forall (keeps_size search_free) (snd (scale_down search_free scalesets))
  /\ (forall after,
        fst (scale_down search_free scalesets) = Ok after ->
        Forall2 (fun s s' =>
                   size s' = size s
                   /\ scaleset_id s' = scaleset_id s
                   /\ (forall nodes,
                         search_free (scaleset_id s) = Ok nodes ->
                         nodes <> [] -> s' = s))
          scalesets after).
Proof. apply scale_down_sizes. Qed.

(** The first loop of [scale_up] changes nothing and calls nothing: it
    passes over every scale set, or it raises at the first one that has
    room. *)
Lemma grow_outcome (p : Pool) (scalesets : list Scaleset) (n : Z) :
  snd (grow available p scalesets n) = []
  /\ snd (fst (grow available p scalesets n)) = scalesets
  /\ ((fst (fst (grow available p scalesets n)) = Ok (Some n)
       /\ Forall (fun s => ~ has_room available p s) scalesets)
      \/ (fst (fst (grow available p scalesets n)) = Raise TypeError
          /\ Exists (has_room available p) scalesets)).
Proof.
  induction scalesets as [|s rest IH]; cbn [grow].
  - split; [done|]. split; [done|]. left. by split.
  - destruct IH as (Hcalls & Hafter & Hr).
    assert (~ has_room available p s ->
            snd (let '(r, after, calls) := grow available p rest n in
                 (r, s :: after, calls)) = []
            /\ snd (fst (let '(r, after, calls) := grow available p rest n in
                         (r, s :: after, calls))) = s :: rest
            /\ ((fst (fst (let '(r, after, calls) :=
                             grow available p rest n in
                           (r, s :: after, calls))) = Ok (Some n)
                 /\ Forall (fun s => ~ has_room available p s) (s :: rest))
                \/ (fst (fst (let '(r, after, calls) :=
                                grow available p rest n in
                              (r, s :: after, calls))) = Raise TypeError
                    /\ Exists (has_room available p) (s :: rest))))
      as Hcontinue.
    { intros Hno. destruct (grow available p rest n) as [[r after] calls].
      cbn [fst snd] in *. split; [done|]. split; [by rewrite Hafter|].
      destruct Hr as [[Hr Hall] | [Hr Hex]].
      - left. split; [done|]. by constructor.
      - right. split; [done|]. by apply Exists_cons_tl. }
    destruct (in_names (state s) available) eqn:Hav.
    + apply in_names_In in Hav.
      destruct (Z.ltb (size s) (max_size p)) eqn:Hlt.
      * apply Z.ltb_lt in Hlt. unfold call_max_size, min_max_size.
        destruct (own_max_size s) as [z|m] eqn:Hm; cbn [rbind].
        -- cbn [fst snd]. split; [done|]. split; [done|]. right.
           split; [done|]. apply Exists_cons_hd. unfold has_room.
           by rewrite Hm.
        -- destruct (Z.ltb (size s) m) eqn:Hlt'.
           ++ apply Z.ltb_lt in Hlt'. cbn [fst snd].
              split; [done|]. split; [done|]. right.
              split; [done|]. apply Exists_cons_hd. unfold has_room.
              by rewrite Hm.
           ++ apply Z.ltb_ge in Hlt'. apply Hcontinue.
              unfold has_room. rewrite Hm. lia.
      * apply Z.ltb_ge in Hlt. apply Hcontinue. unfold has_room. lia.
    + apply Hcontinue. unfold has_room. intros (Hin & _).
      apply in_names_In in Hin. congruence.
Qed.

Lemma create_scalesets_calls (p : Pool) (turns : nat) (n : Z) :
  Forall (fun c => exists size, c = Create p size \/ c = SaveNew p size)
    (create_scalesets scaleset_max_size p turns n).
Proof.
  unfold create_scalesets.
  induction (created_sizes scaleset_max_size p turns n) as [|z l IH];
    cbn [flat_map app]; [constructor|].
  constructor; [by exists z; left|]. constructor; [by exists z; right|].
  exact IH.
Qed.

Lemma scale_up_run (p : Pool) (scalesets : list Scaleset) (n : Z) :
  let run := scale_up available scaleset_max_size ceil_quotient p scalesets n in
  let limit := Z.min (scaleset_max_size (image p)) (max_size p) in
  snd (fst run) = scalesets
  /\ Forall (fun c => exists size, c = Create p size \/ c = SaveNew p size)
       (snd run)
  /\ (Exists (has_room available p) scalesets ->
      run = (Raise TypeError, scalesets, []))
  /\ (Forall (fun s => ~ has_room available p s) scalesets ->
      (n <= 0 -> run = (Ok tt, scalesets, []))
      /\ (forall e, 0 < n -> ceil_quotient n limit = Raise e ->
                    run = (Raise e, scalesets, []))
      /\ (forall turns, 0 < n -> ceil_quotient n limit = Ok turns ->
            run = (Ok tt, scalesets,
                   create_scalesets scaleset_max_size p (Z.to_nat turns) n))).
Proof.
  cbn zeta. unfold scale_up.
  destruct (grow_outcome p scalesets n) as (Hcalls & Hafter & Hr).
  destruct (grow available p scalesets n) as [[r after] calls].
  cbn [fst snd] in *. subst calls after.
  destruct Hr as [[-> Hall] | [-> Hex]].
  - destruct (Z.gtb n 0) eqn:Hn.
    + apply Z.gtb_lt in Hn.
      destruct (ceil_quotient n _) as [turns|e] eqn:Hq; cbn [fst snd app].
      * split; [done|]. split; [apply create_scalesets_calls|].
        split.
        { intros Hex. apply Exists_exists in Hex as (s & Hin & Hs).
          rewrite Forall_forall in Hall. by destruct (Hall s Hin). }
        intros _. split; [lia|]. split; [discriminate|].
        by intros turns' _ [= <-].
      * split; [done|]. split; [constructor|]. split.
        { intros Hex. apply Exists_exists in Hex as (s & Hin & Hs).
          rewrite Forall_forall in Hall. by destruct (Hall s Hin). }
        intros _. split; [lia|]. split; [|discriminate].
        by intros e' _ [= <-].
    + rewrite Z.gtb_ltb in Hn. apply Z.ltb_ge in Hn. cbn [fst snd].
      split; [done|]. split; [constructor|]. split.
      { intros Hex. apply Exists_exists in Hex as (s & Hin & Hs).
        rewrite Forall_forall in Hall. by destruct (Hall s Hin). }
      intros _. split; [done|]. split; intros; lia.
  - cbn [fst snd]. split; [done|]. split; [constructor|]. split; [done|].
    intros Hall. apply Exists_exists in Hex as (s & Hin & Hs).
    rewrite Forall_forall in Hall. by destruct (Hall s Hin).
Qed.

(** X24.  [scale_up] never resizes a scale set: its first loop leaves
    every scale set as it is, and raises [TypeError] at the first
    available scale set that is smaller than the pool may be and whose
    [max_size] is an attribute, or a method returning more than its
    size, since the loop both calls [max_size] and compares it with an
    integer.  When no scale set has room, [scale_up] does nothing for a
    need that is not positive, and otherwise creates and saves new scale
    sets, as many as the rounded quotient says, or raises what the
    quotient raises. *)
Theorem scale_up_outcome (p : Pool) (scalesets : list Scaleset) (n : Z) :
  let run := scale_up available scaleset_max_size ceil_quotient p scalesets n in
  let limit := Z.min (scaleset_max_size (image p)) (max_size p) in
  snd (fst run) = scalesets
  /\ Forall (fun c => exists size, c = Create p size \/ c = SaveNew p size)
       (snd run)
  /\ (Exists (has_room available p) scalesets ->
      run = (Raise TypeError, scalesets, []))
  /\ (Forall (fun s => ~ has_room available p s) scalesets ->
      (n <= 0 -> run = (Ok tt, scalesets, []))
      /\ (forall e, 0 < n -> ceil_quotient n limit = Raise e ->
                    run = (Raise e, scalesets, []))
      /\ (forall turns, 0 < n -> ceil_quotient n limit = Ok turns ->
            run = (Ok tt, scalesets,
                   create_scalesets scaleset_max_size p (Z.to_nat turns) n))).
Proof. apply scale_up_run. Qed.

(** X25.  When the number of turns is the quotient of the need by the
    limit of a scale set, rounded up, the scale sets that [scale_up]
    creates have positive sizes within the limit, and together exactly
    the nodes needed. *)
Theorem created_sizes_cover (p : Pool) (turns : nat) (n : Z) :
  let limit := Z.min (scaleset_max_size (image p)) (max_size p) in
  let sizes := created_sizes scaleset_max_size p turns n in
  0 < limit -> 0 < n ->
  (Z.of_nat turns - 1) * limit < n <= Z.of_nat turns * limit ->
  length sizes = turns
  /\ fold_right Z.add 0 sizes = n
  /\ Forall (fun size => 0 < size <= limit) sizes.
Proof.
  cbn zeta. set (limit := Z.min _ _). intros Hlimit.
  revert n. induction turns as [|turns IH]; intros n Hn Hturns.
  - cbn in Hturns. lia.
  - cbn [created_sizes]. fold limit.
    rewrite Nat2Z.inj_succ in Hturns.
    replace (Z.succ (Z.of_nat turns) - 1) with (Z.of_nat turns) in Hturns
      by lia.
    rewrite Z.mul_succ_l in Hturns.
    destruct turns as [|turns].
    + cbn in Hturns |- *. rewrite Z.min_r by lia.
      split; [done|]. split; [lia|]. constructor; [lia | constructor].
    + assert (limit <= Z.of_nat (S turns) * limit) as Hge.
      { rewrite Nat2Z.inj_succ, Z.mul_succ_l.
        pose proof (Z.mul_nonneg_nonneg (Z.of_nat turns) limit
                      ltac:(lia) ltac:(lia)). lia. }
      rewrite Z.min_l by lia.
      destruct (IH (n - limit)) as (Hlen & Hsum & Hall); [lia| |].
      { replace (Z.of_nat (S turns) - 1) with (Z.of_nat turns) by lia.
        rewrite Nat2Z.inj_succ, Z.mul_succ_l in Hturns |- *. lia. }
      cbn [length fold_right]. split; [by rewrite Hlen|].
      split; [lia|]. constructor; [lia | done].
Qed.

Lemma uncovered_resizing (scalesets : list Scaleset) (n : Z) :
  Exists (fun s => state s = "resize") scalesets ->
  uncovered scalesets n = None.
Proof.
  intros H. revert n. induction H as [s l Hs | s l _ IH]; intros n; cbn.
  - by rewrite Hs.
  - destruct (String.eqb (state s) "resize"); [done | apply IH].
Qed.

Lemma uncovered_sum (scalesets : list Scaleset) (n : Z) :
  Forall (fun s => state s <> "resize") scalesets ->
  uncovered scalesets n = Some (n - fold_right Z.add 0 (map size scalesets)).
Proof.
  intros H. revert n. induction H as [|s l Hs _ IH]; intros n; cbn.
  - by rewrite Z.sub_0_r.
  - apply String.eqb_neq in Hs. rewrite Hs. rewrite IH. f_equal. lia.
Qed.

Lemma get_vm_count_sum (tasks : list PoolResize.Task) :
  get_vm_count tasks =
  fold_right Z.add 0 (map (fun t => count (pool (config t))) tasks).
Proof.
  unfold get_vm_count.
  assert (forall acc,
            fold_left (fun c t => c + count (pool (config t))) tasks acc
            = acc + fold_right Z.add 0
                      (map (fun t => count (pool (config t))) tasks)) as H.
  { induction tasks as [|t tasks IH]; intros acc; cbn; [lia|].
    rewrite IH. lia. }
  rewrite H. lia.
Qed.

(** X20.  The decision of the timer for a pool whose searches succeed.  A
    pool without tasks, or with a scale set that is resizing, is left
    alone.  Otherwise the machines asked for by the tasks are set
    against the sizes of the scale sets: when machines are missing,
    [scale_up] is called once with the number missing, and its outcome
    is the outcome for the pool, [TypeError] when a scale set has room;
    when there are too many, the only calls are those of [scale_down],
    which keep every size; when the two are equal nothing is called. *)
Theorem resize_pool_decision (p : Pool) (tasks : list PoolResize.Task)
    (scalesets : list Scaleset) :
  get_tasks_by_pool_name (name p) = Ok tasks ->
  search_by_pool (name p) = Ok scalesets ->
  let run :=
    resize_pool available scaleset_max_size ceil_quotient search_free
      get_tasks_by_pool_name search_by_pool p in
  let missing :=
    fold_right Z.add 0 (map (fun t => count (pool (config t))) tasks)
    - fold_right Z.add 0 (map size scalesets) in
  let up :=
    scale_up available scaleset_max_size ceil_quotient p scalesets missing in
  (tasks = [] -> run = (Ok tt, []))
  /\ (Exists (fun s => state s = "resize") scalesets -> run = (Ok tt, []))
  /\ (tasks <> [] -> Forall (fun s => state s <> "resize") scalesets ->
      (0 < missing ->
       run = (fst (fst up), ScaleUp p scalesets missing :: snd up)
       /\ (Exists (has_room available p) scalesets ->
           run = (Raise TypeError, [ScaleUp p scalesets missing])))
      /\ (missing = 0 -> run = (Ok tt, []))
      /\ (missing < 0 ->
          snd run = snd (scale_down search_free scalesets)
          /\ Forall (keeps_size search_free) (snd run))).
Proof.
  intros Ht Hs. cbn zeta. unfold resize_pool. rewrite Ht.
  split; [|split].
  - by intros ->.
  - intros Hr. destruct tasks as [|t tasks]; [done|].
    rewrite Hs. by rewrite (uncovered_resizing _ _ Hr).
  - intros Hne Hnr. destruct tasks as [|t tasks]; [done|].
    rewrite Hs. rewrite (uncovered_sum _ _ Hnr).
    rewrite (get_vm_count_sum (t :: tasks)).
    set (missing := _ - _).
    split; [|split].
    + intros Hpos. apply Z.gtb_lt in Hpos. rewrite Hpos.
      pose proof (scale_up_run p scalesets missing) as (_ & _ & Hroom & _).
      destruct (scale_up _ _ _ p scalesets missing) as [[r after] calls].
      cbn [fst snd]. split; [done|].
      intros Hex. specialize (Hroom Hex). by injection Hroom as -> _ ->.
    + intros ->. reflexivity.
    + intros Hneg.
      assert (Z.gtb missing 0 = false) as ->
        by (rewrite Z.gtb_ltb; apply Z.ltb_ge; lia).
      apply Z.ltb_lt in Hneg. rewrite Hneg.
      pose proof (scale_down_sizes scalesets) as [Hk _].
      destruct (scale_down search_free scalesets) as [r calls].
      cbn [fst snd] in *. by split.
Qed.

Lemma uncovered_some (scalesets : list Scaleset) (n m : Z) :
  uncovered scalesets n = Some m ->
  m = n - fold_right Z.add 0 (map size scalesets).
Proof.
  revert n. induction scalesets as [|s rest IH]; intros n; simpl.
  - intros [= <-]. lia.
  - destruct (String.eqb (state s) "resize"); [discriminate|].
    intros H. apply IH in H. lia.
Qed.

Lemma resize_pool_calls (p : Pool) :
  Forall (fun c =>
            keeps_size search_free c
            \/ (exists tasks scalesets,
                  get_tasks_by_pool_name (name p) = Ok tasks
                  /\ search_by_pool (name p) = Ok scalesets
                  /\ 0 < get_vm_count tasks
                         - fold_right Z.add 0 (map size scalesets)
                  /\ c = ScaleUp p scalesets
                           (get_vm_count tasks
                            - fold_right Z.add 0 (map size scalesets)))
            \/ (exists size, c = Create p size \/ c = SaveNew p size))
    (snd (resize_pool available scaleset_max_size ceil_quotient search_free
            get_tasks_by_pool_name search_by_pool p)).
Proof.
  unfold resize_pool.
  destruct (get_tasks_by_pool_name (name p)) as [tasks|e] eqn:Ht;
    [|constructor].
  destruct tasks as [|t tasks]; [constructor|].
  destruct (search_by_pool (name p)) as [scalesets|e] eqn:Hs; [|constructor].
  destruct (uncovered scalesets (get_vm_count (t :: tasks))) as [m|] eqn:Hu;
    [|constructor].
  apply uncovered_some in Hu.
  destruct (Z.gtb m 0) eqn:Hgt.
  - pose proof (scale_up_run p scalesets m) as (_ & Hcalls & _).
    destruct (scale_up _ _ _ p scalesets m) as [[r after] calls].
    cbn [fst snd] in *. constructor.
    + right. left. exists (t :: tasks), scalesets.
      repeat split; [lia | by rewrite Hu].
    + eapply Forall_impl; [exact Hcalls|]. intros c Hc. right. by right.
  - destruct (Z.ltb m 0); [|constructor].
    pose proof (proj1 (scale_down_sizes scalesets)) as Hk.
    destruct (scale_down search_free scalesets) as [r calls]. simpl in *.
    eapply Forall_impl; [exact Hk|]. intros c Hc. by left.
Qed.

(** X22.  Whatever [main] asks for, pool after pool, is either a call of
    [scale_up] for a pool of its list, with the scale sets of that pool
    and a positive count of nodes, the machines the tasks of the pool
    ask for less the sizes of its scale sets; or the creation or the
    saving of a new scale set for a pool of its list, which [scale_up]
    asks for; or a call that [scale_down] makes: a resize of a scale set
    to the size it has, or the shutdown of a scale set of no size. *)
Theorem main_calls (pools : list Pool) :
  Forall (fun c =>
            keeps_size search_free c
            \/ (exists p tasks scalesets,
                  In p pools
                  /\ get_tasks_by_pool_name (name p) = Ok tasks
                  /\ search_by_pool (name p) = Ok scalesets
                  /\ 0 < get_vm_count tasks
                         - fold_right Z.add 0 (map size scalesets)
                  /\ c = ScaleUp p scalesets
                           (get_vm_count tasks
                            - fold_right Z.add 0 (map size scalesets)))
            \/ (exists p size,
                  In p pools /\ (c = Create p size \/ c = SaveNew p size)))
    (snd (main available scaleset_max_size ceil_quotient search_free
            get_tasks_by_pool_name search_by_pool pools)).
Proof.
  induction pools as [|p rest IH]; simpl; [constructor|].
  pose proof (resize_pool_calls p) as Hp.
  assert (Forall
            (fun c =>
               keeps_size search_free c
               \/ (exists q tasks scalesets,
                     (p = q \/ In q rest)
                     /\ get_tasks_by_pool_name (name q) = Ok tasks
                     /\ search_by_pool (name q) = Ok scalesets
                     /\ 0 < get_vm_count tasks
                            - fold_right Z.add 0 (map size scalesets)
                     /\ c = ScaleUp q scalesets
                              (get_vm_count tasks
                               - fold_right Z.add 0 (map size scalesets)))
               \/ (exists q size,
                     (p = q \/ In q rest)
                     /\ (c = Create q size \/ c = SaveNew q size)))
            (snd (resize_pool available scaleset_max_size ceil_quotient
                    search_free get_tasks_by_pool_name search_by_pool p)))
    as Hp'.
  { eapply Forall_impl; [exact Hp|].
    intros c [Hc | [(ts & ss & H) | (size & H)]]; [by left| |].
    - right. left. exists p, ts, ss. split; [by left | exact H].
    - right. right. exists p, size. split; [by left | exact H]. }
  destruct (resize_pool _ _ _ search_free get_tasks_by_pool_name
              search_by_pool p) as [[[]|e] calls]; simpl in Hp'.
  - destruct (main _ _ _ search_free get_tasks_by_pool_name search_by_pool
                rest) as [r calls']. simpl in *.
    apply Forall_app. split; [exact Hp'|].
    eapply Forall_impl; [exact IH|].
    intros c [Hc | [(q & ts & ss & Hq & H) | (q & size & Hq & H)]];
      [by left| |].
    + right. left. exists q, ts, ss. split; [by right | exact H].
    + right. right. exists q, size. split; [by right | exact H].
  - simpl. exact Hp'.
Qed.

End PoolResizeFacts.

(** ** Record types without key fields *)

Section KeyFacts.

Context {S : Type} {client : TableClient S} (enums : Enums).

(** X21.  [key_fields] of [ORMMixin] raises [NotImplementedError]; every
    method that asks for the key fields of a record type that did not
    define them raises it too: the filter compiler on any query that is
    not empty, [load], [get_keys], [queue], [save] before any call of the
    table client, and [delete] after its event. *)
Theorem keys_not_defined (self : instance) (new require_etag : bool)
    (data : gmap string val) (item : string * list val) (query : QueryFilter)
    (method : option string) (timeout : option Z) (w : world S) :
  key_fields (cls self) = None ->
  build_filters (cls self) (Some (item :: query)) = Raise NotImplementedError
  /\ load (cls self) data = Raise NotImplementedError
  /\ get_keys self = Raise NotImplementedError
  /\ queue enums self method timeout w = (Raise NotImplementedError, w)
  /\ save enums self new require_etag w = (Raise NotImplementedError, w)
  /\ delete self w = (Raise NotImplementedError, extend w (event_part self)).
Proof.
  intros Hk.
  assert (get_keys self = Raise NotImplementedError) as Hkeys
    by (unfold get_keys, get_key_fields; by rewrite Hk).
  repeat split.
  - unfold build_filters, get_key_fields. by rewrite Hk.
  - unfold load, load_data, get_key_fields. by rewrite Hk.
  - exact Hkeys.
  - unfold queue.
    destruct (negb (contains "state" (attrs self))); [done|].
    destruct (negb (in_names _ _)); [done|].
    unfold bind at 1. unfold lift. by rewrite Hkeys.
  - unfold save. unfold bind at 1. unfold lift.
    unfold save_row, get_key_fields. by rewrite Hk.
  - unfold delete. unfold bind at 1. rewrite event_as_needed_run.
    unfold_m. by rewrite Hkeys.
Qed.

End KeyFacts.

Lemma keys_not_defined_witness :
  build_filters Fleet.Note (Some [("text", [])]) = Raise NotImplementedError
  /\ save enums Fleet.note true false MemStore.start
     = (Raise NotImplementedError, MemStore.start)
  /\ delete Fleet.note MemStore.start
     = (Raise NotImplementedError,
        extend MemStore.start (event_part Fleet.note))
  /\ event_part Fleet.note
     = [AddEvent "Note" {["text" := JStr "hello"]}].
Proof.
  destruct (keys_not_defined enums Fleet.note true false ∅ ("text", []) []
              None None MemStore.start eq_refl)
    as (Hq & _ & _ & _ & Hsave & Hdel).
  split; [exact Hq|]. split; [exact Hsave|]. split; [exact Hdel|].
  vm_compute. reflexivity.
Defined.





(** ** The further properties on the sample records *)

Lemma resolve_accepts_keys_witness :
  (exists s, resolve (TaskState "init") = Ok s
             /\ forall c, resolve (PStr c s) = Ok s)
  /\ resolve (PList []) = Raise NotImplementedError.
Proof.
  split.
  - apply (proj1 (resolve_accepts_keys (TaskState "init"))). reflexivity.
  - apply (proj2 (resolve_accepts_keys (PList []))). reflexivity.
Defined.

Lemma resolve_after_export_witness :
  exists row keys,
    save_row Fleet.image = Ok row
    /\ get_keys Fleet.image = Ok keys
    /\ resolve (fst keys) = Ok "linux"
    /\ row !! "PartitionKey" = Some (PStr Str "Linux").
Proof.
  destruct (save_row Fleet.image) as [row|e] eqn:Hrow.
  - destruct (resolve_after_export Fleet.image ("os", None) row
                "OS" "linux" (PStr Str "Linux") eq_refl)
      as (keys & text & Hkeys & _ & Hname & _ & Hpk & Htext & _).
    + split; [reflexivity|]. intros f [=].
    + reflexivity.
    + vm_compute. reflexivity.
    + exact Hrow.
    + exists row, keys. split; [reflexivity|]. split; [exact Hkeys|].
      split; [exact Hname|]. by rewrite <- (Htext Str "Linux" eq_refl).
  - exfalso.
    assert (match save_row Fleet.image with
            | Ok _ => true
            | Raise _ => false
            end = true) as Hok by (vm_compute; reflexivity).
    rewrite Hrow in Hok. discriminate.
Defined.

Lemma build_filters_unknown_field_witness :
  has_field Task "owner" = false
  /\ build_filters Task
       (Some [("owner", [PInt 1]); ("state", [TaskState "init"])])
     = Raise ValueError.
Proof.
  split; [reflexivity|].
  assert (Exists (fun item => has_field Task (fst item) = false)
            [("owner", [PInt 1]); ("state", [TaskState "init"])]) as Hbad
    by (left; reflexivity).
  apply (proj2 (build_filters_unknown_field Task _ Hbad)
           ("job_id", Some "task_id") "owner" [PInt 1]
           [("state", [TaskState "init"])]);
    reflexivity.
Defined.

Lemma build_filters_server_side_witness :
  build_filters Task
    (Some [("state", [TaskState "init"; TaskState "running"]);
           ("job_id", [job]);
           ("task_id", [PInt 7; PBool true])])
  = Ok (Some ("(state eq 'init' or state eq 'running')"
              ++ " and PartitionKey eq '6a9a8c1e-0d3b-4c57-9a75-0f2f1f0f6d11'"
              ++ " and (RowKey eq 7 or RowKey eq 1)"), ∅).
Proof.
  apply (build_filters_server_side Task ("job_id", Some "task_id")).
  - reflexivity.
  - discriminate.
  - repeat constructor; discriminate.
Defined.

Lemma build_filters_residual_origin_witness :
  build_filters Task (Some [("error", [PStr Str "out of memory"])])
  = Ok (None, {["error" := [PStr Str "out of memory"]]})
  /\ exists field,
       In (field, [PStr Str "out of memory"])
         [("error", [PStr Str "out of memory"])]
       /\ "error" = store_field_name ("job_id", Some "task_id") field
       /\ [PStr Str "out of memory"] <> []
       /\ server_safe [PStr Str "out of memory"] = false.
Proof.
  assert (build_filters Task (Some [("error", [PStr Str "out of memory"])])
          = Ok (None, {["error" := [PStr Str "out of memory"]]})) as H
    by reflexivity.
  split; [exact H|].
  apply (build_filters_residual_origin Task ("job_id", Some "task_id")
           [("error", [PStr Str "out of memory"])] None
           {["error" := [PStr Str "out of memory"]]} "error"
           [PStr Str "out of memory"] eq_refl H).
  apply lookup_singleton_eq.
Defined.

Lemma post_filter_antitone_witness :
  post_filter {["state" := PStr Str "running"; "os" := PStr Str "linux"]}
    (Some {["state" := [PStr Str "running"]]}) = true.
Proof.
  apply (post_filter_antitone _ {["state" := [PStr Str "running"]]}
           (<["os" := [PStr Str "linux"]]>
              {["state" := [PStr Str "running"]]})).
  - apply insert_subseteq. apply lookup_singleton_ne. discriminate.
  - vm_compute. reflexivity.
Defined.

Lemma task_key_values :
  attrs (task "running" PNone) !! "job_id" = Some job
  /\ attrs (task "running" PNone) !! "task_id" = Some tid.
Proof. split; vm_compute; reflexivity. Qed.

Lemma task_plain_key_names : plain_key_names ("job_id", Some "task_id").
Proof.
  split; [reflexivity|]. intros f Hf. apply Ok_inj_some in Hf. subst f.
  repeat split; discriminate.
Qed.

Lemma task_text_keys :
  (forall v, attrs (task "running" PNone) !! "job_id" = Some v ->
             text_key v = true)
  /\ (forall f v, Some "task_id" = Some f ->
                  attrs (task "running" PNone) !! f = Some v ->
                  text_key v = true).
Proof.
  destruct task_key_values as [Hj Ht]. split.
  - intros v Hv. rewrite Hj in Hv. apply Ok_inj_some in Hv. by subst v.
  - intros f v Hf Hv. apply Ok_inj_some in Hf. subst f.
    rewrite Ht in Hv. apply Ok_inj_some in Hv. by subst v.
Qed.

Lemma task_no_datetime_keys :
  forall f, Some "task_id" = Some f ->
            datetime_field (fields Task) f = false.
Proof. intros f Hf. apply Ok_inj_some in Hf. by subst f. Qed.

Lemma saved_row_keys_match_witness :
  save_row (task "running" PNone) = Ok (task_row "running" PNone)
  /\ exists keys p r,
       get_keys (task "running" PNone) = Ok keys
       /\ resolve (fst keys) = Ok p /\ resolve (snd keys) = Ok r
       /\ task_row "running" PNone !! "PartitionKey" = Some (PStr Str p)
       /\ task_row "running" PNone !! "RowKey" = Some (PStr Str r).
Proof.
  split; [exact task_running_row|].
  exact (saved_row_keys_match (task "running" PNone)
           ("job_id", Some "task_id") (task_row "running" PNone)
           eq_refl task_plain_key_names eq_refl task_no_datetime_keys
           (proj1 task_text_keys) (proj2 task_text_keys) task_running_row).
Defined.

Lemma saved_row_columns_witness :
  save_row (task "running" PNone) = Ok (task_row "running" PNone)
  /\ task_row "running" PNone !! "Timestamp" = None
  /\ task_row "running" PNone !! "heartbeats" = None
  /\ task_row "running" PNone !! "error" = None.
Proof.
  split; [exact task_running_row|].
  destruct (saved_row_columns (task "running" PNone)
              ("job_id", Some "task_id") (task_row "running" PNone)
              eq_refl task_running_row) as (Hts & _ & _ & Habsent).
  split; [exact Hts|]. split.
  - apply (Habsent "heartbeats"); [intros [=] | intros [=] |].
    right. right. exists ["heartbeats"].
    split; [reflexivity | left; reflexivity].
  - apply (Habsent "error"); [intros [=] | intros [=] |].
    right. left. vm_compute. reflexivity.
Defined.

Lemma save_one_client_call_witness :
  (exists rest,
     log (snd (save enums (task "running" PNone) true false MemStore.start)) =
     (log MemStore.start
        ++ write_call (task "running" PNone) true false
             (task_row "running" PNone) :: rest)%list
     /\ Forall (fun e => is_write e = false) rest)
  /\ write_call (pool "running") false true ∅
     = InsertOrReplaceEntity "Pool" ∅.
Proof.
  destruct (save_one_client_call enums (task "running" PNone) true false
              MemStore.start) as (Hcall & _ & _).
  split; [exact (Hcall _ task_running_row)|].
  destruct (save_one_client_call enums (pool "running") false true
              MemStore.start) as (_ & _ & Hblind).
  apply (Hblind ∅ eq_refl eq_refl). right. vm_compute. reflexivity.
Defined.

Lemma queue_one_message_or_none_witness :
  queue Fleet.strict_enums (task "stopping" PNone) None (Some 30)
    MemStore.start
  = (Raise NotImplementedError, MemStore.start)
  /\ queue enums Fleet.keyless None None MemStore.start
     = (Raise NotImplementedError, MemStore.start).
Proof.
  split.
  - apply (proj2 (proj2 (queue_one_message_or_none Fleet.strict_enums
                           (task "stopping" PNone) None (Some 30)
                           MemStore.start))).
    intros [].
  - apply (proj1 (proj2 (queue_one_message_or_none enums Fleet.keyless
                           None None MemStore.start))).
    reflexivity.
Defined.

Lemma task_stopping_new_row :
  save_row (task "stopping" PNone) = Ok (task_row "stopping" PNone).
Proof. task_row_tac. Qed.

Lemma fst_run {A B} (p : A * B) (a : A) : fst p = a -> p = (a, snd p).
Proof. destruct p. simpl. by intros ->. Qed.

Lemma save_raises_after_write_witness :
  save Fleet.strict_enums (task "stopping" PNone) true false MemStore.start
  = (Raise NotImplementedError,
     snd (save_write (task "stopping" PNone) true false
            (task_row "stopping" PNone) MemStore.start))
  /\ MemStore.etag_of "Task" (job_text, tid_text)
       (store (snd (save Fleet.strict_enums (task "stopping" PNone) true false
                      MemStore.start)))
     = Some "W/0".
Proof.
  assert (save_write (task "stopping" PNone) true false
            (task_row "stopping" PNone) MemStore.start
          = (Ok (inl "W/0"),
             snd (save_write (task "stopping" PNone) true false
                    (task_row "stopping" PNone) MemStore.start))) as Hw
    by (apply fst_run; vm_compute; reflexivity).
  split.
  - apply (proj1 (save_raises_after_write Fleet.strict_enums
                    (task "stopping" PNone) true false
                    (task_row "stopping" PNone) "W/0" 30 MemStore.start _
                    task_stopping_new_row Hw
                    ltac:(vm_compute; reflexivity) (fun H => H))).
  - vm_compute. reflexivity.
Defined.

Lemma delete_unresolved_keys_witness :
  get_keys Fleet.keyless = Raise AttributeError
  /\ delete Fleet.keyless MemStore.start
     = (Raise AttributeError, MemStore.start)
  /\ get_keys Fleet.note = Raise NotImplementedError
  /\ delete Fleet.note MemStore.start
     = (Raise NotImplementedError,
        extend MemStore.start [AddEvent "Note" {["text" := JStr "hello"]}]).
Proof.
  split; [reflexivity|]. split.
  - rewrite (delete_unresolved_keys Fleet.keyless AttributeError
               MemStore.start (or_introl eq_refl)).
    reflexivity.
  - split; [reflexivity|].
    rewrite (delete_unresolved_keys Fleet.note NotImplementedError
               MemStore.start (or_introl eq_refl)).
    reflexivity.
Defined.

Lemma get_outcomes_witness :
  get Task (PList []) PNone MemStore.start
  = (Raise NotImplementedError, MemStore.start)
  /\ fst (get Task job tid MemStore.start) = Ok None.
Proof.
  destruct (get_outcomes Task (PList []) PNone MemStore.start)
    as (Hbad & _ & _).
  split; [exact (Hbad NotImplementedError eq_refl)|].
  destruct (get_outcomes Task job tid MemStore.start) as (_ & _ & Hrun).
  rewrite (Hrun job_text tid_text eq_refl eq_refl). reflexivity.
Defined.

Lemma load_data_shape_witness :
  load_data Task {["job_id" := PStr Str job_text]} = Raise Exception
  /\ load_data Task {["state" := PStr Str "running"]} = Raise KeyError.
Proof.
  destruct (load_data_shape Task ("job_id", Some "task_id")
              {["job_id" := PStr Str job_text]} eq_refl) as (Hdup & _).
  split.
  - apply Hdup. rewrite lookup_singleton_eq. by eexists.
  - destruct (load_data_shape Task ("job_id", Some "task_id")
                {["state" := PStr Str "running"]} eq_refl)
      as (_ & _ & Hmiss & _).
    apply Hmiss.
    + apply lookup_singleton_ne. discriminate.
    + intros f Hf. apply Ok_inj_some in Hf. subst f.
      apply lookup_singleton_ne. discriminate.
    + apply lookup_singleton_ne. discriminate.
Defined.

Lemma save_then_lookup_witness :
  exists self' row k tok,
    save enums (task "running" PNone) true false MemStore.start
    = (Ok (self', None), saved_once)
    /\ save_row (task "running" PNone) = Ok row
    /\ MemStore.keys_of row = Some k
    /\ get_entity "Task" (fst k) (snd k) (store saved_once)
       = Ok (<["etag" := PStr Str tok]> row).
Proof.
  destruct first_save_runs as [self' Hsave].
  destruct (save_then_lookup enums _ _ _ _ _ _ Hsave)
    as (row & k & tok & Hrow & Hk & _ & Hget).
  exists self', row, k, tok. split; [exact Hsave|].
  split; [exact Hrow|]. split; [exact Hk | exact Hget].
Defined.

Lemma save_then_get_witness :
  exists self' row tok,
    save enums (task "running" PNone) true false MemStore.start
    = (Ok (self', None), saved_once)
    /\ truthy tid = true
    /\ fst (get Task job tid saved_once) =
       match load Task (<["etag" := PStr Str tok]> row) with
       | Ok entry => Ok (Some entry)
       | Raise e => Raise e
       end.
Proof.
  destruct first_save_runs as [self' Hsave].
  destruct (save_then_get enums (task "running" PNone) self'
              ("job_id", Some "task_id") true false MemStore.start saved_once
              eq_refl task_plain_key_names eq_refl task_no_datetime_keys
              (proj1 task_text_keys) (proj2 task_text_keys) Hsave)
    as (keys & p & row & tok & Hkeys & _ & _ & Hfound & _).
  assert (get_keys (task "running" PNone) = Ok (job, tid)) as Hk
    by (vm_compute; reflexivity).
  rewrite Hk in Hkeys. apply Ok_inj in Hkeys. subst keys.
  exists self', row, tok. split; [exact Hsave|]. split; [reflexivity|].
  exact (Hfound eq_refl).
Defined.

Lemma delete_removes_row_witness :
  get_keys (task "running" PNone) = Ok (job, tid)
  /\ fst (delete (task "running" PNone) saved_once) = Ok tt
  /\ fst (get Task job tid (snd (delete (task "running" PNone) saved_once)))
     = Ok None.
Proof.
  assert (get_keys (task "running" PNone) = Ok (job, tid)) as Hk
    by (vm_compute; reflexivity).
  split; [exact Hk|].
  destruct (delete_removes_row (task "running" PNone) (job, tid)
              job_text tid_text saved_once Hk eq_refl eq_refl)
    as (Hok & _ & _ & _ & Hgone).
  split; [exact Hok | exact (Hgone eq_refl)].
Defined.

Lemma search_outcomes_witness :
  search Task (Some [("owner", [PInt 1])]) None None
    {| store := tt; log := [] |}
  = (Raise ValueError, {| store := tt; log := [] |})
  /\ snd (search Sample.Pool (Some [("state", [PStr Str "running"])])
            None None {| store := tt; log := [] |})
     = {| store := tt; log := [] |}
  /\ exists entry,
       search Sample.Pool (Some [("state", [PStr Str "running"])])
         None None {| store := tt; log := [] |}
       = (Ok [entry], {| store := tt; log := [] |})
       /\ load Sample.Pool (Fleet.pool_row "linux" "running") = Ok entry.
Proof.
  split.
  - apply (proj1 (search_outcomes Task (Some [("owner", [PInt 1])]) None None
                    {| store := tt; log := [] |})).
    reflexivity.
  - destruct (proj2 (search_outcomes Sample.Pool
                       (Some [("state", [PStr Str "running"])]) None None
                       {| store := tt; log := [] |})
                None {["state" := [PStr Str "running"]]} eq_refl)
      as (_ & Hrows & Hworld).
    split; [exact (Hworld _ eq_refl)|].
    destruct (search Sample.Pool (Some [("state", [PStr Str "running"])])
                None None {| store := tt; log := [] |})
      as [[entries|e] w1] eqn:Hsearch.
    + simpl in Hworld. specialize (Hworld _ eq_refl). subst w1.
      destruct (Hrows _ entries eq_refl eq_refl) as [Hload _].
      change (List.filter _ _) with [Fleet.pool_row "linux" "running"]
        in Hload.
      inversion Hload as [|row entry rest es Hentry Hrest]; subst.
      inversion Hrest; subst.
      exists entry. split; [reflexivity | exact Hentry].
    + exfalso. revert Hsearch. vm_compute. intros [=].
Defined.

Lemma scale_down_keeps_sizes_witness :
  snd (PoolResize.scale_down Fleet.free_nodes
         [Fleet.scaleset "busy" 3; Fleet.scaleset "idle" 4])
  = [PoolResize.Resize
       (PoolResize.set_new_size (Fleet.scaleset "idle" 4) 4)]
  /\ Forall (PoolResize.keeps_size Fleet.free_nodes)
       (snd (PoolResize.scale_down Fleet.free_nodes
               [Fleet.scaleset "busy" 3; Fleet.scaleset "idle" 4])).
Proof.
  split; [reflexivity|].
  apply (proj1 (scale_down_keeps_sizes Fleet.free_nodes
                  [Fleet.scaleset "busy" 3; Fleet.scaleset "idle" 4])).
Defined.

Lemma scale_up_outcome_witness :
  PoolResize.scale_up Fleet.available Fleet.scaleset_max_size
    Fleet.ceil_quotient (Fleet.pool_of "linux" 10)
    [Fleet.scaleset "busy" 1; Fleet.scaleset "idle" 2] 2
  = (Raise TypeError, [Fleet.scaleset "busy" 1; Fleet.scaleset "idle" 2], [])
  /\ PoolResize.scale_up Fleet.available Fleet.scaleset_max_size
       Fleet.ceil_quotient (Fleet.pool_of "bsd" 2) [] 5
     = (Ok tt, [],
        [PoolResize.Create (Fleet.pool_of "bsd" 2) 2;
         PoolResize.SaveNew (Fleet.pool_of "bsd" 2) 2;
         PoolResize.Create (Fleet.pool_of "bsd" 2) 2;
         PoolResize.SaveNew (Fleet.pool_of "bsd" 2) 2;
         PoolResize.Create (Fleet.pool_of "bsd" 2) 1;
         PoolResize.SaveNew (Fleet.pool_of "bsd" 2) 1]).
Proof.
  split.
  - destruct (scale_up_outcome Fleet.available Fleet.scaleset_max_size
                Fleet.ceil_quotient (Fleet.pool_of "linux" 10)
                [Fleet.scaleset "busy" 1; Fleet.scaleset "idle" 2] 2)
      as (_ & _ & Hroom & _).
    apply Hroom. apply Exists_cons_hd. split; [|split].
    + right. right. right. left. reflexivity.
    + reflexivity.
    + reflexivity.
  - destruct (scale_up_outcome Fleet.available Fleet.scaleset_max_size
                Fleet.ceil_quotient (Fleet.pool_of "bsd" 2) [] 5)
      as (_ & _ & _ & Hpass).
    destruct (Hpass (@List.Forall_nil _ _)) as (_ & _ & Hcreate).
    exact (Hcreate 3 eq_refl eq_refl).
Defined.

Lemma created_sizes_cover_witness :
  PoolResize.created_sizes Fleet.scaleset_max_size (Fleet.pool_of "bsd" 2)
    3 5 = [2; 2; 1]
  /\ fold_right Z.add 0
       (PoolResize.created_sizes Fleet.scaleset_max_size
          (Fleet.pool_of "bsd" 2) 3 5) = 5.
Proof.
  split; [reflexivity|].
  apply (created_sizes_cover Fleet.scaleset_max_size (Fleet.pool_of "bsd" 2)
           3 5); [reflexivity | reflexivity |].
  split; [reflexivity | discriminate].
Defined.

Lemma resize_pool_decision_witness :
  PoolResize.resize_pool Fleet.available Fleet.scaleset_max_size
    Fleet.ceil_quotient Fleet.free_nodes Fleet.tasks_of Fleet.scalesets_of
    (Fleet.pool_of "linux" 10)
  = (Raise TypeError,
     [PoolResize.ScaleUp (Fleet.pool_of "linux" 10)
        [Fleet.scaleset "busy" 1; Fleet.scaleset "idle" 2] 2])
  /\ Forall (PoolResize.keeps_size Fleet.free_nodes)
       (snd (PoolResize.resize_pool Fleet.available Fleet.scaleset_max_size
               Fleet.ceil_quotient Fleet.free_nodes Fleet.tasks_of
               Fleet.scalesets_of (Fleet.pool_of "windows" 10))).
Proof.
  split.
  - destruct (resize_pool_decision Fleet.available Fleet.scaleset_max_size
                Fleet.ceil_quotient Fleet.free_nodes Fleet.tasks_of
                Fleet.scalesets_of (Fleet.pool_of "linux" 10)
                [Fleet.task_on 2; Fleet.task_on 3]
                [Fleet.scaleset "busy" 1; Fleet.scaleset "idle" 2]
                eq_refl eq_refl) as (_ & _ & Hrun).
    destruct Hrun as (Hup & _);
      [discriminate | repeat constructor; discriminate |].
    apply (proj2 (Hup eq_refl)).
    apply Exists_cons_hd. split; [|split].
    + right. right. right. left. reflexivity.
    + reflexivity.
    + reflexivity.
  - destruct (resize_pool_decision Fleet.available Fleet.scaleset_max_size
                Fleet.ceil_quotient Fleet.free_nodes Fleet.tasks_of
                Fleet.scalesets_of (Fleet.pool_of "windows" 10)
                [Fleet.task_on 1]
                [Fleet.scaleset "busy" 3; Fleet.scaleset "idle" 4]
                eq_refl eq_refl) as (_ & _ & Hrun).
    destruct Hrun as (_ & _ & Hdown);
      [discriminate | repeat constructor; discriminate |].
    exact (proj2 (Hdown eq_refl)).
Defined.

Lemma main_calls_witness :
  PoolResize.main Fleet.available Fleet.scaleset_max_size Fleet.ceil_quotient
    Fleet.free_nodes Fleet.tasks_of Fleet.scalesets_of
    [Fleet.pool_of "bsd" 2; Fleet.pool_of "macos" 10;
     Fleet.pool_of "windows" 10; Fleet.pool_of "linux" 10]
  = (Raise TypeError,
     [PoolResize.ScaleUp (Fleet.pool_of "bsd" 2) [] 5;
      PoolResize.Create (Fleet.pool_of "bsd" 2) 2;
      PoolResize.SaveNew (Fleet.pool_of "bsd" 2) 2;
      PoolResize.Create (Fleet.pool_of "bsd" 2) 2;
      PoolResize.SaveNew (Fleet.pool_of "bsd" 2) 2;
      PoolResize.Create (Fleet.pool_of "bsd" 2) 1;
      PoolResize.SaveNew (Fleet.pool_of "bsd" 2) 1;
      PoolResize.Resize
        (PoolResize.set_new_size (Fleet.scaleset "idle" 4) 4);
      PoolResize.ScaleUp (Fleet.pool_of "linux" 10)
        [Fleet.scaleset "busy" 1; Fleet.scaleset "idle" 2] 2])
  /\ Forall
       (fun c =>
          PoolResize.keeps_size Fleet.free_nodes c
          \/ (exists p tasks scalesets,
                In p [Fleet.pool_of "bsd" 2; Fleet.pool_of "macos" 10;
                      Fleet.pool_of "windows" 10; Fleet.pool_of "linux" 10]
                /\ Fleet.tasks_of (PoolResize.name p) = Ok tasks
                /\ Fleet.scalesets_of (PoolResize.name p) = Ok scalesets
                /\ 0 < PoolResize.get_vm_count tasks
                       - fold_right Z.add 0 (map PoolResize.size scalesets)
                /\ c = PoolResize.ScaleUp p scalesets
                         (PoolResize.get_vm_count tasks
                          - fold_right Z.add 0
                              (map PoolResize.size scalesets)))
          \/ (exists p size,
                In p [Fleet.pool_of "bsd" 2; Fleet.pool_of "macos" 10;
                      Fleet.pool_of "windows" 10; Fleet.pool_of "linux" 10]
                /\ (c = PoolResize.Create p size
                    \/ c = PoolResize.SaveNew p size)))
       (snd (PoolResize.main Fleet.available Fleet.scaleset_max_size
               Fleet.ceil_quotient Fleet.free_nodes Fleet.tasks_of
               Fleet.scalesets_of
               [Fleet.pool_of "bsd" 2; Fleet.pool_of "macos" 10;
                Fleet.pool_of "windows" 10; Fleet.pool_of "linux" 10])).
Proof.
  split; [reflexivity|].
  apply (main_calls Fleet.available Fleet.scaleset_max_size
           Fleet.ceil_quotient Fleet.free_nodes Fleet.tasks_of
           Fleet.scalesets_of).
Defined.
